(** * Artifact manifests: nexus/pkg/artifacts/manifest.go

    A shallow embedding of the manifest model of the nexus artifacts package
    ([Manifest], [ManifestEntry], [NewManifestFromProto], [WriteToFile],
    [GetManifestEntryFromArtifactFilePath], [loadManifestFromURL]) together with
    the parts of the Go runtime these functions call: [unicode/utf8], [strconv],
    [encoding/json], [crypto/md5], [encoding/base64], [os.CreateTemp] and
    [net/http].

    Conventions.
    - A Go [string] is a [string] of the Standard Library (a sequence of 8-bit
      characters); a [[]byte] is a [list byte]; the conversions [[]byte(s)] and
      [string(b)] are [list_byte_of_string] and [string_of_list_byte].
    - A Go pointer [*string] that is only ever nil or the address of a fresh
      copy is an [option string].
    - A Go map is a [gmap]; a map-typed struct field, which may be nil, is an
      [option (gmap _ _)] ([None] is the nil map, [Some ∅] the empty one).
    - A Go function returning [(T, error)] returns a pair [T * option error]
      ([None] is the nil error), so that the value returned beside an error is
      part of the model.
    - Integers are [Z]; the ranges of [int32] and [int64] are written out where
      the code depends on them. *)

From Stdlib Require Import ZArith List Bool Lia.
From Stdlib Require Import Strings.String Strings.Ascii Strings.Byte.
From Stdlib Require Import Numbers.DecimalFacts Numbers.DecimalPos Numbers.DecimalZ.
From Stdlib Require Import Floats.SpecFloat.
From Stdlib Require Import Sorting.Permutation.
From stdpp Require Import base option list fin_maps gmap strings sorting.
Import ListNotations.

Local Open Scope Z_scope.
Local Open Scope list_scope.

(** ** Bytes *)

(** The numeric value of a byte, and the byte of a value below 256. *)
Definition code (b : byte) : Z := Z.of_N (Byte.to_N b).

Definition byte_of (z : Z) : byte :=
  match Byte.of_N (Z.to_N z) with
  | Some b => b
  | None => "000"%byte
  end.

Definition bytes_of (s : string) : list byte := list_byte_of_string s.

Definition byte_eqb (a b : byte) : bool := code a =? code b.

(** ** unicode/utf8 *)

Module utf8.

Definition RuneError : Z := 65533.
Definition MaxRune : Z := 1114111.
Definition RuneSelf : Z := 128.

(** Continuation bytes lie in [locb, hicb]. *)
Definition locb : Z := 128.
Definition hicb : Z := 191.

(** [first p0] gives, for a leading byte, the size of the sequence and the
    range accepted for the second byte; [None] for a byte that starts no
    sequence (the table [first] and [acceptRanges] of the Go package). *)
Definition first (p0 : Z) : option (nat * Z * Z) :=
  if p0 <? 194 then None
  else if p0 <? 224 then Some (2%nat, locb, hicb)
  else if p0 =? 224 then Some (3%nat, 160, hicb)
  else if p0 <? 237 then Some (3%nat, locb, hicb)
  else if p0 =? 237 then Some (3%nat, locb, 159)
  else if p0 <? 240 then Some (3%nat, locb, hicb)
  else if p0 =? 240 then Some (4%nat, 144, hicb)
  else if p0 <? 244 then Some (4%nat, locb, hicb)
  else if p0 =? 244 then Some (4%nat, locb, 143)
  else None.

Definition is_cont (b : Z) : bool := (locb <=? b) && (b <=? hicb).

(** [DecodeRune p]: the first rune of [p] and its width in bytes;
    [(RuneError, 0)] on empty input and [(RuneError, 1)] on an invalid
    encoding. *)
Definition DecodeRune (p : list byte) : Z * nat :=
  match p with
  | [] => (RuneError, 0%nat)
  | c0 :: p1 =>
    let p0 := code c0 in
    if p0 <? RuneSelf then (p0, 1%nat)
    else
      match first p0 with
      | None => (RuneError, 1%nat)
      | Some (sz, lo, hi) =>
        match p1 with
        | [] => (RuneError, 1%nat)
        | c1 :: p2 =>
          let b1 := code c1 in
          if (b1 <? lo) || (hi <? b1) then (RuneError, 1%nat)
          else if (sz <=? 2)%nat then
            (Z.lor (Z.shiftl (Z.land p0 31) 6) (Z.land b1 63), 2%nat)
          else
            match p2 with
            | [] => (RuneError, 1%nat)
            | c2 :: p3 =>
              let b2 := code c2 in
              if negb (is_cont b2) then (RuneError, 1%nat)
              else if (sz <=? 3)%nat then
                (Z.lor (Z.lor (Z.shiftl (Z.land p0 15) 12)
                              (Z.shiftl (Z.land b1 63) 6))
                       (Z.land b2 63), 3%nat)
              else
                match p3 with
                | [] => (RuneError, 1%nat)
                | c3 :: _ =>
                  let b3 := code c3 in
                  if negb (is_cont b3) then (RuneError, 1%nat)
                  else
                    (Z.lor (Z.lor (Z.lor (Z.shiftl (Z.land p0 7) 18)
                                         (Z.shiftl (Z.land b1 63) 12))
                                  (Z.shiftl (Z.land b2 63) 6))
                           (Z.land b3 63), 4%nat)
                end
            end
        end
      end
  end.

Definition is_surrogate (r : Z) : bool := (55296 <=? r) && (r <=? 57343).

(** [AppendRune]'s encoding of a rune: invalid runes are written as
    [RuneError]. *)
Definition EncodeRune (r : Z) : list byte :=
  if (0 <=? r) && (r <=? 127) then [byte_of r]
  else if (0 <=? r) && (r <=? 2047) then
    [byte_of (Z.lor 192 (Z.shiftr r 6)); byte_of (Z.lor 128 (Z.land r 63))]
  else if (r <? 0) || (MaxRune <? r) || is_surrogate r then
    [byte_of 239; byte_of 191; byte_of 189]
  else if r <=? 65535 then
    [byte_of (Z.lor 224 (Z.shiftr r 12));
     byte_of (Z.lor 128 (Z.land (Z.shiftr r 6) 63));
     byte_of (Z.lor 128 (Z.land r 63))]
  else
    [byte_of (Z.lor 240 (Z.shiftr r 18));
     byte_of (Z.lor 128 (Z.land (Z.shiftr r 12) 63));
     byte_of (Z.lor 128 (Z.land (Z.shiftr r 6) 63));
     byte_of (Z.lor 128 (Z.land r 63))].

(** [Valid p]: [p] consists of valid encodings only. The fuel is the length
    of the input: every step consumes at least one byte. *)
Fixpoint valid_fuel (fuel : nat) (p : list byte) : bool :=
  match fuel with
  | O => match p with [] => true | _ => false end
  | S fuel' =>
    match p with
    | [] => true
    | _ =>
      let '(r, size) := DecodeRune p in
      if (r =? RuneError) && (size =? 1)%nat then false
      else valid_fuel fuel' (skipn size p)
    end
  end.

Definition Valid (p : list byte) : bool := valid_fuel (length p) p.

Definition ValidString (s : string) : bool := Valid (bytes_of s).

End utf8.

(** ** strconv *)

Module strconv.

Definition digit_byte (d : Z) : byte := byte_of (48 + d).

Definition is_digit (b : byte) : bool := (48 <=? code b) && (code b <=? 57).

(** Decimal digits, most significant first, as the bytes that spell them. *)
Fixpoint uint_bytes (d : Decimal.uint) : list byte :=
  match d with
  | Decimal.Nil => []
  | Decimal.D0 d => digit_byte 0 :: uint_bytes d
  | Decimal.D1 d => digit_byte 1 :: uint_bytes d
  | Decimal.D2 d => digit_byte 2 :: uint_bytes d
  | Decimal.D3 d => digit_byte 3 :: uint_bytes d
  | Decimal.D4 d => digit_byte 4 :: uint_bytes d
  | Decimal.D5 d => digit_byte 5 :: uint_bytes d
  | Decimal.D6 d => digit_byte 6 :: uint_bytes d
  | Decimal.D7 d => digit_byte 7 :: uint_bytes d
  | Decimal.D8 d => digit_byte 8 :: uint_bytes d
  | Decimal.D9 d => digit_byte 9 :: uint_bytes d
  end.

Definition cons_digit (v : Z) (d : Decimal.uint) : Decimal.uint :=
  if v =? 0 then Decimal.D0 d else if v =? 1 then Decimal.D1 d
  else if v =? 2 then Decimal.D2 d else if v =? 3 then Decimal.D3 d
  else if v =? 4 then Decimal.D4 d else if v =? 5 then Decimal.D5 d
  else if v =? 6 then Decimal.D6 d else if v =? 7 then Decimal.D7 d
  else if v =? 8 then Decimal.D8 d else Decimal.D9 d.

(** All of [s] read as decimal digits; [None] when some byte is no digit. *)
Fixpoint uint_of_bytes (s : list byte) : option Decimal.uint :=
  match s with
  | [] => Some Decimal.Nil
  | b :: s' =>
    if is_digit b then
      match uint_of_bytes s' with
      | Some d => Some (cons_digit (code b - 48) d)
      | None => None
      end
    else None
  end.

(** [FormatInt z 10] (and [%d] of [fmt]). *)
Definition FormatInt (z : Z) : list byte :=
  match Z.to_int z with
  | Decimal.Pos d => uint_bytes d
  | Decimal.Neg d => "-"%byte :: uint_bytes d
  end.

(** [ParseInt s 10 bitSize]: an optional sign, then one or more digits and
    nothing else; [None] stands for both [ErrSyntax] and [ErrRange]. *)
Definition split_sign (s : list byte) : bool * list byte :=
  match s with
  | b :: r =>
    if byte_eqb b "-" then (true, r)
    else if byte_eqb b "+" then (false, r)
    else (false, s)
  | [] => (false, s)
  end.

Definition ParseInt (s : list byte) (bitSize : Z) : option Z :=
  let '(neg, ds) := split_sign s in
  match ds with
  | [] => None
  | _ =>
    match uint_of_bytes ds with
    | None => None
    | Some d =>
      let n := Z.of_int (if neg then Decimal.Neg d else Decimal.Pos d) in
      if (- 2 ^ (bitSize - 1) <=? n) && (n <? 2 ^ (bitSize - 1))
      then Some n else None
    end
  end.

(** *** float64

    A [float64] is a binary64 number of the Standard Library's specification
    of IEEE 754 ([spec_float] at precision 53 and maximal exponent 1024). *)

Definition float64 : Type := spec_float.

Definition prec : Z := 53.
Definition emax : Z := 1024.

Definition float64_eqb (x y : float64) : bool :=
  match x, y with
  | S754_zero s, S754_zero s' => Bool.eqb s s'
  | S754_infinity s, S754_infinity s' => Bool.eqb s s'
  | S754_nan, S754_nan => true
  | S754_finite s m e, S754_finite s' m' e' =>
    Bool.eqb s s' && (m =? m')%positive && (e =? e')
  | _, _ => false
  end.

(** The binary64 number nearest to [(-1)^neg * D * 10^K] (ties to even). *)
Definition of_decimal (neg : bool) (D K : Z) : float64 :=
  match D with
  | Z0 => S754_zero neg
  | Zpos d =>
    if 0 <=? K then binary_round prec emax neg (d * Z.to_pos (10 ^ K)) 0
    else SFdiv prec emax (S754_finite neg d 0)
                         (S754_finite false (Z.to_pos (10 ^ (- K))) 0)
  | Zneg _ => S754_nan
  end.

(** The maximal prefix of digits of [s], and what follows it. *)
Fixpoint span_digits (s : list byte) : list byte * list byte :=
  match s with
  | b :: s' =>
    if is_digit b then let '(ds, r) := span_digits s' in (b :: ds, r)
    else ([], s)
  | [] => ([], [])
  end.

(** [ParseFloat s 64] on decimal literals: an optional sign, digits with an
    optional fraction, an optional decimal exponent. [None] stands for
    [ErrSyntax] and for [ErrRange] (a literal that rounds to an infinity).
    The other spellings [ParseFloat] reads (hexadecimal, [inf], [nan],
    underscores) are no JSON numbers and are rejected here. *)
Definition ParseFloat (s : list byte) : option float64 :=
  let '(neg, s1) := split_sign s in
  let '(ip, s2) := span_digits s1 in
  let '(fp, s3) :=
    match s2 with
    | b :: r => if byte_eqb b "." then span_digits r else ([], s2)
    | [] => ([], s2)
    end in
  match ip ++ fp with
  | [] => None
  | _ =>
    let ex :=
      match s3 with
      | [] => Some 0
      | e :: r =>
        if byte_eqb e "e" || byte_eqb e "E" then
          match r with
          | [] => None
          | _ => ParseInt r 64
          end
        else None
      end in
    match ex, uint_of_bytes (ip ++ fp) with
    | Some x, Some d =>
      let f := of_decimal neg (Z.of_uint d) (x - Z.of_nat (length fp)) in
      match f with
      | S754_finite _ _ _ | S754_zero _ => Some f
      | _ => None
      end
    | _, _ => None
    end
  end.

(** *** Shortest decimal formatting, [AppendFloat b f fmt (-1) 64]

    A finite binary64 number [m * 2^e] is a decimal [X * 10^q] exactly. Its
    shortest representation is the least number of leading digits of [X],
    rounded down or up, that [ParseFloat] reads back as the same number; when
    both roundings do, the nearer one is taken (the even one on a tie). *)

Definition exact_decimal (m : positive) (e : Z) : Z * Z :=
  if 0 <=? e then (Zpos m * 2 ^ e, 0) else (Zpos m * 5 ^ (- e), e).

Definition digits_of (X : Z) : list byte :=
  match Z.to_int X with
  | Decimal.Pos d => uint_bytes d
  | Decimal.Neg d => uint_bytes d
  end.

Fixpoint strip_zeros_rev (r : list byte) : list byte :=
  match r with
  | b :: r' => if byte_eqb b "0" then strip_zeros_rev r' else r
  | [] => []
  end.

Definition trim_zeros (ds : list byte) : list byte :=
  rev (strip_zeros_rev (rev ds)).

Definition zeros (n : Z) : list byte := repeat "0"%byte (Z.to_nat n).

Definition sign_bytes (neg : bool) : list byte :=
  if neg then ["-"%byte] else [].

(** [%e]: [d.ddde±xx], the exponent with at least two digits. [ds] are the
    digits and [dp] the position of the decimal point, the value being
    [0.ds * 10^dp]. *)
Definition fmt_e (neg : bool) (ds : list byte) (dp : Z) : list byte :=
  let ex := dp - 1 in
  let xs := FormatInt (Z.abs ex) in
  sign_bytes neg ++
  match ds with
  | [] => ["0"%byte]
  | d :: [] => [d]
  | d :: r => d :: "."%byte :: r
  end ++
  "e"%byte :: (if ex <? 0 then "-"%byte else "+"%byte) ::
  (if Z.abs ex <? 10 then "0"%byte :: xs else xs).

(** [%f]: the integer part, then the fraction when there is one. *)
Definition fmt_f (neg : bool) (ds : list byte) (dp : Z) : list byte :=
  let nd := Z.of_nat (length ds) in
  sign_bytes neg ++
  (if 0 <? dp then firstn (Z.to_nat dp) ds ++ zeros (dp - nd)
   else ["0"%byte]) ++
  (if dp <? nd then "."%byte :: zeros (- dp) ++ skipn (Z.to_nat dp) ds
   else []).

Definition fmt_digits (fmt : byte) (neg : bool) (ds : list byte) (dp : Z)
  : list byte :=
  if byte_eqb fmt "e" then fmt_e neg ds dp else fmt_f neg ds dp.

Definition reads_back (f : float64) (txt : list byte) : bool :=
  match ParseFloat txt with
  | Some g => float64_eqb g f
  | None => false
  end.

(** The candidate with [n] digits, if one reads back. *)
Definition shortest_at (f : float64) (fmt : byte) (neg : bool) (X q : Z)
  (n : nat) : option (list byte) :=
  let ds := digits_of X in
  let nd := length ds in
  if (nd <=? n)%nat then
    let txt := fmt_digits fmt neg (trim_zeros ds) (q + Z.of_nat nd) in
    if reads_back f txt then Some txt else None
  else
    let scale := 10 ^ Z.of_nat (nd - n) in
    let lo := X / scale in
    let rem := X mod scale in
    let text c :=
      let cs := digits_of c in
      fmt_digits fmt neg (trim_zeros cs)
                 (q + Z.of_nat (nd - n) + Z.of_nat (length cs)) in
    let down := text lo in
    let up := text (lo + 1) in
    match reads_back f down, reads_back f up with
    | true, true =>
      if 2 * rem <? scale then Some down
      else if scale <? 2 * rem then Some up
      else if Z.even lo then Some down else Some up
    | true, false => Some down
    | false, true => Some up
    | false, false => None
    end.

Fixpoint shortest_from (f : float64) (fmt : byte) (neg : bool) (X q : Z)
  (n fuel : nat) : option (list byte) :=
  match fuel with
  | O => None
  | S fuel' =>
    match shortest_at f fmt neg X q n with
    | Some txt => Some txt
    | None => shortest_from f fmt neg X q (S n) fuel'
    end
  end.

(** [AppendFloat nil f fmt (-1) 64] for [fmt] one of ['e'] and ['f'].
    Seventeen digits identify every binary64 number; the search stops there
    and has no result, rather than a wrong one, should none read back. *)
Definition AppendFloat (f : float64) (fmt : byte) : option (list byte) :=
  match f with
  | S754_zero neg => Some (fmt_digits fmt neg [] 0)
  | S754_finite neg m e =>
    let '(X, q) := exact_decimal m e in
    shortest_from f fmt neg X q 1 17
  | S754_infinity neg => Some (sign_bytes neg ++ bytes_of "Inf")
  | S754_nan => Some (bytes_of "NaN")
  end.

End strconv.

(** ** error

    The values of Go's [error] interface that occur here: the errors of
    [errors.New] and [fmt.Errorf] with their text, [fmt.Errorf] with [%w]
    keeping the error it wraps, and the errors of the packages below. *)

Inductive error : Type :=
| errorString (msg : string)
| wrapError (msg : string) (err : error)
| SyntaxError
| UnmarshalTypeError
| UnsupportedValueError
| PathError (op path : string)
| urlError (op url : string)
| readError (msg : string).

(** [err.Error()]. The texts of [encoding/json], [os] and [net/http] errors
    are given schematically: they name the kind of failure only. *)
Definition Error (e : error) : string :=
  match e with
  | errorString msg => msg
  | wrapError msg _ => msg
  | SyntaxError => "json: syntax error"
  | UnmarshalTypeError => "json: cannot unmarshal value into Go value"
  | UnsupportedValueError => "json: unsupported value"
  | PathError op path => op +:+ " " +:+ path
  | urlError op url => op +:+ " " +:+ url
  | readError msg => msg
  end.

(** ** encoding/json: the text layer *)

Module json.

(** A JSON text as it is written: number literals are kept as their spelling
    (they are converted only when stored into a Go value of a given type),
    strings are the byte sequences they denote, objects are the members in
    the order of the text. *)
Inductive tree : Type :=
| JNull
| JBool (b : bool)
| JNumber (lit : list byte)
| JString (s : string)
| JArray (elems : list tree)
| JObject (members : list (string * tree)).

Inductive token : Type :=
| TLBrace | TRBrace | TLBrack | TRBrack | TColon | TComma
| TString (s : string)
| TNumber (lit : list byte)
| TTrue | TFalse | TNull.

Definition maxNestingDepth : Z := 10000.

Definition is_space (b : byte) : bool :=
  let c := code b in (c =? 32) || (c =? 9) || (c =? 13) || (c =? 10).

Definition hex_val (b : byte) : option Z :=
  let c := code b in
  if (48 <=? c) && (c <=? 57) then Some (c - 48)
  else if (97 <=? c) && (c <=? 102) then Some (c - 97 + 10)
  else if (65 <=? c) && (c <=? 70) then Some (c - 65 + 10)
  else None.

(** [getu4 s]: the value of [\uXXXX] at the head of [s], with what follows. *)
Definition getu4 (s : list byte) : option (Z * list byte) :=
  match s with
  | b0 :: b1 :: h1 :: h2 :: h3 :: h4 :: r =>
    if byte_eqb b0 "\" && byte_eqb b1 "u" then
      match hex_val h1, hex_val h2, hex_val h3, hex_val h4 with
      | Some a, Some b, Some c, Some d =>
        Some (((a * 16 + b) * 16 + c) * 16 + d, r)
      | _, _, _, _ => None
      end
    else None
  | _ => None
  end.

(** [utf16.DecodeRune r1 r2]. *)
Definition utf16_DecodeRune (r1 r2 : Z) : Z :=
  if (55296 <=? r1) && (r1 <? 56320) && (56320 <=? r2) && (r2 <? 57344)
  then Z.lor (Z.shiftl (r1 - 55296) 10) (r2 - 56320) + 65536
  else utf8.RuneError.

(** The body of a string literal, after its opening quote: the bytes it
    denotes and what follows its closing quote. Control characters and
    unknown escapes are errors (the scanner's); escapes are decoded, an
    unpaired surrogate and an invalid UTF-8 byte become U+FFFD ([unquote]).
    Every step consumes a byte, so the length of the input is fuel enough. *)
Fixpoint unquote (fuel : nat) (s : list byte) : option (list byte * list byte) :=
  match fuel with
  | O => None
  | S fuel' =>
    let continue (out : list byte) (r : list byte) :=
      match unquote fuel' r with
      | Some (w, r') => Some (out ++ w, r')
      | None => None
      end in
    match s with
    | [] => None
    | b :: r =>
      let c := code b in
      if c =? 34 then Some ([], r)
      else if c =? 92 then
        match r with
        | [] => None
        | e :: r1 =>
          let k := code e in
          if (k =? 34) || (k =? 92) || (k =? 47) then continue [e] r1
          else if k =? 98 then continue [byte_of 8] r1
          else if k =? 102 then continue [byte_of 12] r1
          else if k =? 110 then continue [byte_of 10] r1
          else if k =? 114 then continue [byte_of 13] r1
          else if k =? 116 then continue [byte_of 9] r1
          else if k =? 117 then
            match getu4 s with
            | None => None
            | Some (rr, r5) =>
              if utf8.is_surrogate rr then
                match getu4 r5 with
                | Some (rr1, r11) =>
                  let dec := utf16_DecodeRune rr rr1 in
                  if dec =? utf8.RuneError
                  then continue (utf8.EncodeRune utf8.RuneError) r5
                  else continue (utf8.EncodeRune dec) r11
                | None => continue (utf8.EncodeRune utf8.RuneError) r5
                end
              else continue (utf8.EncodeRune rr) r5
            end
          else None
        end
      else if c <? 32 then None
      else if c <? utf8.RuneSelf then continue [b] r
      else
        let '(rr, size) := utf8.DecodeRune s in
        continue (utf8.EncodeRune rr) (skipn size s)
    end
  end.

(** A number literal at the head of [s]: an optional minus sign; a zero, or
    a digit other than zero followed by digits; optionally a point and one or
    more digits; optionally [e] or [E], an optional sign and one or more
    digits. Each part gives the bytes it takes and what follows them. *)
Definition scan_sign (s : list byte) : list byte * list byte :=
  match s with
  | b :: r => if byte_eqb b "-" then ([b], r) else ([], s)
  | [] => ([], s)
  end.

Definition scan_int (s : list byte) : option (list byte * list byte) :=
  match s with
  | b :: r =>
    if byte_eqb b "0" then Some ([b], r)
    else
      let '(ds, r') := strconv.span_digits s in
      match ds with
      | [] => None
      | _ => Some (ds, r')
      end
  | [] => None
  end.

Definition scan_frac (s : list byte) : option (list byte * list byte) :=
  match s with
  | b :: r =>
    if byte_eqb b "." then
      let '(fp, r') := strconv.span_digits r in
      match fp with
      | [] => None
      | _ => Some (b :: fp, r')
      end
    else Some ([], s)
  | [] => Some ([], s)
  end.

Definition scan_exp (s : list byte) : option (list byte * list byte) :=
  match s with
  | e :: r =>
    if byte_eqb e "e" || byte_eqb e "E" then
      let '(sn, r1) :=
        match r with
        | b :: r1 =>
          if byte_eqb b "+" || byte_eqb b "-" then ([b], r1) else ([], r)
        | [] => ([], r)
        end in
      let '(xp, r2) := strconv.span_digits r1 in
      match xp with
      | [] => None
      | _ => Some (e :: sn ++ xp, r2)
      end
    else Some ([], s)
  | [] => Some ([], s)
  end.

Definition scan_number (s : list byte) : option (list byte * list byte) :=
  let '(sg, s1) := scan_sign s in
  match scan_int s1 with
  | None => None
  | Some (ip, s2) =>
    match scan_frac s2 with
    | None => None
    | Some (fr, s3) =>
      match scan_exp s3 with
      | None => None
      | Some (ex, s4) => Some (sg ++ ip ++ fr ++ ex, s4)
      end
    end
  end.

(** [strip_prefix p s]: what follows [p] at the head of [s]. *)
Fixpoint strip_prefix (p s : list byte) : option (list byte) :=
  match p, s with
  | [], _ => Some s
  | a :: p', b :: s' => if byte_eqb a b then strip_prefix p' s' else None
  | _ :: _, [] => None
  end.

Fixpoint lex (fuel : nat) (s : list byte) : option (list token) :=
  match s with
  | [] => Some []
  | b :: r =>
    match fuel with
    | O => None
    | S fuel' =>
      let c := code b in
      let emit (t : token) (r' : list byte) :=
        match lex fuel' r' with
        | Some ts => Some (t :: ts)
        | None => None
        end in
      if is_space b then lex fuel' r
      else if c =? 123 then emit TLBrace r
      else if c =? 125 then emit TRBrace r
      else if c =? 91 then emit TLBrack r
      else if c =? 93 then emit TRBrack r
      else if c =? 58 then emit TColon r
      else if c =? 44 then emit TComma r
      else if c =? 34 then
        match unquote (length r) r with
        | Some (w, r') => emit (TString (string_of_list_byte w)) r'
        | None => None
        end
      else if (c =? 45) || strconv.is_digit b then
        match scan_number s with
        | Some (lit, r') => emit (TNumber lit) r'
        | None => None
        end
      else if c =? 116 then
        match strip_prefix (bytes_of "true") s with
        | Some r' => emit TTrue r'
        | None => None
        end
      else if c =? 102 then
        match strip_prefix (bytes_of "false") s with
        | Some r' => emit TFalse r'
        | None => None
        end
      else if c =? 110 then
        match strip_prefix (bytes_of "null") s with
        | Some r' => emit TNull r'
        | None => None
        end
      else None
    end
  end.

(** The grammar over tokens. [depth] is the number of arrays and objects
    open around the value; opening one more beyond [maxNestingDepth] is the
    scanner's error "exceeded max depth". *)
Fixpoint parse_value (fuel : nat) (depth : Z) (ts : list token)
  : option (tree * list token) :=
  match fuel with
  | O => None
  | S fuel' =>
    match ts with
    | TNull :: r => Some (JNull, r)
    | TTrue :: r => Some (JBool true, r)
    | TFalse :: r => Some (JBool false, r)
    | TNumber lit :: r => Some (JNumber lit, r)
    | TString s :: r => Some (JString s, r)
    | TLBrack :: r =>
      if maxNestingDepth <=? depth then None
      else
        match r with
        | TRBrack :: r' => Some (JArray [], r')
        | _ =>
          match parse_elems fuel' (depth + 1) r with
          | Some (vs, r') => Some (JArray vs, r')
          | None => None
          end
        end
    | TLBrace :: r =>
      if maxNestingDepth <=? depth then None
      else
        match r with
        | TRBrace :: r' => Some (JObject [], r')
        | _ =>
          match parse_members fuel' (depth + 1) r with
          | Some (ms, r') => Some (JObject ms, r')
          | None => None
          end
        end
    | _ => None
    end
  end
with parse_elems (fuel : nat) (depth : Z) (ts : list token)
  : option (list tree * list token) :=
  match fuel with
  | O => None
  | S fuel' =>
    match parse_value fuel' depth ts with
    | Some (v, TComma :: r) =>
      match parse_elems fuel' depth r with
      | Some (vs, r') => Some (v :: vs, r')
      | None => None
      end
    | Some (v, TRBrack :: r) => Some ([v], r)
    | _ => None
    end
  end
with parse_members (fuel : nat) (depth : Z) (ts : list token)
  : option (list (string * tree) * list token) :=
  match fuel with
  | O => None
  | S fuel' =>
    match ts with
    | TString k :: TColon :: r =>
      match parse_value fuel' depth r with
      | Some (v, TComma :: r1) =>
        match parse_members fuel' depth r1 with
        | Some (ms, r') => Some ((k, v) :: ms, r')
        | None => None
        end
      | Some (v, TRBrace :: r1) => Some ([(k, v)], r1)
      | _ => None
      end
    | _ => None
    end
  end.

(** The JSON text [data] as a tree; [None] is a [SyntaxError] (what
    [checkValid] reports before anything is stored). *)
Definition parse (data : list byte) : option tree :=
  match lex (length data) data with
  | None => None
  | Some ts =>
    match parse_value (S (length ts)) 0 ts with
    | Some (t, []) => Some t
    | _ => None
    end
  end.

(** *** Writing

    [appendString] with [escapeHTML] set, as [Marshal] calls it. Bytes of the
    HTML-safe set are copied; the quote and the backslash are escaped with a
    backslash, newline, carriage return and tab as [\n], [\r], [\t], every
    other ASCII byte outside the set as [\u00XX]; an invalid UTF-8 byte is
    written as the escape of U+FFFD, U+2028 and U+2029 as their escapes; every
    other multi-byte encoding is copied. (Go 1.22 and later write [\b] and
    [\f] for U+0008 and U+000C; both spellings denote the same string.) *)

Definition htmlSafe (c : Z) : bool :=
  (32 <=? c) && (c <? 128) &&
  negb ((c =? 34) || (c =? 38) || (c =? 60) || (c =? 62) || (c =? 92)).

Definition hex : list byte := bytes_of "0123456789abcdef".

Definition hex_digit (v : Z) : byte := nth (Z.to_nat v) hex "0"%byte.

Definition backslash : byte := byte_of 92.
Definition quote : byte := byte_of 34.

Definition escape_ascii (b : byte) : list byte :=
  let c := code b in
  if (c =? 92) || (c =? 34) then [backslash; b]
  else if c =? 10 then [backslash; "n"%byte]
  else if c =? 13 then [backslash; "r"%byte]
  else if c =? 9 then [backslash; "t"%byte]
  else [backslash; "u"%byte; "0"%byte; "0"%byte;
        hex_digit (Z.shiftr c 4); hex_digit (Z.land c 15)].

Fixpoint appendString (fuel : nat) (src : list byte) : list byte :=
  match fuel with
  | O => []
  | S fuel' =>
    match src with
    | [] => []
    | b :: r =>
      let c := code b in
      if c <? utf8.RuneSelf then
        (if htmlSafe c then [b] else escape_ascii b) ++ appendString fuel' r
      else
        let '(rr, size) := utf8.DecodeRune src in
        if (rr =? utf8.RuneError) && (size =? 1)%nat then
          (backslash :: bytes_of "ufffd") ++ appendString fuel' r
        else if (rr =? 8232) || (rr =? 8233) then
          (backslash :: bytes_of "u202" ++ [hex_digit (Z.land rr 15)])
            ++ appendString fuel' (skipn size src)
        else firstn size src ++ appendString fuel' (skipn size src)
    end
  end.

Definition quoted (s : string) : list byte :=
  let src := bytes_of s in
  quote :: appendString (length src) src ++ [quote].

Fixpoint join (sep : byte) (parts : list (list byte)) : list byte :=
  match parts with
  | [] => []
  | [p] => p
  | p :: ps => p ++ sep :: join sep ps
  end.

(** The compact text of a tree, as the encoder writes it. *)
Fixpoint render (t : tree) : list byte :=
  match t with
  | JNull => bytes_of "null"
  | JBool true => bytes_of "true"
  | JBool false => bytes_of "false"
  | JNumber lit => lit
  | JString s => quoted s
  | JArray elems => "["%byte :: join ","%byte (map render elems) ++ ["]"%byte]
  | JObject members =>
    "{"%byte ::
    join ","%byte (map (fun kv => quoted (fst kv) ++ ":"%byte :: render (snd kv))
                       members)
    ++ ["}"%byte]
  end.

(** ** encoding/json: Go values

    What [Unmarshal] stores into an [interface{}]: nil, [bool], [float64],
    [string], [[]interface{}] and [map[string]interface{}]. These are the
    dynamic types [NewManifestFromProto] and [loadManifestFromURL] can put
    into [Extra]. *)
Inductive value : Type :=
| VNil
| VBool (b : bool)
| VFloat64 (f : strconv.float64)
| VString (s : string)
| VSlice (elems : list value)
| VMap (m : gmap string value).

(** Map keys are written in increasing order of the key strings. *)
Definition key_le {A : Type} (x y : string * A) : Prop :=
  String.leb (fst x) (fst y) = true.

#[global] Instance key_le_dec {A : Type} (x y : string * A)
  : Decision (key_le x y).
Proof. unfold key_le. apply bool_eq_dec. Defined.

Definition sorted_members {A : Type} (m : gmap string A) : list (string * A) :=
  merge_sort key_le (map_to_list m).

(** [floatEncoder] for 64 bits: no infinity and no NaN; the format is ['e']
    below [1e-6] and from [1e21] on, ['f'] otherwise, and an exponent
    [e-07] is cleaned up to [e-7]. *)
Definition clean_exponent (b : list byte) : list byte :=
  match rev b with
  | d :: z :: sg :: e :: r =>
    if byte_eqb e "e" && (byte_eqb sg "-" || byte_eqb sg "+") && byte_eqb z "0"
    then rev (d :: sg :: e :: r) else b
  | _ => b
  end.

Definition floatEncoder (f : strconv.float64) : option (list byte) :=
  match f with
  | S754_infinity _ | S754_nan => None
  | _ =>
    let abs := SFabs f in
    let small := strconv.of_decimal false 1 (-6) in
    let large := strconv.of_decimal false 1 21 in
    let is_zero := match f with S754_zero _ => true | _ => false end in
    let fmt :=
      if negb is_zero &&
         (SFltb abs small || SFleb large abs)
      then "e"%byte else "f"%byte in
    match strconv.AppendFloat f fmt with
    | Some b => Some (if byte_eqb fmt "e" then clean_exponent b else b)
    | None => None
    end
  end.

(** The encoder of an [interface{}]; [None] is an [UnsupportedValueError]. *)
Fixpoint encode_interface (v : value) : option tree :=
  match v with
  | VNil => Some JNull
  | VBool b => Some (JBool b)
  | VFloat64 f => JNumber <$> floatEncoder f
  | VString s => Some (JString s)
  | VSlice elems => JArray <$> mapM encode_interface elems
  | VMap m =>
    JObject <$>
      mapM (fun kv : string * option tree =>
              (fun t => (fst kv, t)) <$> snd kv)
           (sorted_members (encode_interface <$> m))
  end.

(** [valueInterface]: a JSON text stored into an empty [interface{}]. A
    number becomes a [float64] ([None], an [UnmarshalTypeError], when it is
    out of range); a later member of an object replaces an earlier one with
    the same key. *)
Fixpoint decode_interface (t : tree) : option value :=
  match t with
  | JNull => Some VNil
  | JBool b => Some (VBool b)
  | JNumber lit => VFloat64 <$> strconv.ParseFloat lit
  | JString s => Some (VString s)
  | JArray elems => VSlice <$> mapM decode_interface elems
  | JObject members =>
    VMap <$>
      foldl (fun (acc : option (gmap string value)) (kv : string * tree) =>
               match acc, decode_interface (snd kv) with
               | Some m, Some v => Some (<[fst kv := v]> m)
               | _, _ => None
               end)
            (Some ∅) members
  end.

(** *** Struct fields

    A struct is written as an object of its exported fields in the order of
    their declaration, under the names of their [json] tags; a field tagged
    [omitempty] is left out when it is empty, a field tagged [-] always. A
    struct is read from an object member by member: a member is stored into
    the field whose name equals its key, or else equals it under case
    folding, and is skipped when there is none. *)

Record field_encoder (S : Type) : Type := {
  fe_name : string;
  fe_encode : S -> option (option tree)
}.
Arguments fe_name {S}.
Arguments fe_encode {S}.

Record field_decoder (S : Type) : Type := {
  fd_name : string;
  fd_decode : tree -> S -> option S
}.
Arguments fd_name {S}.
Arguments fd_decode {S}.

(** One field's member: [Some None] when the field is omitted, [None] when
    its value cannot be written. *)
Fixpoint encode_fields {S : Type} (fs : list (field_encoder S)) (v : S)
  : option (list (string * tree)) :=
  match fs with
  | [] => Some []
  | f :: fs' =>
    match fe_encode f v, encode_fields fs' v with
    | Some (Some t), Some ms => Some ((fe_name f, t) :: ms)
    | Some None, Some ms => Some ms
    | _, _ => None
    end
  end.

Definition encode_struct {S : Type} (fs : list (field_encoder S)) (v : S)
  : option tree :=
  JObject <$> encode_fields fs v.

(** [foldName]: ASCII letters in upper case; the two letters outside ASCII
    that fold to an ASCII letter, U+017F and U+212A, as [S] and [K]. No other
    rune folds to a letter of a field name. *)
Fixpoint fold_bytes (s : list byte) : list byte :=
  match s with
  | [] => []
  | b :: r =>
    let c := code b in
    if (97 <=? c) && (c <=? 122) then byte_of (c - 32) :: fold_bytes r
    else
      match r with
      | b1 :: r1 =>
        if (c =? 197) && (code b1 =? 191) then "S"%byte :: fold_bytes r1
        else
          match r1 with
          | b2 :: r2 =>
            if (c =? 226) && (code b1 =? 132) && (code b2 =? 170)
            then "K"%byte :: fold_bytes r2
            else b :: fold_bytes r
          | [] => b :: fold_bytes r
          end
      | [] => [b]
      end
  end.

Definition foldName (s : string) : string :=
  string_of_list_byte (fold_bytes (bytes_of s)).

Definition find_field {S : Type} (fs : list (field_decoder S)) (key : string)
  : option (field_decoder S) :=
  match List.find (fun f => String.eqb (fd_name f) key) fs with
  | Some f => Some f
  | None =>
    List.find (fun f => String.eqb (foldName (fd_name f)) (foldName key)) fs
  end.

Definition decode_member {S : Type} (fs : list (field_decoder S))
  (acc : option S) (kv : string * tree) : option S :=
  match acc with
  | None => None
  | Some v =>
    match find_field fs (fst kv) with
    | Some f => fd_decode f (snd kv) v
    | None => Some v
    end
  end.

(** [null] leaves a struct as it is; anything else than an object is an
    [UnmarshalTypeError]. *)
Definition decode_struct {S : Type} (fs : list (field_decoder S))
  (t : tree) (v : S) : option S :=
  match t with
  | JNull => Some v
  | JObject members => foldl (decode_member fs) (Some v) members
  | _ => None
  end.

(** *** Values of the basic kinds *)

Definition encode_int (n : Z) : tree := JNumber (strconv.FormatInt n).

(** An integer field of [bitSize] bits: a number literal that is an integer
    in range; [null] leaves the field as it is. *)
Definition decode_int (bitSize : Z) (t : tree) (old : Z) : option Z :=
  match t with
  | JNull => Some old
  | JNumber lit =>
    match strconv.ParseInt lit 64 with
    | Some n =>
      if (- 2 ^ (bitSize - 1) <=? n) && (n <? 2 ^ (bitSize - 1))
      then Some n else None
    | None => None
    end
  | _ => None
  end.

Definition decode_string (t : tree) (old : string) : option string :=
  match t with
  | JNull => Some old
  | JString s => Some s
  | _ => None
  end.

(** A [*string]: [null] sets the pointer to nil. *)
Definition encode_string_ptr (p : option string) : tree :=
  match p with
  | None => JNull
  | Some s => JString s
  end.

Definition decode_string_ptr (t : tree) (old : option string)
  : option (option string) :=
  match t with
  | JNull => Some None
  | JString s => Some (Some s)
  | _ => None
  end.

(** A map with string keys: nil is written as [null], and [null] sets the
    map to nil; an object is stored member by member into the map that is
    there (a new one when it is nil), each value read into a fresh zero
    element. *)
Definition encode_map {A : Type} (enc : A -> option tree)
  (m : option (gmap string A)) : option tree :=
  match m with
  | None => Some JNull
  | Some m =>
    JObject <$>
      mapM (fun kv : string * option tree =>
              (fun t => (fst kv, t)) <$> snd kv)
           (sorted_members (enc <$> m))
  end.

Definition decode_map {A : Type} (zero : A) (dec : tree -> A -> option A)
  (t : tree) (old : option (gmap string A)) : option (option (gmap string A)) :=
  match t with
  | JNull => Some None
  | JObject members =>
    Some <$>
      foldl (fun (acc : option (gmap string A)) (kv : string * tree) =>
               match acc, dec (snd kv) zero with
               | Some m, Some v => Some (<[fst kv := v]> m)
               | _, _ => None
               end)
            (Some (default ∅ old)) members
  | _ => None
  end.

(** [Marshal v]: the text, or an error and no text. *)
Definition Marshal {A : Type} (enc : A -> option tree) (v : A)
  : list byte * option error :=
  match enc v with
  | Some t => (render t, None)
  | None => ([], Some UnsupportedValueError)
  end.

(** [Unmarshal data &v]: the value [v] holds afterwards, or the error. What
    [v] holds beside an error is not modelled (the callers here drop it). *)
Definition Unmarshal {A : Type} (dec : tree -> A -> option A)
  (data : list byte) (v : A) : A + error :=
  match parse data with
  | None => inr SyntaxError
  | Some t =>
    match dec t v with
    | Some v' => inl v'
    | None => inr UnmarshalTypeError
    end
  end.

End json.

(** ** crypto/md5 (RFC 1321) *)

Module md5.

Definition mask32 (x : Z) : Z := Z.land x 4294967295.

Definition rotl32 (x s : Z) : Z :=
  mask32 (Z.lor (Z.shiftl x s) (Z.shiftr (mask32 x) (32 - s))).

Definition not32 (x : Z) : Z := Z.lxor (mask32 x) 4294967295.

(** The per-round shift amounts and the table of sines. *)
Definition shifts : list Z :=
  [7; 12; 17; 22; 7; 12; 17; 22; 7; 12; 17; 22; 7; 12; 17; 22;
   5; 9; 14; 20; 5; 9; 14; 20; 5; 9; 14; 20; 5; 9; 14; 20;
   4; 11; 16; 23; 4; 11; 16; 23; 4; 11; 16; 23; 4; 11; 16; 23;
   6; 10; 15; 21; 6; 10; 15; 21; 6; 10; 15; 21; 6; 10; 15; 21].

Definition sines : list Z :=
  [
   3614090360; 3905402710; 606105819; 3250441966;
   4118548399; 1200080426; 2821735955; 4249261313;
   1770035416; 2336552879; 4294925233; 2304563134;
   1804603682; 4254626195; 2792965006; 1236535329;
   4129170786; 3225465664; 643717713; 3921069994;
   3593408605; 38016083; 3634488961; 3889429448;
   568446438; 3275163606; 4107603335; 1163531501;
   2850285829; 4243563512; 1735328473; 2368359562;
   4294588738; 2272392833; 1839030562; 4259657740;
   2763975236; 1272893353; 4139469664; 3200236656;
   681279174; 3936430074; 3572445317; 76029189;
   3654602809; 3873151461; 530742520; 3299628645;
   4096336452; 1126891415; 2878612391; 4237533241;
   1700485571; 2399980690; 4293915773; 2240044497;
   1873313359; 4264355552; 2734768916; 1309151649;
   4149444226; 3174756917; 718787259; 3951481745].

(** The padded message: a one bit, zeros up to 56 modulo 64 bytes, and the
    length in bits as 64 bits, least significant byte first. *)
Definition le_bytes (n : nat) (x : Z) : list Z :=
  map (fun i => Z.land (Z.shiftr x (8 * Z.of_nat i)) 255) (seq 0 n).

Definition padding (len : Z) : list Z :=
  128 :: repeat 0 (Z.to_nat ((55 - len) mod 64)) ++ le_bytes 8 (8 * len).

Definition le_word (bs : list Z) : Z :=
  fold_right (fun b acc => b + 256 * acc) 0 bs.

Fixpoint words (n : nat) (bs : list Z) : list Z :=
  match n with
  | O => []
  | S n' => le_word (firstn 4 bs) :: words n' (skipn 4 bs)
  end.

Definition state : Type := Z * Z * Z * Z.

Definition step (M : list Z) (st : state) (i : nat) : state :=
  let '(A, B, C, D) := st in
  let iz := Z.of_nat i in
  let '(F, g) :=
    if (i <? 16)%nat then
      (Z.lor (Z.land B C) (Z.land (not32 B) D), iz)
    else if (i <? 32)%nat then
      (Z.lor (Z.land D B) (Z.land (not32 D) C), (5 * iz + 1) mod 16)
    else if (i <? 48)%nat then
      (Z.lxor (Z.lxor B C) D, (3 * iz + 5) mod 16)
    else
      (Z.lxor C (Z.lor B (not32 D)), (7 * iz) mod 16) in
  let F' := mask32 (F + A + nth i sines 0 + nth (Z.to_nat g) M 0) in
  (D, mask32 (B + rotl32 F' (nth i shifts 0)), B, C).

Definition block (st : state) (bs : list Z) : state :=
  let M := words 16 bs in
  let '(A, B, C, D) := fold_left (step M) (seq 0 64) st in
  let '(A0, B0, C0, D0) := st in
  (mask32 (A0 + A), mask32 (B0 + B), mask32 (C0 + C), mask32 (D0 + D)).

Fixpoint blocks (n : nat) (st : state) (bs : list Z) : state :=
  match n with
  | O => st
  | S n' => blocks n' (block st (firstn 64 bs)) (skipn 64 bs)
  end.

Definition init : state := (1732584193, 4023233417, 2562383102, 271733878).

(** [md5.Sum data], sixteen bytes. *)
Definition Sum (data : list byte) : list byte :=
  let msg := map code data ++ padding (Z.of_nat (length data)) in
  let '(A, B, C, D) := blocks (length msg / 64) init msg in
  map byte_of (le_bytes 4 A ++ le_bytes 4 B ++ le_bytes 4 C ++ le_bytes 4 D).

End md5.

(** ** encoding/base64, [StdEncoding] *)

Module base64.

Definition encodeStd : list byte :=
  bytes_of "ABCDEFGHIJKLMNOPQRSTUVWXYZabcdefghijklmnopqrstuvwxyz0123456789+/".

Definition sextet (v : Z) : byte := nth (Z.to_nat v) encodeStd "A"%byte.

Definition pad : byte := "="%byte.

(** Three bytes make four characters; a last group of one or two bytes is
    padded with [=]. *)
Fixpoint encode (src : list Z) : list byte :=
  match src with
  | [] => []
  | [a] =>
    [sextet (Z.shiftr a 2); sextet (Z.land (Z.shiftl a 4) 63); pad; pad]
  | [a; b] =>
    [sextet (Z.shiftr a 2);
     sextet (Z.lor (Z.land (Z.shiftl a 4) 63) (Z.shiftr b 4));
     sextet (Z.land (Z.shiftl b 2) 63); pad]
  | a :: b :: c :: r =>
    sextet (Z.shiftr a 2) ::
    sextet (Z.lor (Z.land (Z.shiftl a 4) 63) (Z.shiftr b 4)) ::
    sextet (Z.lor (Z.land (Z.shiftl b 2) 63) (Z.shiftr c 6)) ::
    sextet (Z.land c 63) :: encode r
  end.

Definition EncodeToString (src : list byte) : string :=
  string_of_list_byte (encode (map code src)).

End base64.

(** ** fmt *)

Module fmt.

(** [fmt.Errorf(format, err)] where [format] is [prefix] followed by [%w]. *)
Definition Errorf_w (prefix : string) (err : error) : error :=
  wrapError (prefix +:+ Error err) err.

(** [fmt.Errorf(format, err)] where [format] is [prefix] followed by [%v]. *)
Definition Errorf_v (prefix : string) (err : error) : error :=
  errorString (prefix +:+ Error err).

(** [fmt.Errorf(format, s)] where [format] is [prefix] followed by [%s]. *)
Definition Errorf_s (prefix : string) (s : string) : error :=
  errorString (prefix +:+ s).

(** [fmt.Errorf(format, n)] where [format] is [prefix] followed by [%d]. *)
Definition Errorf_d (prefix : string) (n : Z) : error :=
  errorString (prefix +:+ string_of_list_byte (strconv.FormatInt n)).

End fmt.

(** ** os: temporary files

    The state of the file system as [WriteToFile] meets it: the files with
    their contents, the directory for temporary files, the numbers the
    generator of temporary names will draw, the files held open, and what
    the environment will refuse: [open_fault] is the error with which
    creating a file fails, [write_fault] the number of bytes the device
    still takes and the error it gives after them. *)

Module os.

Record state : Type := {
  files : gmap string (list byte);
  tmpdir : string;
  random : nat -> Z;
  drawn : nat;
  handles : list string;
  open_fault : option error;
  write_fault : option (nat * error)
}.

Record File : Type := { Name : string }.

Definition with_files (w : state) (fs : gmap string (list byte)) : state :=
  {| files := fs; tmpdir := tmpdir w; random := random w; drawn := drawn w;
     handles := handles w; open_fault := open_fault w;
     write_fault := write_fault w |}.

Definition with_drawn (w : state) (n : nat) : state :=
  {| files := files w; tmpdir := tmpdir w; random := random w; drawn := n;
     handles := handles w; open_fault := open_fault w;
     write_fault := write_fault w |}.

Definition with_handles (w : state) (hs : list string) : state :=
  {| files := files w; tmpdir := tmpdir w; random := random w;
     drawn := drawn w; handles := hs; open_fault := open_fault w;
     write_fault := write_fault w |}.

Definition with_write_fault (w : state) (f : option (nat * error)) : state :=
  {| files := files w; tmpdir := tmpdir w; random := random w;
     drawn := drawn w; handles := handles w; open_fault := open_fault w;
     write_fault := f |}.

(** The name tried next: the directory, the pattern and a random number in
    decimal. *)
Definition temp_name (w : state) (pattern : string) : string :=
  tmpdir w +:+ "/" +:+ pattern +:+
  string_of_list_byte (strconv.FormatInt (random w (drawn w))).

(** One attempt after the other to create a file that does not exist yet
    ([O_CREATE|O_EXCL]), each under a new random name; any failure other
    than "exists" ends the attempts. *)
Fixpoint create_attempts (tries : nat) (pattern : string) (w : state)
  : (File + error) * state :=
  match tries with
  | O =>
    (inr (PathError "createtemp" (tmpdir w +:+ "/" +:+ pattern +:+ "*")), w)
  | S tries' =>
    let name := temp_name w pattern in
    let w1 := with_drawn w (S (drawn w)) in
    match open_fault w with
    | Some e => (inr e, w1)
    | None =>
      match files w !! name with
      | Some _ => create_attempts tries' pattern w1
      | None =>
        (inl {| Name := name |},
         with_handles (with_files w1 (<[name := []]> (files w1)))
                      (name :: handles w1))
      end
    end
  end.

(** [os.CreateTemp("", pattern)] for a pattern without [*]: a new file in
    the default directory, open for writing, or the error. *)
Definition CreateTemp (pattern : string) (w : state)
  : (File + error) * state :=
  create_attempts 10000 pattern w.

(** [f.Write(b)]: the bytes are appended to the file as far as the device
    takes them; fewer than all of them is an error. *)
Definition Write (f : File) (b : list byte) (w : state)
  : Z * option error * state :=
  let old := default [] (files w !! Name f) in
  match write_fault w with
  | Some (k, e) =>
    if (k <? length b)%nat then
      (Z.of_nat k, Some e,
       with_write_fault (with_files w (<[Name f := old ++ firstn k b]> (files w)))
                        (Some (O, e)))
    else
      (Z.of_nat (length b), None,
       with_write_fault (with_files w (<[Name f := old ++ b]> (files w)))
                        (Some ((k - length b)%nat, e)))
  | None =>
    (Z.of_nat (length b), None,
     with_files w (<[Name f := old ++ b]> (files w)))
  end.

(** [f.Close()]. *)
Definition Close (f : File) (w : state) : state :=
  with_handles w (List.filter (fun n => negb (String.eqb n (Name f))) (handles w)).

End os.

(** ** net/http and io *)

Module http.

Definition StatusOK : Z := 200.

(** A response: its status code and what [io.ReadAll] gets from its body,
    the bytes read and the error that ended the reading, if any. *)
Record Response : Type := {
  StatusCode : Z;
  Body : list byte * option error
}.

(** The network: what [http.Get] returns for each URL. *)
Definition network : Type := string -> Response + error.

Definition Get (net : network) (url : string) : Response + error := net url.

End http.

Module io.

Definition ReadAll (body : list byte * option error)
  : list byte * option error := body.

End io.

(** ** nexus/pkg/utils *)

Module utils.

(** Modelled from the spec: [utils.NilIfZero] is not among the sources. The
    specification says of the fields built with it that the zero value of
    the wire format, the empty string, maps to "absent" and any other
    string to "present with that value". *)
Definition NilIfZero (x : string) : option string :=
  if String.eqb x "" then None else Some x.

(** Modelled from the spec: [utils.ComputeB64MD5] is not among the sources.
    The specification says the writer "computes a base64-encoded MD5 digest
    over the exact serialized byte sequence" and lists no failure of this
    step. *)
Definition ComputeB64MD5 (data : list byte) : string * option error :=
  (base64.EncodeToString (md5.Sum data), None).

End utils.

(** ** nexus/pkg/service: the wire format *)

Module service.

Record ExtraItem : Type := {
  Key : string;
  ValueJson : string
}.

Record ArtifactManifestEntry : Type := {
  Path : string;
  Digest : string;
  Ref : string;
  Size : Z;
  LocalPath : string;
  BirthArtifactId : string;
  Extra : list ExtraItem
}.

Record ArtifactManifest : Type := {
  Version : Z;
  StoragePolicy : string;
  Contents : list ArtifactManifestEntry
}.

End service.

(** * The artifacts package *)

Record StoragePolicyConfig : Type := {
  StorageLayout : string
}.

Record ManifestEntry : Type := {
  Digest : string;
  BirthArtifactID : option string;
  Ref : option string;
  Size : Z;
  Extra : option (gmap string json.value);
  LocalPath : option string;
  DownloadURL : option string
}.

Record Manifest : Type := {
  Version : Z;
  StoragePolicy : string;
  StoragePolicyConfig' : StoragePolicyConfig;
  Contents : option (gmap string ManifestEntry)
}.

(** The zero values [ManifestEntry{}] and [Manifest{}]. *)
Definition zero_ManifestEntry : ManifestEntry :=
  {| Digest := ""; BirthArtifactID := None; Ref := None; Size := 0;
     Extra := None; LocalPath := None; DownloadURL := None |}.

Definition zero_Manifest : Manifest :=
  {| Version := 0; StoragePolicy := "";
     StoragePolicyConfig' := {| StorageLayout := "" |};
     Contents := None |}.

(** ** The [json] tags of the three structs *)

(** [len(m) == 0], the emptiness [omitempty] tests on a map. *)
Definition map_is_empty {A : Type} (m : option (gmap string A)) : bool :=
  match m with
  | None => true
  | Some m => bool_decide (m = ∅)
  end.

Definition StoragePolicyConfig_encoders
  : list (json.field_encoder StoragePolicyConfig) :=
  [ {| json.fe_name := "storageLayout";
       json.fe_encode := fun c => Some (Some (json.JString (StorageLayout c))) |} ].

Definition StoragePolicyConfig_decoders
  : list (json.field_decoder StoragePolicyConfig) :=
  [ {| json.fd_name := "storageLayout";
       json.fd_decode := fun t c =>
         (fun s => {| StorageLayout := s |})
           <$> json.decode_string t (StorageLayout c) |} ].

(** [digest], [birthArtifactID], [ref,omitempty], [size], [extra,omitempty];
    [LocalPath] and [DownloadURL] carry the tag [-]. *)
Definition ManifestEntry_encoders : list (json.field_encoder ManifestEntry) :=
  [ {| json.fe_name := "digest";
       json.fe_encode := fun e => Some (Some (json.JString (Digest e))) |};
    {| json.fe_name := "birthArtifactID";
       json.fe_encode := fun e =>
         Some (Some (json.encode_string_ptr (BirthArtifactID e))) |};
    {| json.fe_name := "ref";
       json.fe_encode := fun e =>
         match Ref e with
         | None => Some None
         | Some s => Some (Some (json.JString s))
         end |};
    {| json.fe_name := "size";
       json.fe_encode := fun e => Some (Some (json.encode_int (Size e))) |};
    {| json.fe_name := "extra";
       json.fe_encode := fun e =>
         if map_is_empty (Extra e) then Some None
         else Some <$> json.encode_map json.encode_interface (Extra e) |} ].

Definition ManifestEntry_decoders : list (json.field_decoder ManifestEntry) :=
  [ {| json.fd_name := "digest";
       json.fd_decode := fun t e =>
         (fun v => {| Digest := v; BirthArtifactID := BirthArtifactID e;
                      Ref := Ref e; Size := Size e; Extra := Extra e;
                      LocalPath := LocalPath e; DownloadURL := DownloadURL e |})
           <$> json.decode_string t (Digest e) |};
    {| json.fd_name := "birthArtifactID";
       json.fd_decode := fun t e =>
         (fun v => {| Digest := Digest e; BirthArtifactID := v;
                      Ref := Ref e; Size := Size e; Extra := Extra e;
                      LocalPath := LocalPath e; DownloadURL := DownloadURL e |})
           <$> json.decode_string_ptr t (BirthArtifactID e) |};
    {| json.fd_name := "ref";
       json.fd_decode := fun t e =>
         (fun v => {| Digest := Digest e; BirthArtifactID := BirthArtifactID e;
                      Ref := v; Size := Size e; Extra := Extra e;
                      LocalPath := LocalPath e; DownloadURL := DownloadURL e |})
           <$> json.decode_string_ptr t (Ref e) |};
    {| json.fd_name := "size";
       json.fd_decode := fun t e =>
         (fun v => {| Digest := Digest e; BirthArtifactID := BirthArtifactID e;
                      Ref := Ref e; Size := v; Extra := Extra e;
                      LocalPath := LocalPath e; DownloadURL := DownloadURL e |})
           <$> json.decode_int 64 t (Size e) |};
    {| json.fd_name := "extra";
       json.fd_decode := fun t e =>
         (fun v => {| Digest := Digest e; BirthArtifactID := BirthArtifactID e;
                      Ref := Ref e; Size := Size e; Extra := v;
                      LocalPath := LocalPath e; DownloadURL := DownloadURL e |})
           <$> json.decode_map json.VNil (fun t _ => json.decode_interface t)
                               t (Extra e) |} ].

Definition encode_ManifestEntry (e : ManifestEntry) : option json.tree :=
  json.encode_struct ManifestEntry_encoders e.

Definition decode_ManifestEntry (t : json.tree) (e : ManifestEntry)
  : option ManifestEntry :=
  json.decode_struct ManifestEntry_decoders t e.

(** [version], [storagePolicy], [storagePolicyConfig], [contents]. *)
Definition Manifest_encoders : list (json.field_encoder Manifest) :=
  [ {| json.fe_name := "version";
       json.fe_encode := fun m => Some (Some (json.encode_int (Version m))) |};
    {| json.fe_name := "storagePolicy";
       json.fe_encode := fun m => Some (Some (json.JString (StoragePolicy m))) |};
    {| json.fe_name := "storagePolicyConfig";
       json.fe_encode := fun m =>
         Some <$> json.encode_struct StoragePolicyConfig_encoders
                                     (StoragePolicyConfig' m) |};
    {| json.fe_name := "contents";
       json.fe_encode := fun m =>
         Some <$> json.encode_map encode_ManifestEntry (Contents m) |} ].

Definition Manifest_decoders : list (json.field_decoder Manifest) :=
  [ {| json.fd_name := "version";
       json.fd_decode := fun t m =>
         (fun v => {| Version := v; StoragePolicy := StoragePolicy m;
                      StoragePolicyConfig' := StoragePolicyConfig' m;
                      Contents := Contents m |})
           <$> json.decode_int 32 t (Version m) |};
    {| json.fd_name := "storagePolicy";
       json.fd_decode := fun t m =>
         (fun v => {| Version := Version m; StoragePolicy := v;
                      StoragePolicyConfig' := StoragePolicyConfig' m;
                      Contents := Contents m |})
           <$> json.decode_string t (StoragePolicy m) |};
    {| json.fd_name := "storagePolicyConfig";
       json.fd_decode := fun t m =>
         (fun v => {| Version := Version m; StoragePolicy := StoragePolicy m;
                      StoragePolicyConfig' := v; Contents := Contents m |})
           <$> json.decode_struct StoragePolicyConfig_decoders t
                                  (StoragePolicyConfig' m) |};
    {| json.fd_name := "contents";
       json.fd_decode := fun t m =>
         (fun v => {| Version := Version m; StoragePolicy := StoragePolicy m;
                      StoragePolicyConfig' := StoragePolicyConfig' m;
                      Contents := v |})
           <$> json.decode_map zero_ManifestEntry decode_ManifestEntry
                               t (Contents m) |} ].

Definition encode_Manifest (m : Manifest) : option json.tree :=
  json.encode_struct Manifest_encoders m.

Definition decode_Manifest (t : json.tree) (m : Manifest) : option Manifest :=
  json.decode_struct Manifest_decoders t m.

(** ** [NewManifestFromProto] *)

(** The inner loop, lines 44 to 53: each item's [ValueJson] is read into an
    [interface{}] and stored under the item's key; the first text that does
    not read ends the conversion. *)
Fixpoint extra_of_items (items : list service.ExtraItem)
  (extra : gmap string json.value) : gmap string json.value + error :=
  match items with
  | [] => inl extra
  | item :: items' =>
    match json.Unmarshal (fun t _ => json.decode_interface t)
                         (bytes_of (service.ValueJson item)) json.VNil with
    | inr err =>
      inr (fmt.Errorf_w "manifest entry extra json.Unmarshal: " err)
    | inl value => extra_of_items items' (<[service.Key item := value]> extra)
    end
  end.

(** The entry built at lines 54 to 61. *)
Definition entry_of_proto (entry : service.ArtifactManifestEntry)
  (extra : gmap string json.value) : ManifestEntry :=
  {| Digest := service.Digest entry;
     BirthArtifactID := utils.NilIfZero (service.BirthArtifactId entry);
     Ref := utils.NilIfZero (service.Ref entry);
     Size := service.Size entry;
     Extra := Some extra;
     LocalPath := utils.NilIfZero (service.LocalPath entry);
     DownloadURL := None |}.

(** The outer loop, lines 42 to 62, over the entries still to convert;
    [contents] is [manifest.Contents] as built so far. *)
Fixpoint contents_of_entries (entries : list service.ArtifactManifestEntry)
  (contents : gmap string ManifestEntry) : gmap string ManifestEntry + error :=
  match entries with
  | [] => inl contents
  | entry :: entries' =>
    match extra_of_items (service.Extra entry) ∅ with
    | inr err => inr err
    | inl extra =>
      contents_of_entries entries'
        (<[service.Path entry := entry_of_proto entry extra]> contents)
    end
  end.

Definition NewManifestFromProto (proto : service.ArtifactManifest)
  : Manifest * option error :=
  match contents_of_entries (service.Contents proto) ∅ with
  | inr err => (zero_Manifest, Some err)
  | inl contents =>
    ({| Version := service.Version proto;
        StoragePolicy := service.StoragePolicy proto;
        StoragePolicyConfig' := {| StorageLayout := "V2" |};
        Contents := Some contents |}, None)
  end.

(** ** [WriteToFile] *)

Definition WriteToFile (m : Manifest) (w : os.state)
  : string * string * option error * os.state :=
  match json.Marshal encode_Manifest m with
  | (_, Some rerr) => ("", "", Some rerr, w)
  | (data, None) =>
    match os.CreateTemp "tmpfile-" w with
    | (inr rerr, w1) => ("", "", Some rerr, w1)
    | (inl f, w1) =>
      match os.Write f data w1 with
      | (_, Some rerr, w2) => ("", "", Some rerr, os.Close f w2)
      | (_, None, w2) =>
        let filename := os.Name f in
        let '(digest, rerr) := utils.ComputeB64MD5 data in
        (filename, digest, rerr, os.Close f w2)
      end
    end
  end.

(** ** [GetManifestEntryFromArtifactFilePath] *)

Definition GetManifestEntryFromArtifactFilePath (m : Manifest) (path : string)
  : ManifestEntry * option error :=
  let manifestEntries := default ∅ (Contents m) in
  match manifestEntries !! path with
  | None =>
    (zero_ManifestEntry,
     Some (fmt.Errorf_s "path not contained in artifact: " path))
  | Some manifestEntry => (manifestEntry, None)
  end.

(** ** [loadManifestFromURL] *)

Definition loadManifestFromURL (net : http.network) (url : string)
  : Manifest * option error :=
  match http.Get net url with
  | inr err => (zero_Manifest, Some err)
  | inl resp =>
    let manifest := zero_Manifest in
    if negb (http.StatusCode resp =? http.StatusOK) then
      (zero_Manifest,
       Some (fmt.Errorf_d
               "request to get manifest from url failed with status code: "
               (http.StatusCode resp)))
    else
      match io.ReadAll (http.Body resp) with
      | (_, Some err) =>
        (zero_Manifest, Some (fmt.Errorf_v "error reading response body: " err))
      | (body, None) =>
        match json.Unmarshal decode_Manifest body manifest with
        | inr _ => (zero_Manifest, None)
        | inl manifest' => (manifest', None)
        end
      end
  end.

(** * Specification vocabulary *)

(** [item_reads item]: the item's [ValueJson] is read without error. *)
Definition item_reads (item : service.ExtraItem) : Prop :=
  exists v, json.Unmarshal (fun t _ => json.decode_interface t)
              (bytes_of (service.ValueJson item)) json.VNil = inl v.

(** [invalid_json s]: [s] is no JSON text. *)
Definition invalid_json (s : string) : Prop := json.parse (bytes_of s) = None.

(** An optional field after normalization: absent for the empty string of
    the wire format, present with that string otherwise. *)
Definition normalized (wire : string) (field : option string) : Prop :=
  (wire = "" -> field = None) /\ (wire <> "" -> field = Some wire).

(** ** Examples *)

Definition enospc : error := errorString "no space left on device".

Definition world0 : os.state :=
  {| os.files := ∅; os.tmpdir := "/tmp";
     os.random := fun n => 4242 + Z.of_nat n;
     os.drawn := 0; os.handles := []; os.open_fault := None;
     os.write_fault := None |}.

(** A device that takes ten more bytes. *)
Definition world_full : os.state :=
  os.with_write_fault world0 (Some (10%nat, enospc)).

(** The entry of the specification's scenario. *)
Definition wire_model_pt : service.ArtifactManifestEntry :=
  {| service.Path := "model.pt"; service.Digest := "abc123";
     service.Ref := ""; service.Size := 1024; service.LocalPath := "";
     service.BirthArtifactId := ""; service.Extra := [] |}.

Definition proto_model_pt : service.ArtifactManifest :=
  {| service.Version := 1; service.StoragePolicy := "wandb-storage-policy-v1";
     service.Contents := [wire_model_pt] |}.

Definition entry_model_pt : ManifestEntry :=
  {| Digest := "abc123"; BirthArtifactID := None; Ref := None;
     Size := 1024; Extra := Some ∅; LocalPath := None;
     DownloadURL := None |}.

Definition manifest_model_pt : Manifest :=
  {| Version := 1; StoragePolicy := "wandb-storage-policy-v1";
     StoragePolicyConfig' := {| StorageLayout := "V2" |};
     Contents := Some {[ "model.pt" := entry_model_pt ]} |}.

(** A reference entry with extras, given twice under the same path. *)
Definition wire_ref (digest : string) : service.ArtifactManifestEntry :=
  {| service.Path := "data/x.csv"; service.Digest := digest;
     service.Ref := "s3://bucket/x.csv"; service.Size := 7;
     service.LocalPath := "/tmp/x.csv"; service.BirthArtifactId := "QXJ0";
     service.Extra :=
       [ {| service.Key := "versionID"; service.ValueJson := "[1,2.5,null]" |};
         {| service.Key := "etag"; service.ValueJson := "true" |} ] |}.

Definition proto_two : service.ArtifactManifest :=
  {| service.Version := 1; service.StoragePolicy := "wandb-storage-policy-v1";
     service.Contents := [wire_ref "d1"; wire_model_pt; wire_ref "d2"] |}.

(** An entry whose extra does not read. *)
Definition wire_bad : service.ArtifactManifestEntry :=
  {| service.Path := "bad"; service.Digest := "d"; service.Ref := "";
     service.Size := 0; service.LocalPath := ""; service.BirthArtifactId := "";
     service.Extra := [ {| service.Key := "k"; service.ValueJson := "{oops" |} ] |}.

Definition proto_bad : service.ArtifactManifest :=
  {| service.Version := 1; service.StoragePolicy := "p";
     service.Contents := [wire_model_pt; wire_bad] |}.

Definition response (status : Z) (body : string) : http.Response :=
  {| http.StatusCode := status; http.Body := (bytes_of body, None) |}.

Definition net_const (r : http.Response) : http.network := fun _ => inl r.

Definition manifest_two : Manifest := fst (NewManifestFromProto proto_two).

Definition contents_two : gmap string ManifestEntry :=
  default ∅ (Contents manifest_two).

(** An entry whose extra is a JSON number too large for [float64]. *)
Definition wire_huge : service.ArtifactManifestEntry :=
  {| service.Path := "big"; service.Digest := "d"; service.Ref := "";
     service.Size := 0; service.LocalPath := ""; service.BirthArtifactId := "";
     service.Extra := [ {| service.Key := "n"; service.ValueJson := "1e999" |} ] |}.

Definition proto_huge : service.ArtifactManifest :=
  {| service.Version := 1; service.StoragePolicy := "p";
     service.Contents := [wire_huge] |}.

(** ** Well-formed trees and values

    [tree_wf n t]: the strings of [t] are valid UTF-8, its number literals
    are JSON numbers, and its arrays and objects are nested at most [n]
    deep. These are the trees that are read back as they were written. *)

Definition number_literal (lit : list byte) : Prop :=
  json.scan_number lit = Some (lit, []).

Fixpoint tree_wf (n : nat) (t : json.tree) : Prop :=
  match t with
  | json.JNull | json.JBool _ => True
  | json.JNumber lit => number_literal lit
  | json.JString s => utf8.ValidString s = true
  | json.JArray elems =>
    match n with
    | O => False
    | S n' => Forall (tree_wf n') elems
    end
  | json.JObject members =>
    match n with
    | O => False
    | S n' =>
      Forall (fun kv => utf8.ValidString (fst kv) = true /\ tree_wf n' (snd kv))
             members
    end
  end.

(** The tokens of the text [json.render] writes. *)
Fixpoint tokens_of (t : json.tree) : list json.token :=
  match t with
  | json.JNull => [json.TNull]
  | json.JBool true => [json.TTrue]
  | json.JBool false => [json.TFalse]
  | json.JNumber lit => [json.TNumber lit]
  | json.JString s => [json.TString s]
  | json.JArray elems =>
    json.TLBrack ::
    (fix go (l : list json.tree) : list json.token :=
       match l with
       | [] => [json.TRBrack]
       | [x] => tokens_of x ++ [json.TRBrack]
       | x :: l' => tokens_of x ++ json.TComma :: go l'
       end) elems
  | json.JObject members =>
    json.TLBrace ::
    (fix go (l : list (string * json.tree)) : list json.token :=
       match l with
       | [] => [json.TRBrace]
       | [kv] =>
         json.TString (fst kv) :: json.TColon :: tokens_of (snd kv)
           ++ [json.TRBrace]
       | kv :: l' =>
         json.TString (fst kv) :: json.TColon :: tokens_of (snd kv)
           ++ json.TComma :: go l'
       end) members
  end.

(** [value_ok n v]: the strings of [v] are valid UTF-8 and its slices and
    maps are nested at most [n] deep. *)
Fixpoint value_ok (n : nat) (v : json.value) : Prop :=
  match v with
  | json.VNil | json.VBool _ | json.VFloat64 _ => True
  | json.VString s => utf8.ValidString s = true
  | json.VSlice elems =>
    match n with
    | O => False
    | S n' => Forall (value_ok n') elems
    end
  | json.VMap m =>
    match n with
    | O => False
    | S n' =>
      map_Forall (fun k x => utf8.ValidString k = true /\ value_ok n' x) m
    end
  end.

Definition valid_ptr (p : option string) : Prop :=
  forall s, p = Some s -> utf8.ValidString s = true.

Definition in_int (bitSize : Z) (n : Z) : Prop :=
  - 2 ^ (bitSize - 1) <= n < 2 ^ (bitSize - 1).

(** An entry a Go program can hold and [encoding/json] reads back: [Size] is
    an [int64], the strings that are written are valid UTF-8, and the values
    of [Extra] are nested at most [n] deep. *)
Definition entry_ok (n : nat) (e : ManifestEntry) : Prop :=
  utf8.ValidString (Digest e) = true /\
  valid_ptr (BirthArtifactID e) /\
  valid_ptr (Ref e) /\
  in_int 64 (Size e) /\
  forall extra, Extra e = Some extra ->
    map_Forall (fun k v => utf8.ValidString k = true /\ value_ok n v) extra.

(** The values of [Extra] stand four levels deep in the manifest's text, so
    they may nest as far as the decoder's limit less four. *)
Definition extra_depth : nat := Z.to_nat (json.maxNestingDepth - 4).

Definition manifest_ok (m : Manifest) : Prop :=
  in_int 32 (Version m) /\
  utf8.ValidString (StoragePolicy m) = true /\
  utf8.ValidString (StorageLayout (StoragePolicyConfig' m)) = true /\
  forall contents, Contents m = Some contents ->
    map_Forall (fun path e => utf8.ValidString path = true /\
                              entry_ok extra_depth e) contents.

(** What the claim expects to read back: the entry without [LocalPath] and
    [DownloadURL]. *)
Definition forget_local (e : ManifestEntry) : ManifestEntry :=
  {| Digest := Digest e; BirthArtifactID := BirthArtifactID e; Ref := Ref e;
     Size := Size e; Extra := Extra e; LocalPath := None;
     DownloadURL := None |}.

Definition forget_locals (m : Manifest) : Manifest :=
  {| Version := Version m; StoragePolicy := StoragePolicy m;
     StoragePolicyConfig' := StoragePolicyConfig' m;
     Contents :=
       match Contents m with
       | None => None
       | Some c => Some (forget_local <$> c)
       end |}.

(** What is read back: moreover an empty [Extra], which [omitempty] leaves
    out of the text, is nil. *)
Definition reread_entry (e : ManifestEntry) : ManifestEntry :=
  {| Digest := Digest e; BirthArtifactID := BirthArtifactID e; Ref := Ref e;
     Size := Size e;
     Extra := if map_is_empty (Extra e) then None else Extra e;
     LocalPath := None; DownloadURL := None |}.

Definition reread (m : Manifest) : Manifest :=
  {| Version := Version m; StoragePolicy := StoragePolicy m;
     StoragePolicyConfig' := StoragePolicyConfig' m;
     Contents :=
       match Contents m with
       | None => None
       | Some c => Some (reread_entry <$> c)
       end |}.

(** The bytes [WriteToFile] left in the file it names. *)
Definition written (r : string * string * option error * os.state)
  : list byte :=
  let '(filename, _, _, w) := r in default [] (os.files w !! filename).

(** The result of [unquote] with [out] put before what it read. *)
Definition prepend (out : list byte) (r : option (list byte * list byte))
  : option (list byte * list byte) :=
  match r with
  | Some (w, r') => Some (out ++ w, r')
  | None => None
  end.

(** What may follow a number in the text [json.render] writes: a comma or a
    closing bracket or brace, or nothing. *)
Definition is_delim (b : byte) : bool :=
  (code b =? 44) || (code b =? 93) || (code b =? 125).

Definition delimited (rest : list byte) : Prop :=
  match rest with
  | [] => True
  | b :: _ => is_delim b = true
  end.

(** Decimal digits that start with a digit other than zero. *)
Definition head_nonzero (d : Decimal.uint) : Prop :=
  match d with
  | Decimal.Nil | Decimal.D0 _ => False
  | _ => True
  end.

(** The digits of a positive number: digits, the first not zero. *)
Definition digit_string (ds : list byte) : Prop :=
  Forall (fun b => strconv.is_digit b = true) ds /\
  exists b l, ds = b :: l /\ byte_eqb b "0" = false.

(** The parts of a number as [strconv] spells it: the fraction with its
    point, the integer part, the exponent. *)
Definition frac_bytes (fd : list byte) : list byte :=
  match fd with
  | [] => []
  | _ => "."%byte :: fd
  end.

Definition int_ok (ip : list byte) : Prop :=
  ip = ["0"%byte] \/ digit_string ip.

Definition exp_ok (ex : list byte) : Prop :=
  ex = [] \/
  exists sg xs,
    ex = "e"%byte :: sg :: xs /\ (sg = "+"%byte \/ sg = "-"%byte) /\
    xs <> [] /\ Forall (fun b => strconv.is_digit b = true) xs.

(** The tokens of the elements of an array and of the members of an object,
    up to the bracket or brace that closes it. *)
Fixpoint elems_tokens (l : list json.tree) : list json.token :=
  match l with
  | [] => [json.TRBrack]
  | [x] => tokens_of x ++ [json.TRBrack]
  | x :: l' => tokens_of x ++ json.TComma :: elems_tokens l'
  end.

Fixpoint members_tokens (l : list (string * json.tree)) : list json.token :=
  match l with
  | [] => [json.TRBrace]
  | [kv] =>
    json.TString (fst kv) :: json.TColon :: tokens_of (snd kv)
      ++ [json.TRBrace]
  | kv :: l' =>
    json.TString (fst kv) :: json.TColon :: tokens_of (snd kv)
      ++ json.TComma :: members_tokens l'
  end.

(** [lexes s ts]: the lexer reads [s] as [ts], given the fuel [parse] gives
    it or more. *)
Definition lexes (s : list byte) (ts : list json.token) : Prop :=
  forall fuel, (length s <= fuel)%nat -> json.lex fuel s = Some ts.

(** The member of an object as it is written. *)
Definition render_member (kv : string * json.tree) : list byte :=
  json.quoted (fst kv) ++ ":"%byte :: json.render (snd kv).

(** One byte that is a token of its own. *)
Definition punct (b : byte) : option json.token :=
  let c := code b in
  if c =? 123 then Some json.TLBrace
  else if c =? 125 then Some json.TRBrace
  else if c =? 91 then Some json.TLBrack
  else if c =? 93 then Some json.TRBrack
  else if c =? 58 then Some json.TColon
  else if c =? 44 then Some json.TComma
  else None.


(** ** Examples for the round trip *)

(** A string that is no UTF-8: [caf] and the Latin-1 byte of e acute. *)
Definition latin1_cafe : string :=
  String "c" (String "a" (String "f" (String "233" EmptyString))).

(** What [encoding/json] makes of it: the byte replaced by U+FFFD. *)
Definition replaced_cafe : string :=
  String "c" (String "a" (String "f"
    (String "239" (String "191" (String "189" EmptyString))))).

Definition manifest_latin1 : Manifest :=
  {| Version := 1; StoragePolicy := latin1_cafe;
     StoragePolicyConfig' := {| StorageLayout := "V2" |};
     Contents := None |}.

Definition manifest_replaced : Manifest :=
  {| Version := 1; StoragePolicy := replaced_cafe;
     StoragePolicyConfig' := {| StorageLayout := "V2" |};
     Contents := None |}.

(** A reference entry with an extra that holds numbers, and the manifest of
    it and the entry of the specification's scenario. *)
Definition float_1 : strconv.float64 :=
  S754_finite false 4503599627370496 (-52).

Definition float_2_5 : strconv.float64 :=
  S754_finite false 5629499534213120 (-51).

Definition entry_x_csv : ManifestEntry :=
  {| Digest := "d2"; BirthArtifactID := Some "QXJ0";
     Ref := Some "s3://bucket/x.csv"; Size := 7;
     Extra := Some {[ "versionID" :=
                        json.VSlice [json.VFloat64 float_1;
                                     json.VFloat64 float_2_5; json.VNil] ]};
     LocalPath := Some "/tmp/x.csv"; DownloadURL := None |}.

Definition manifest_sample : Manifest :=
  {| Version := 1; StoragePolicy := "wandb-storage-policy-v1";
     StoragePolicyConfig' := {| StorageLayout := "V2" |};
     Contents := Some (<[ "data/x.csv" := entry_x_csv ]>
                         {[ "model.pt" := entry_model_pt ]}) |}.

(** ** Examples for the writer *)

(** A manifest whose entry holds a NaN. *)
Definition entry_nan : ManifestEntry :=
  {| Digest := "d3"; BirthArtifactID := None; Ref := None; Size := 3;
     Extra := Some {[ "loss" := json.VFloat64 S754_nan ]};
     LocalPath := None; DownloadURL := None |}.

Definition manifest_nan : Manifest :=
  {| Version := 1; StoragePolicy := "wandb-storage-policy-v1";
     StoragePolicyConfig' := {| StorageLayout := "V2" |};
     Contents := Some {[ "loss.txt" := entry_nan ]} |}.

(** [manifest_sample] with other local paths and download URLs, and a nil
    [Extra] where it has an empty one. *)
Definition manifest_sample_bare : Manifest :=
  {| Version := 1; StoragePolicy := "wandb-storage-policy-v1";
     StoragePolicyConfig' := {| StorageLayout := "V2" |};
     Contents :=
       Some (<[ "data/x.csv" :=
                  {| Digest := "d2"; BirthArtifactID := Some "QXJ0";
                     Ref := Some "s3://bucket/x.csv"; Size := 7;
                     Extra := Extra entry_x_csv;
                     LocalPath := None;
                     DownloadURL := Some "https://example.com/x.csv" |} ]>
               {[ "model.pt" :=
                    {| Digest := "abc123"; BirthArtifactID := None;
                       Ref := None; Size := 1024; Extra := None;
                       LocalPath := Some "/tmp/model.pt";
                       DownloadURL := None |} ]}) |}.


(** A full device on which another file is open. *)
Definition world_busy : os.state :=
  os.with_handles world_full ["/var/log/run.log"%string].

(** ** Examples for the loader *)

(** A server whose response breaks off while it is read. *)
Definition net_truncated : http.network :=
  fun _ => inl {| http.StatusCode := 200;
                  http.Body := ([], Some (readError "unexpected EOF")) |}.

(** A server that answers with the file [WriteToFile] wrote for
    [manifest_sample]. *)
Definition net_sample : http.network :=
  fun _ => inl {| http.StatusCode := 200;
                  http.Body :=
                    (written (WriteToFile manifest_sample world0), None) |}.

(** A manifest none of whose entries has an empty [Extra]. *)
Definition manifest_x_csv : Manifest :=
  {| Version := 1; StoragePolicy := "wandb-storage-policy-v1";
     StoragePolicyConfig' := {| StorageLayout := "V2" |};
     Contents := Some {[ "data/x.csv" := entry_x_csv ]} |}.

(** No [LocalPath] and no [DownloadURL]. *)
Definition no_locals (e : ManifestEntry) : Prop :=
  LocalPath e = None /\ DownloadURL e = None.

(** ** Wire-format data that can be written and read back

    The strings are valid UTF-8, the integers fit their types, and what
    [json.Unmarshal] reads from a [ValueJson] nests no deeper than
    [extra_depth]. *)
Definition item_ok (item : service.ExtraItem) : Prop :=
  utf8.ValidString (service.Key item) = true /\
  forall v,
    json.Unmarshal (fun t _ => json.decode_interface t)
      (bytes_of (service.ValueJson item)) json.VNil = inl v ->
    value_ok extra_depth v.

Definition wire_entry_ok (entry : service.ArtifactManifestEntry) : Prop :=
  utf8.ValidString (service.Path entry) = true /\
  utf8.ValidString (service.Digest entry) = true /\
  utf8.ValidString (service.BirthArtifactId entry) = true /\
  utf8.ValidString (service.Ref entry) = true /\
  in_int 64 (service.Size entry) /\
  Forall item_ok (service.Extra entry).

Definition proto_ok (proto : service.ArtifactManifest) : Prop :=
  in_int 32 (service.Version proto) /\
  utf8.ValidString (service.StoragePolicy proto) = true /\
  Forall wire_entry_ok (service.Contents proto).

(** A server that answers with the file [WriteToFile] wrote for
    [manifest_two]. *)
Definition net_two : http.network :=
  fun _ => inl {| http.StatusCode := 200;
                  http.Body :=
                    (written (WriteToFile manifest_two world0), None) |}.

(** * The Proto Converter *)

Lemma NilIfZero_normalized (x : string) : normalized x (utils.NilIfZero x).
Proof.
  unfold normalized, utils.NilIfZero.
  destruct (String.eqb_spec x "") as [->|Hne]; split; congruence.
Qed.

Lemma invalid_json_not_reads (item : service.ExtraItem) :
  invalid_json (service.ValueJson item) -> ~ item_reads item.
Proof.
  unfold invalid_json, item_reads, json.Unmarshal. intros -> [v Hv].
  discriminate.
Qed.

Lemma extra_of_items_reads (items : list service.ExtraItem) :
  forall acc, Forall item_reads items ->
  exists extra, extra_of_items items acc = inl extra.
Proof.
  induction items as [|item items IH]; intros acc Hall; simpl.
  - eauto.
  - inversion Hall as [|? ? [v Hv] Hrest]; subst. rewrite Hv. apply IH, Hrest.
Qed.

Lemma extra_of_items_fails (items : list service.ExtraItem) :
  forall acc, Exists (fun item => ~ item_reads item) items ->
  exists err, extra_of_items items acc
              = inr (fmt.Errorf_w "manifest entry extra json.Unmarshal: " err).
Proof.
  induction items as [|item items IH]; intros acc Hex; simpl.
  - inversion Hex.
  - destruct (json.Unmarshal _ _ _) as [v|err] eqn:Hu.
    + inversion Hex as [? ? Hbad|? ? Hrest]; subst.
      * exfalso. apply Hbad. exists v. exact Hu.
      * apply IH, Hrest.
    + eauto.
Qed.

Lemma extra_of_items_inl_reads (items : list service.ExtraItem) :
  forall acc extra,
  extra_of_items items acc = inl extra -> Forall item_reads items.
Proof.
  induction items as [|item items IH]; intros acc extra H; simpl in H.
  - constructor.
  - destruct (json.Unmarshal _ _ _) as [v|err] eqn:Hu; [|discriminate].
    constructor; [exists v; exact Hu | eauto].
Qed.

Lemma extra_of_items_inr_shape (items : list service.ExtraItem) :
  forall acc err, extra_of_items items acc = inr err ->
  exists e, err = fmt.Errorf_w "manifest entry extra json.Unmarshal: " e.
Proof.
  induction items as [|item items IH]; intros acc err H; simpl in H.
  - discriminate.
  - destruct (json.Unmarshal _ _ _) as [v|e]; [eauto|].
    exists e. congruence.
Qed.

Lemma contents_of_entries_app (l1 l2 : list service.ArtifactManifestEntry) :
  forall acc,
  contents_of_entries (l1 ++ l2) acc =
  match contents_of_entries l1 acc with
  | inl c => contents_of_entries l2 c
  | inr e => inr e
  end.
Proof.
  induction l1 as [|entry l1 IH]; intros acc; simpl; [reflexivity|].
  destruct (extra_of_items _ _); [apply IH | reflexivity].
Qed.

Lemma contents_of_entries_other (entries : list service.ArtifactManifestEntry) :
  forall (acc contents : gmap string ManifestEntry) (path : string),
  contents_of_entries entries acc = inl contents ->
  Forall (fun e => service.Path e <> path) entries ->
  contents !! path = acc !! path.
Proof.
  induction entries as [|entry entries IH]; intros acc contents path H Hall;
    simpl in H.
  - congruence.
  - inversion Hall as [|? ? Hne Hrest]; subst.
    destruct (extra_of_items _ _) as [extra|]; [|discriminate].
    rewrite (IH _ _ _ H Hrest). apply lookup_insert_ne. exact Hne.
Qed.

Lemma contents_of_entries_origin (entries : list service.ArtifactManifestEntry) :
  forall (acc contents : gmap string ManifestEntry) (path : string)
         (me : ManifestEntry),
  contents_of_entries entries acc = inl contents ->
  contents !! path = Some me ->
  acc !! path = Some me \/
  exists entry extra,
    In entry entries /\ service.Path entry = path /\
    extra_of_items (service.Extra entry) ∅ = inl extra /\
    me = entry_of_proto entry extra.
Proof.
  induction entries as [|entry entries IH]; intros acc contents path me H Hl;
    simpl in H.
  - left. congruence.
  - destruct (extra_of_items _ _) as [extra|] eqn:Hx; [|discriminate].
    destruct (IH _ _ _ _ H Hl) as [Hacc|(e & x & Hin & Hp & Hex & Hme)].
    + destruct (decide (service.Path entry = path)) as [Heq|Hne].
      * right. exists entry, extra. rewrite Heq, lookup_insert_eq in Hacc.
        repeat split; [left; reflexivity | exact Heq | exact Hx | congruence].
      * left. rewrite lookup_insert_ne in Hacc by exact Hne. exact Hacc.
    + right. exists e, x. repeat split; [right; exact Hin | auto ..].
Qed.

Lemma contents_of_entries_fails (entries : list service.ArtifactManifestEntry) :
  forall acc,
  Exists (fun e => Exists (fun item => ~ item_reads item) (service.Extra e))
         entries ->
  exists err, contents_of_entries entries acc
              = inr (fmt.Errorf_w "manifest entry extra json.Unmarshal: " err).
Proof.
  induction entries as [|entry entries IH]; intros acc Hex; simpl.
  - inversion Hex.
  - destruct (extra_of_items _ _) as [extra|err] eqn:Hx.
    + inversion Hex as [? ? Hbad|? ? Hrest]; subst.
      * destruct (extra_of_items_fails _ ∅ Hbad) as [e He]. congruence.
      * apply IH, Hrest.
    + destruct (extra_of_items_inr_shape _ _ _ Hx) as [e ->]. eauto.
Qed.

Lemma contents_of_entries_reads (entries : list service.ArtifactManifestEntry) :
  forall acc,
  Forall (fun e => Forall item_reads (service.Extra e)) entries ->
  exists contents, contents_of_entries entries acc = inl contents.
Proof.
  induction entries as [|entry entries IH]; intros acc Hall; simpl.
  - eauto.
  - inversion Hall as [|? ? Hhere Hrest]; subst.
    destruct (extra_of_items_reads _ ∅ Hhere) as [extra ->]. apply IH, Hrest.
Qed.

(** The entry kept under a path is the one converted from the last wire
    entry of that path. *)
Lemma contents_of_entries_last (proto : service.ArtifactManifest)
  (m : Manifest) (contents : gmap string ManifestEntry)
  (before after : list service.ArtifactManifestEntry)
  (entry : service.ArtifactManifestEntry) :
  NewManifestFromProto proto = (m, None) ->
  Contents m = Some contents ->
  service.Contents proto = before ++ entry :: after ->
  (forall later, In later after -> service.Path later <> service.Path entry) ->
  exists extra,
    extra_of_items (service.Extra entry) ∅ = inl extra /\
    contents !! service.Path entry = Some (entry_of_proto entry extra).
Proof.
  unfold NewManifestFromProto. intros H Hc Hsplit Hlast.
  destruct (contents_of_entries _ _) as [c|err] eqn:Hce; [|discriminate].
  injection H as <-. simpl in Hc. injection Hc as ->.
  rewrite Hsplit, contents_of_entries_app in Hce.
  destruct (contents_of_entries before ∅) as [c0|]; [|discriminate].
  simpl in Hce.
  destruct (extra_of_items _ _) as [extra|]; [|discriminate].
  exists extra. split; [reflexivity|].
  rewrite (contents_of_entries_other _ _ _ (service.Path entry) Hce).
  - apply lookup_insert_eq.
  - apply List.Forall_forall. exact Hlast.
Qed.

Lemma contents_of_entries_dom (entries : list service.ArtifactManifestEntry) :
  forall (acc contents : gmap string ManifestEntry) (path : string),
  contents_of_entries entries acc = inl contents ->
  is_Some (contents !! path) <->
  is_Some (acc !! path) \/
  exists entry, In entry entries /\ service.Path entry = path.
Proof.
  induction entries as [|entry entries IH]; intros acc contents path H;
    simpl in H.
  - injection H as <-. split; [auto|]. intros [Ha|(e & [] & _)]. exact Ha.
  - destruct (extra_of_items _ _) as [extra|]; [|discriminate].
    rewrite (IH _ _ path H), lookup_insert_is_Some. split.
    + intros [[Heq|[_ Ha]]|(e & Hin & Hp)].
      * right. exists entry. split; [left; reflexivity|exact Heq].
      * left. exact Ha.
      * right. exists e. split; [right; exact Hin|exact Hp].
    + intros [Ha|(e & [<-|Hin] & Hp)].
      * destruct (decide (service.Path entry = path)); auto.
      * auto.
      * right. eauto.
Qed.

Lemma extra_of_items_dom (items : list service.ExtraItem) :
  forall (acc extra : gmap string json.value) (key : string),
  extra_of_items items acc = inl extra ->
  is_Some (extra !! key) <->
  is_Some (acc !! key) \/ exists item, In item items /\ service.Key item = key.
Proof.
  induction items as [|item items IH]; intros acc extra key H; simpl in H.
  - injection H as <-. split; [auto|]. intros [Ha|(e & [] & _)]. exact Ha.
  - destruct (json.Unmarshal _ _ _) as [v|]; [|discriminate].
    rewrite (IH _ _ key H), lookup_insert_is_Some. split.
    + intros [[Heq|[_ Ha]]|(e & Hin & Hp)].
      * right. exists item. split; [left; reflexivity|exact Heq].
      * left. exact Ha.
      * right. exists e. split; [right; exact Hin|exact Hp].
    + intros [Ha|(e & [<-|Hin] & Hp)].
      * destruct (decide (service.Key item = key)); auto.
      * auto.
      * right. eauto.
Qed.

Lemma NewManifestFromProto_inv (proto : service.ArtifactManifest)
  (m : Manifest) :
  NewManifestFromProto proto = (m, None) ->
  exists contents,
    contents_of_entries (service.Contents proto) ∅ = inl contents /\
    m = {| Version := service.Version proto;
           StoragePolicy := service.StoragePolicy proto;
           StoragePolicyConfig' := {| StorageLayout := "V2" |};
           Contents := Some contents |}.
Proof.
  unfold NewManifestFromProto.
  destruct (contents_of_entries _ _) as [c|err]; [|discriminate].
  intros H. injection H as <-. eauto.
Qed.

Lemma contents_of_entries_inl_reads
  (entries : list service.ArtifactManifestEntry) :
  forall acc contents,
  contents_of_entries entries acc = inl contents ->
  Forall (fun e => Forall item_reads (service.Extra e)) entries.
Proof.
  induction entries as [|entry entries IH]; intros acc contents H; simpl in H.
  - constructor.
  - destruct (extra_of_items _ _) as [extra|] eqn:Hx; [|discriminate].
    constructor; [apply (extra_of_items_inl_reads _ _ _ Hx)|eauto].
Qed.

Lemma item_reads_parse (item : service.ExtraItem) :
  item_reads item <->
  exists t v,
    json.parse (bytes_of (service.ValueJson item)) = Some t /\
    json.decode_interface t = Some v.
Proof.
  unfold item_reads, json.Unmarshal. split.
  - intros [v Hv].
    destruct (json.parse _) as [t|]; [|discriminate Hv].
    destruct (json.decode_interface t) as [v'|] eqn:Hd; [|discriminate Hv].
    eauto.
  - intros (t & v & -> & ->). eauto.
Qed.


Lemma NewManifestFromProto_two :
  NewManifestFromProto proto_two = (manifest_two, None).
Proof. vm_compute. reflexivity. Qed.

(** C1. Every entry of a converted manifest comes from a wire-format entry
    with its path, and its [BirthArtifactID], [Ref] and [LocalPath] are nil
    where the wire-format string is empty and hold exactly that string where
    it is not. *)
Theorem NewManifestFromProto_normalizes_optional_fields
  (proto : service.ArtifactManifest) (m : Manifest)
  (contents : gmap string ManifestEntry) (path : string) (me : ManifestEntry) :
  NewManifestFromProto proto = (m, None) ->
  Contents m = Some contents ->
  contents !! path = Some me ->
  exists entry,
    In entry (service.Contents proto) /\ service.Path entry = path /\
    normalized (service.BirthArtifactId entry) (BirthArtifactID me) /\
    normalized (service.Ref entry) (Ref me) /\
    normalized (service.LocalPath entry) (LocalPath me).
Proof.
  unfold NewManifestFromProto. intros H Hc Hl.
  destruct (contents_of_entries _ _) as [c|err] eqn:Hce; [|discriminate].
  injection H as <-. simpl in Hc. injection Hc as ->.
  destruct (contents_of_entries_origin _ _ _ _ _ Hce Hl)
    as [Hempty|(entry & extra & Hin & Hp & _ & ->)].
  - rewrite lookup_empty in Hempty. discriminate.
  - exists entry. simpl. auto using NilIfZero_normalized.
Qed.

Lemma NewManifestFromProto_normalizes_optional_fields_witness :
  contents_two !! "model.pt" = Some entry_model_pt /\
  exists entry,
    In entry (service.Contents proto_two) /\ service.Path entry = "model.pt" /\
    normalized (service.BirthArtifactId entry) None /\
    normalized (service.Ref entry) None /\
    normalized (service.LocalPath entry) None.
Proof.
  split; [vm_compute; reflexivity|].
  apply (NewManifestFromProto_normalizes_optional_fields
           proto_two manifest_two contents_two "model.pt" entry_model_pt);
    vm_compute; reflexivity.
Defined.

(** C2, as stated, fails in its second half: [1e999] is a JSON text, so
    every [ValueJson] of this manifest parses, and yet [json.Unmarshal] does
    not read it, a number outside [float64], and the conversion returns
    its error with the zero [Manifest]. *)
Lemma NewManifestFromProto_valid_json_not_read :
  Forall (fun entry =>
            Forall (fun item => ~ invalid_json (service.ValueJson item))
                   (service.Extra entry))
         (service.Contents proto_huge) /\
  json.parse (bytes_of "1e999") = Some (json.JNumber (bytes_of "1e999")) /\
  NewManifestFromProto proto_huge
  = (zero_Manifest,
     Some (fmt.Errorf_w "manifest entry extra json.Unmarshal: "
                        UnmarshalTypeError)).
Proof.
  split; [|split; vm_compute; reflexivity].
  constructor; [|constructor]. constructor; [|constructor].
  unfold invalid_json. vm_compute. discriminate.
Qed.

(** C2, amended. [NewManifestFromProto] returns no error exactly when
    [json.Unmarshal] reads the [ValueJson] of every extra pair, that is when
    the text parses and what it holds can be stored (its numbers fit
    [float64]). When some [ValueJson] is not read, and a text that is no
    JSON is not, it returns the zero [Manifest] and an error that wraps the
    decoder's under the text "manifest entry extra json.Unmarshal". *)
Theorem NewManifestFromProto_error_iff_extra_unreadable
  (proto : service.ArtifactManifest) :
  (snd (NewManifestFromProto proto) = None <->
   forall entry item,
     In entry (service.Contents proto) -> In item (service.Extra entry) ->
     item_reads item) /\
  ((exists entry item,
      In entry (service.Contents proto) /\ In item (service.Extra entry) /\
      ~ item_reads item) ->
   exists err,
     NewManifestFromProto proto =
     (zero_Manifest,
      Some (fmt.Errorf_w "manifest entry extra json.Unmarshal: " err))) /\
  (forall item,
     invalid_json (service.ValueJson item) -> ~ item_reads item) /\
  (forall item,
     item_reads item <->
     exists t v,
       json.parse (bytes_of (service.ValueJson item)) = Some t /\
       json.decode_interface t = Some v).
Proof.
  split; [|split; [|split]].
  - unfold NewManifestFromProto. split.
    + destruct (contents_of_entries _ _) as [c|err] eqn:Hc; [|discriminate].
      intros _ entry item Hin Hin'.
      pose proof (contents_of_entries_inl_reads _ _ _ Hc) as Hall.
      apply (proj1 (List.Forall_forall _ _)
               (proj1 (List.Forall_forall _ _) Hall entry Hin) item Hin').
    + intros Hall.
      destruct (contents_of_entries_reads (service.Contents proto) ∅)
        as [c ->]; [|reflexivity].
      apply List.Forall_forall. intros entry Hin.
      apply List.Forall_forall. intros item Hin'.
      apply (Hall entry item Hin Hin').
  - intros (entry & item & Hin & Hin' & Hbad). unfold NewManifestFromProto.
    destruct (contents_of_entries_fails (service.Contents proto) ∅)
      as [err ->]; [|eauto].
    apply List.Exists_exists. exists entry. split; [exact Hin|].
    apply List.Exists_exists. exists item. split; [exact Hin'|exact Hbad].
  - exact invalid_json_not_reads.
  - exact item_reads_parse.
Qed.

Lemma NewManifestFromProto_error_iff_extra_unreadable_witness :
  snd (NewManifestFromProto proto_two) = None /\
  (exists err,
     NewManifestFromProto proto_bad =
     (zero_Manifest,
      Some (fmt.Errorf_w "manifest entry extra json.Unmarshal: " err))).
Proof.
  split.
  - apply (proj1 (NewManifestFromProto_error_iff_extra_unreadable proto_two)).
    intros entry item Hin Hin'.
    assert (Hitem : item = {| service.Key := "versionID";
                              service.ValueJson := "[1,2.5,null]" |} \/
                    item = {| service.Key := "etag";
                              service.ValueJson := "true" |}).
    { destruct Hin as [<-|[<-|[<-|[]]]]; cbn [In service.Extra wire_ref
        wire_model_pt] in Hin'; intuition congruence. }
    destruct Hitem as [->| ->]; eexists; vm_compute; reflexivity.
  - apply (proj1 (proj2 (NewManifestFromProto_error_iff_extra_unreadable
                           proto_bad))).
    exists wire_bad, {| service.Key := "k"; service.ValueJson := "{oops" |}.
    split; [right; left; reflexivity|].
    split; [left; reflexivity|].
    apply invalid_json_not_reads. vm_compute. reflexivity.
Defined.



(** * The Lookup Accessor and the Remote Loader *)

(** C7. [GetManifestEntryFromArtifactFilePath] returns the entry stored
    under exactly the given path and no error when there is one; otherwise it
    returns the zero entry and an error whose text ends with the path. The
    function is pure: it returns no manifest, as the source assigns nothing
    through its receiver. *)
Theorem GetManifestEntryFromArtifactFilePath_spec
  (m : Manifest) (path : string) :
  (forall contents manifestEntry,
     Contents m = Some contents -> contents !! path = Some manifestEntry ->
     GetManifestEntryFromArtifactFilePath m path = (manifestEntry, None)) /\
  ((forall contents, Contents m = Some contents -> contents !! path = None) ->
   GetManifestEntryFromArtifactFilePath m path =
   (zero_ManifestEntry,
    Some (errorString ("path not contained in artifact: " +:+ path)))).
Proof.
  unfold GetManifestEntryFromArtifactFilePath. split.
  - intros contents manifestEntry -> Hl. simpl. rewrite Hl. reflexivity.
  - intros Habsent. destruct (Contents m) as [contents|]; simpl.
    + rewrite (Habsent contents eq_refl). reflexivity.
    + rewrite lookup_empty. reflexivity.
Qed.

Lemma GetManifestEntryFromArtifactFilePath_spec_witness :
  GetManifestEntryFromArtifactFilePath manifest_model_pt "model.pt"
  = (entry_model_pt, None) /\
  GetManifestEntryFromArtifactFilePath manifest_model_pt "Model.pt"
  = (zero_ManifestEntry,
     Some (errorString "path not contained in artifact: Model.pt")).
Proof.
  split.
  - apply (proj1 (GetManifestEntryFromArtifactFilePath_spec
                    manifest_model_pt "model.pt")
                 {[ "model.pt" := entry_model_pt ]} entry_model_pt);
      vm_compute; reflexivity.
  - apply (proj2 (GetManifestEntryFromArtifactFilePath_spec
                    manifest_model_pt "Model.pt")).
    intros contents Hc. injection Hc as <-. vm_compute. reflexivity.
Defined.

(** C8. When the GET request completes with a status other than 200 (every
    non-success status is one), [loadManifestFromURL] returns the zero
    [Manifest] and an error whose text ends with the status code in decimal;
    the result does not depend on the body of the response. *)
Theorem loadManifestFromURL_status_not_ok
  (net : http.network) (url : string) (resp : http.Response) :
  http.Get net url = inl resp ->
  http.StatusCode resp <> http.StatusOK ->
  loadManifestFromURL net url =
  (zero_Manifest,
   Some (errorString
           ("request to get manifest from url failed with status code: "
            +:+ string_of_list_byte
                  (strconv.FormatInt (http.StatusCode resp))))).
Proof.
  unfold loadManifestFromURL. intros -> Hne.
  destruct (Z.eqb_spec (http.StatusCode resp) http.StatusOK) as [Heq|_];
    [contradiction|]. reflexivity.
Qed.

Lemma loadManifestFromURL_status_not_ok_witness :
  loadManifestFromURL (net_const (response 404 "{}")) "https://example.com/m"
  = (zero_Manifest,
     Some (errorString
       "request to get manifest from url failed with status code: 404")).
Proof.
  apply (loadManifestFromURL_status_not_ok
           (net_const (response 404 "{}")) "https://example.com/m"
           (response 404 "{}")).
  - reflexivity.
  - vm_compute. discriminate.
Defined.

(** C9. When the GET request returns status 200 and a body that is read in
    full but does not decode as a [Manifest], [loadManifestFromURL] returns
    the zero [Manifest] and no error. *)
Theorem loadManifestFromURL_swallows_decode_error
  (net : http.network) (url : string) (resp : http.Response)
  (body : list byte) (err : error) :
  http.Get net url = inl resp ->
  http.StatusCode resp = http.StatusOK ->
  io.ReadAll (http.Body resp) = (body, None) ->
  json.Unmarshal decode_Manifest body zero_Manifest = inr err ->
  loadManifestFromURL net url = (zero_Manifest, None).
Proof.
  unfold loadManifestFromURL. intros -> Hok Hbody Hdec.
  rewrite Hok, Z.eqb_refl, Hbody, Hdec. reflexivity.
Qed.

Lemma loadManifestFromURL_swallows_decode_error_witness :
  json.Unmarshal decode_Manifest (bytes_of "<html>") zero_Manifest
  = inr SyntaxError /\
  loadManifestFromURL (net_const (response 200 "<html>")) "https://example.com/m"
  = (zero_Manifest, None).
Proof.
  split; [vm_compute; reflexivity|].
  apply (loadManifestFromURL_swallows_decode_error
           (net_const (response 200 "<html>")) "https://example.com/m"
           (response 200 "<html>") (bytes_of "<html>") SyntaxError);
    vm_compute; reflexivity.
Defined.

(** * The Persistence Writer *)

Lemma create_attempts_inl (tries : nat) (pattern : string) :
  forall (w w1 : os.state) (f : os.File),
  os.create_attempts tries pattern w = (inl f, w1) ->
  os.files w !! os.Name f = None /\
  os.files w1 = <[os.Name f := []]> (os.files w) /\
  os.write_fault w1 = os.write_fault w.
Proof.
  induction tries as [|tries IH]; intros w w1 f H.
  - discriminate.
  - cbn [os.create_attempts] in H.
    destruct (os.open_fault w); [discriminate|].
    destruct (os.files w !! os.temp_name w pattern) eqn:Hl.
    + apply IH in H. exact H.
    + injection H as <- <-. cbn. auto.
Qed.

Lemma CreateTemp_inl (pattern : string) (w w1 : os.state) (f : os.File) :
  os.CreateTemp pattern w = (inl f, w1) ->
  os.files w1 !! os.Name f = Some [].
Proof.
  unfold os.CreateTemp. intros H.
  destruct (create_attempts_inl _ _ _ _ _ H) as (_ & Hf & _).
  rewrite Hf. apply lookup_insert_eq.
Qed.

Lemma Write_ok (f : os.File) (b : list byte) (w w2 : os.state) (n : Z) :
  os.Write f b w = (n, None, w2) ->
  os.files w2 !! os.Name f
  = Some (default [] (os.files w !! os.Name f) ++ b).
Proof.
  unfold os.Write. intros H.
  destruct (os.write_fault w) as [[k e]|].
  - destruct (k <? length b)%nat; [discriminate|].
    injection H as _ <-. cbn. apply lookup_insert_eq.
  - injection H as _ <-. cbn. apply lookup_insert_eq.
Qed.

(** C4. When [WriteToFile] succeeds, the file it names holds exactly the
    bytes [json.Marshal] gave for the manifest, and the digest is the
    base64 encoding of the MD5 sum of those bytes. *)
Theorem WriteToFile_digest_of_written_bytes
  (m : Manifest) (w w' : os.state) (filename digest : string) :
  WriteToFile m w = (filename, digest, None, w') ->
  exists data,
    json.Marshal encode_Manifest m = (data, None) /\
    os.files w' !! filename = Some data /\
    digest = base64.EncodeToString (md5.Sum data).
Proof.
  unfold WriteToFile. intros H.
  destruct (json.Marshal encode_Manifest m) as [data [rerr|]]; [discriminate|].
  destruct (os.CreateTemp "tmpfile-" w) as [[f|rerr] w1] eqn:Hc; [|discriminate].
  destruct (os.Write f data w1) as [[n [rerr|]] w2] eqn:Hw; [discriminate|].
  unfold utils.ComputeB64MD5 in H. injection H as <- <- <-.
  exists data. split; [reflexivity|]. split; [|reflexivity].
  apply Write_ok in Hw. rewrite (CreateTemp_inl _ _ _ _ Hc) in Hw. exact Hw.
Qed.

Lemma WriteToFile_digest_of_written_bytes_witness :
  fst (WriteToFile manifest_model_pt world0)
  = ("/tmp/tmpfile-4242", "dPP97rWvJP8bWVoUn94o0A==", None) /\
  exists data,
    json.Marshal encode_Manifest manifest_model_pt = (data, None) /\
    os.files (snd (WriteToFile manifest_model_pt world0)) !! "/tmp/tmpfile-4242"
    = Some data /\
    "dPP97rWvJP8bWVoUn94o0A==" = base64.EncodeToString (md5.Sum data).
Proof.
  split; [vm_compute; reflexivity|].
  apply (WriteToFile_digest_of_written_bytes manifest_model_pt world0
           (snd (WriteToFile manifest_model_pt world0))).
  vm_compute. reflexivity.
Defined.

(** C10. Whenever [WriteToFile] returns an error, the filename and the
    digest it returns are empty: after [json.Marshal] failed, after
    [os.CreateTemp] failed, and after the write failed, where the temporary
    file exists and may hold part of the bytes. *)
Theorem WriteToFile_error_returns_no_name
  (m : Manifest) (w w' : os.state) (filename digest : string) (rerr : error) :
  WriteToFile m w = (filename, digest, Some rerr, w') ->
  filename = "" /\ digest = "".
Proof.
  unfold WriteToFile. intros H.
  destruct (json.Marshal encode_Manifest m) as [data [e|]].
  - injection H as <- <- _ _. auto.
  - destruct (os.CreateTemp "tmpfile-" w) as [[f|e] w1].
    + destruct (os.Write f data w1) as [[n [e|]] w2].
      * injection H as <- <- _ _. auto.
      * unfold utils.ComputeB64MD5 in H. discriminate.
    + injection H as <- <- _ _. auto.
Qed.

Lemma WriteToFile_error_returns_no_name_witness :
  fst (WriteToFile manifest_model_pt world_full) = ("", "", Some enospc) /\
  os.files (snd (WriteToFile manifest_model_pt world_full)) !! "/tmp/tmpfile-4242"
  = Some (firstn 10 (fst (json.Marshal encode_Manifest manifest_model_pt))) /\
  (("" : string) = "" /\ ("" : string) = "").
Proof.
  split; [vm_compute; reflexivity|]. split; [vm_compute; reflexivity|].
  apply (WriteToFile_error_returns_no_name manifest_model_pt world_full
           (snd (WriteToFile manifest_model_pt world_full)) "" "" enospc).
  vm_compute. reflexivity.
Defined.

(** * Empty [extra] *)

Lemma encode_map_members {A : Type} (enc : A -> option json.tree)
  (c : gmap string A) (t : json.tree) :
  json.encode_map enc (Some c) = Some t ->
  exists cs, t = json.JObject cs /\
    forall k v, c !! k = Some v -> exists tv, enc v = Some tv /\ In (k, tv) cs.
Proof.
  unfold json.encode_map. intros H.
  destruct (mapM _ _) as [cs|] eqn:Hm; [|discriminate].
  injection H as <-. exists cs. split; [reflexivity|].
  intros k v Hl. apply mapM_Some in Hm.
  assert (Hin : (k, enc v) ∈ json.sorted_members (enc <$> c)).
  { unfold json.sorted_members. rewrite merge_sort_Permutation.
    apply elem_of_map_to_list. rewrite lookup_fmap, Hl. reflexivity. }
  apply list_elem_of_lookup in Hin as [i Hi].
  destruct (Forall2_lookup_l _ _ _ _ _ Hm Hi) as (y & Hy & Hf).
  simpl in Hf. destruct (enc v) as [tv|]; [|discriminate].
  injection Hf as <-. exists tv. split; [reflexivity|].
  apply list_elem_of_In, list_elem_of_lookup. eauto.
Qed.


Lemma encode_ManifestEntry_empty_extra (me : ManifestEntry) :
  map_is_empty (Extra me) = true ->
  encode_ManifestEntry me =
  Some (json.JObject
          (("digest"%string, json.JString (Digest me)) ::
           ("birthArtifactID"%string,
            json.encode_string_ptr (BirthArtifactID me)) ::
           match Ref me with
           | None => []
           | Some s => [("ref"%string, json.JString s)]
           end ++
           [("size"%string, json.encode_int (Size me))])).
Proof.
  intros He.
  unfold encode_ManifestEntry, json.encode_struct, ManifestEntry_encoders.
  cbn [json.encode_fields json.fe_encode json.fe_name]. rewrite He.
  destruct (Ref me); reflexivity.
Qed.

Lemma encode_Manifest_shape (m : Manifest) (t : json.tree) :
  encode_Manifest m = Some t ->
  exists tc,
    json.encode_map encode_ManifestEntry (Contents m) = Some tc /\
    t = json.JObject
          [("version"%string, json.encode_int (Version m));
           ("storagePolicy"%string, json.JString (StoragePolicy m));
           ("storagePolicyConfig"%string,
            json.JObject
              [("storageLayout"%string,
                json.JString (StorageLayout (StoragePolicyConfig' m)))]);
           ("contents"%string, tc)].
Proof.
  unfold encode_Manifest, json.encode_struct, Manifest_encoders.
  cbn [json.encode_fields json.fe_encode json.fe_name].
  unfold json.encode_struct, StoragePolicyConfig_encoders.
  cbn [json.encode_fields json.fe_encode json.fe_name fmap option_fmap option_map].
  destruct (json.encode_map encode_ManifestEntry (Contents m)) as [tc|];
    cbn; [|discriminate].
  intros H. injection H as <-. eauto.
Qed.

(** C5, as stated, at the entry of the specification's scenario: the
    converted entry's [Extra] is the empty map the loop made at line 43,
    not nil. *)
Lemma NewManifestFromProto_empty_extra_is_not_nil :
  NewManifestFromProto proto_model_pt = (manifest_model_pt, None) /\
  Contents manifest_model_pt = Some {[ "model.pt" := entry_model_pt ]} /\
  Extra entry_model_pt <> None.
Proof.
  split; [vm_compute; reflexivity|]. split; [reflexivity|]. discriminate.
Qed.

(** C5, amended. For a wire-format entry with an empty extra list (no later
    entry sharing its path), the converted entry's [Extra] is an empty map
    that is not nil, and the object written for the entry has no member
    [extra]: in the entry's own JSON and, whenever the manifest is written,
    under its path in the manifest's [contents]. *)
Theorem NewManifestFromProto_empty_extra_omitted
  (proto : service.ArtifactManifest) (m : Manifest)
  (contents : gmap string ManifestEntry)
  (before after : list service.ArtifactManifestEntry)
  (entry : service.ArtifactManifestEntry) :
  NewManifestFromProto proto = (m, None) ->
  Contents m = Some contents ->
  service.Contents proto = before ++ entry :: after ->
  (forall later, In later after -> service.Path later <> service.Path entry) ->
  service.Extra entry = [] ->
  exists me members,
    contents !! service.Path entry = Some me /\
    Extra me = Some ∅ /\
    encode_ManifestEntry me = Some (json.JObject members) /\
    (forall t, ~ In ("extra"%string, t) members) /\
    (forall t, encode_Manifest m = Some t ->
       exists cs,
         t = json.JObject
               [("version"%string, json.encode_int (Version m));
                ("storagePolicy"%string, json.JString (StoragePolicy m));
                ("storagePolicyConfig"%string,
                 json.JObject [("storageLayout"%string, json.JString "V2")]);
                ("contents"%string, json.JObject cs)] /\
         In (service.Path entry, json.JObject members) cs).
Proof.
  intros H Hc Hsplit Hlast Hnil.
  destruct (contents_of_entries_last _ _ _ _ _ _ H Hc Hsplit Hlast)
    as (extra & Hx & Hl).
  rewrite Hnil in Hx. injection Hx as <-.
  set (me := entry_of_proto entry ∅) in *.
  pose proof (encode_ManifestEntry_empty_extra me eq_refl) as Henc.
  eexists me, _. split; [exact Hl|]. split; [reflexivity|].
  split; [exact Henc|]. split.
  - intros t Hin. simpl in Hin.
    destruct (utils.NilIfZero (service.Ref entry)); simpl in Hin;
      intuition discriminate.
  - intros t Ht. apply encode_Manifest_shape in Ht as (tc & Htc & ->).
    rewrite Hc in Htc. apply encode_map_members in Htc as (cs & -> & Hcs).
    destruct (Hcs _ _ Hl) as (tv & Htv & Hin).
    rewrite Henc in Htv. injection Htv as <-.
    exists cs. split; [|exact Hin].
    unfold NewManifestFromProto in H.
    destruct (contents_of_entries _ _); [|discriminate].
    injection H as <-. reflexivity.
Qed.

Lemma NewManifestFromProto_empty_extra_omitted_witness :
  exists me members,
    ({[ "model.pt" := entry_model_pt ]} : gmap string ManifestEntry)
      !! "model.pt" = Some me /\
    Extra me = Some ∅ /\
    encode_ManifestEntry me = Some (json.JObject members) /\
    (forall t, ~ In ("extra"%string, t) members) /\
    (forall t, encode_Manifest manifest_model_pt = Some t ->
       exists cs,
         t = json.JObject
               [("version"%string, json.encode_int 1);
                ("storagePolicy"%string,
                 json.JString "wandb-storage-policy-v1");
                ("storagePolicyConfig"%string,
                 json.JObject [("storageLayout"%string, json.JString "V2")]);
                ("contents"%string, json.JObject cs)] /\
         In ("model.pt"%string, json.JObject members) cs).
Proof.
  apply (NewManifestFromProto_empty_extra_omitted
           proto_model_pt manifest_model_pt {[ "model.pt" := entry_model_pt ]}
           [] [] wire_model_pt).
  - vm_compute. reflexivity.
  - reflexivity.
  - reflexivity.
  - intros later [].
  - reflexivity.
Defined.

(** * Bytes and UTF-8 *)

Lemma code_range (b : byte) : 0 <= code b < 256.
Proof.
  unfold code. pose proof (Byte.to_N_bounded b). lia.
Qed.

Lemma byte_of_code (b : byte) : byte_of (code b) = b.
Proof.
  unfold byte_of, code. rewrite N2Z.id, Byte.of_to_N. reflexivity.
Qed.

Lemma code_byte_of (z : Z) : 0 <= z < 256 -> code (byte_of z) = z.
Proof.
  intros Hz. unfold byte_of, code.
  destruct (Byte.of_N (Z.to_N z)) as [b|] eqn:Hb.
  - apply Byte.to_of_N in Hb. rewrite Hb. lia.
  - pose proof (Byte.to_of_N_option_map (Z.to_N z)) as H. rewrite Hb in H.
    simpl in H. destruct (N.leb_spec (Z.to_N z) 255); [discriminate|lia].
Qed.

Lemma code_inj (a b : byte) : code a = code b -> a = b.
Proof.
  intros H. rewrite <- (byte_of_code a), <- (byte_of_code b), H. reflexivity.
Qed.

Lemma map_code_inj (l k : list byte) : map code l = map code k -> l = k.
Proof.
  revert k. induction l as [|a l IH]; intros [|b k] H; try discriminate.
  - reflexivity.
  - injection H as Ha Hl. f_equal; [apply code_inj, Ha | apply IH, Hl].
Qed.

Lemma byte_eqb_eq (a b : byte) : byte_eqb a b = true <-> a = b.
Proof.
  unfold byte_eqb. rewrite Z.eqb_eq. split; [apply code_inj | congruence].
Qed.

Lemma byte_eqb_refl (a : byte) : byte_eqb a a = true.
Proof. apply byte_eqb_eq. reflexivity. Qed.

Ltac mod_lia := Z.div_mod_to_equations; lia.

(** [Z.lor] of a multiple of [2^k] and a number below [2^k] is their sum. *)
Lemma lor_low (x lo k : Z) :
  0 <= k -> x mod 2 ^ k = 0 -> 0 <= lo < 2 ^ k -> Z.lor x lo = x + lo.
Proof.
  intros Hk Hx Hlo.
  assert (Hland : Z.land x lo = 0).
  { apply Z.bits_inj'. intros i Hi. rewrite Z.land_spec, Z.bits_0.
    destruct (Z.lt_ge_cases i k) as [Hlt|Hge].
    - rewrite (Z.div_mod x (2 ^ k)) by lia. rewrite Hx, Z.add_0_r.
      rewrite Z.mul_comm, Z.mul_pow2_bits_low by lia. reflexivity.
    - rewrite andb_comm. replace (Z.testbit lo i) with false; [reflexivity|].
      symmetry. apply Z.testbit_false; [lia|].
      rewrite Z.div_small; [reflexivity|].
      split; [lia|]. apply Z.lt_le_trans with (2 ^ k); [lia|].
      apply Z.pow_le_mono_r; lia. }
  pose proof (Z.add_lor_land x lo). lia.
Qed.

Lemma lor_mul (h lo k : Z) :
  0 <= k -> 0 <= lo < 2 ^ k -> Z.lor (h * 2 ^ k) lo = h * 2 ^ k + lo.
Proof.
  intros Hk Hlo. apply (lor_low _ _ k); [exact Hk| |exact Hlo].
  apply Z_mod_mult.
Qed.

Lemma land_63 (b : Z) : Z.land b 63 = b mod 64.
Proof. apply (Z.land_ones b 6). lia. Qed.

Lemma land_7 (b : Z) : Z.land b 7 = b mod 8.
Proof. apply (Z.land_ones b 3). lia. Qed.

Lemma land_15 (b : Z) : Z.land b 15 = b mod 16.
Proof. apply (Z.land_ones b 4). lia. Qed.

Lemma land_31 (b : Z) : Z.land b 31 = b mod 32.
Proof. apply (Z.land_ones b 5). lia. Qed.

Lemma lor_240 (a : Z) : 0 <= a < 8 -> Z.lor 240 a = 240 + a.
Proof. intros H. apply (lor_mul 30 a 3); [lia|simpl; lia]. Qed.

Lemma lor_224 (a : Z) : 0 <= a < 16 -> Z.lor 224 a = 224 + a.
Proof. intros H. apply (lor_mul 14 a 4); [lia|simpl; lia]. Qed.

Lemma lor_192 (a : Z) : 0 <= a < 32 -> Z.lor 192 a = 192 + a.
Proof. intros H. apply (lor_mul 6 a 5); [lia|simpl; lia]. Qed.

Lemma lor_128 (a : Z) : 0 <= a < 64 -> Z.lor 128 a = 128 + a.
Proof. intros H. apply (lor_mul 2 a 6); [lia|simpl; lia]. Qed.

(** The runes of two, three and four bytes as numbers. *)
Lemma rune2_value (p0 b1 : Z) :
  192 <= p0 < 224 -> 128 <= b1 < 192 ->
  Z.lor (Z.shiftl (Z.land p0 31) 6) (Z.land b1 63)
  = (p0 - 192) * 64 + (b1 - 128).
Proof.
  intros H0 H1. rewrite land_63, land_31.
  rewrite (Z.shiftl_mul_pow2 _ 6) by (clear; lia).
  replace (p0 mod 32) with (p0 - 192) by mod_lia.
  replace (b1 mod 64) with (b1 - 128) by mod_lia.
  rewrite (lor_mul _ _ 6) by (change (2 ^ 6) with 64; lia).
  reflexivity.
Qed.

Lemma rune3_value (p0 b1 b2 : Z) :
  224 <= p0 < 240 -> 128 <= b1 < 192 -> 128 <= b2 < 192 ->
  Z.lor (Z.lor (Z.shiftl (Z.land p0 15) 12) (Z.shiftl (Z.land b1 63) 6))
        (Z.land b2 63)
  = (p0 - 224) * 4096 + (b1 - 128) * 64 + (b2 - 128).
Proof.
  intros H0 H1 H2. rewrite !land_63, land_15.
  rewrite (Z.shiftl_mul_pow2 _ 12), (Z.shiftl_mul_pow2 _ 6) by (clear; lia).
  replace (p0 mod 16) with (p0 - 224) by mod_lia.
  replace (b1 mod 64) with (b1 - 128) by mod_lia.
  replace (b2 mod 64) with (b2 - 128) by mod_lia.
  rewrite (lor_mul _ _ 12)
    by (change (2 ^ 12) with 4096; change (2 ^ 6) with 64; lia).
  replace ((p0 - 224) * 2 ^ 12 + (b1 - 128) * 2 ^ 6)
    with (((p0 - 224) * 64 + (b1 - 128)) * 2 ^ 6) by (clear; lia).
  rewrite (lor_mul _ _ 6) by (change (2 ^ 6) with 64; lia).
  change (2 ^ 6) with 64. lia.
Qed.

Lemma rune4_value (p0 b1 b2 b3 : Z) :
  240 <= p0 < 248 -> 128 <= b1 < 192 -> 128 <= b2 < 192 -> 128 <= b3 < 192 ->
  Z.lor (Z.lor (Z.lor (Z.shiftl (Z.land p0 7) 18) (Z.shiftl (Z.land b1 63) 12))
               (Z.shiftl (Z.land b2 63) 6))
        (Z.land b3 63)
  = (p0 - 240) * 262144 + (b1 - 128) * 4096 + (b2 - 128) * 64 + (b3 - 128).
Proof.
  intros H0 H1 H2 H3.
  rewrite !land_63, land_7.
  rewrite (Z.shiftl_mul_pow2 _ 18), (Z.shiftl_mul_pow2 _ 12),
    (Z.shiftl_mul_pow2 _ 6) by (clear; lia).
  replace (p0 mod 8) with (p0 - 240) by mod_lia.
  replace (b1 mod 64) with (b1 - 128) by mod_lia.
  replace (b2 mod 64) with (b2 - 128) by mod_lia.
  replace (b3 mod 64) with (b3 - 128) by mod_lia.
  rewrite (lor_mul _ _ 18)
    by (change (2 ^ 18) with 262144; change (2 ^ 12) with 4096; lia).
  replace ((p0 - 240) * 2 ^ 18 + (b1 - 128) * 2 ^ 12)
    with (((p0 - 240) * 64 + (b1 - 128)) * 2 ^ 12) by (clear; lia).
  rewrite (lor_mul _ _ 12)
    by (change (2 ^ 12) with 4096; change (2 ^ 6) with 64; lia).
  replace (((p0 - 240) * 64 + (b1 - 128)) * 2 ^ 12 + (b2 - 128) * 2 ^ 6)
    with (((p0 - 240) * 4096 + (b1 - 128) * 64 + (b2 - 128)) * 2 ^ 6)
    by (clear; lia).
  rewrite (lor_mul _ _ 6) by (change (2 ^ 6) with 64; lia).
  change (2 ^ 6) with 64. lia.
Qed.

(** [EncodeRune] by the size of the rune. *)
Lemma EncodeRune1 (r : Z) :
  0 <= r <= 127 -> utf8.EncodeRune r = [byte_of r].
Proof.
  intros Hr. unfold utf8.EncodeRune.
  replace ((0 <=? r) && (r <=? 127)) with true by lia. reflexivity.
Qed.

Lemma EncodeRune2 (r : Z) :
  128 <= r <= 2047 ->
  map code (utf8.EncodeRune r) = [192 + r / 64; 128 + r mod 64].
Proof.
  intros Hr. unfold utf8.EncodeRune.
  replace ((0 <=? r) && (r <=? 127)) with false by lia.
  replace ((0 <=? r) && (r <=? 2047)) with true by lia.
  rewrite land_63, (Z.shiftr_div_pow2 _ 6) by (clear; lia).
  change (2 ^ 6) with 64.
  rewrite lor_192, lor_128 by mod_lia.
  cbn [map]. rewrite !code_byte_of by mod_lia. reflexivity.
Qed.

Lemma EncodeRune3 (r : Z) :
  2048 <= r <= 65535 -> ~ (55296 <= r <= 57343) ->
  map code (utf8.EncodeRune r) =
  [224 + r / 4096; 128 + (r / 64) mod 64; 128 + r mod 64].
Proof.
  intros Hr Hs.
  unfold utf8.EncodeRune, utf8.is_surrogate, utf8.MaxRune.
  replace ((0 <=? r) && (r <=? 127)) with false by lia.
  replace ((0 <=? r) && (r <=? 2047)) with false by lia.
  replace ((r <? 0) || (1114111 <? r) || (55296 <=? r) && (r <=? 57343))
    with false by lia.
  replace (r <=? 65535) with true by lia.
  rewrite !land_63.
  rewrite (Z.shiftr_div_pow2 _ 12), (Z.shiftr_div_pow2 _ 6) by (clear; lia).
  change (2 ^ 12) with 4096. change (2 ^ 6) with 64.
  rewrite lor_224 by mod_lia.
  rewrite !lor_128 by mod_lia.
  cbn [map]. rewrite !code_byte_of by mod_lia. reflexivity.
Qed.

Lemma EncodeRune4 (r : Z) :
  65536 <= r <= utf8.MaxRune ->
  map code (utf8.EncodeRune r) =
  [240 + r / 262144; 128 + (r / 4096) mod 64; 128 + (r / 64) mod 64;
   128 + r mod 64].
Proof.
  unfold utf8.MaxRune. intros Hr.
  unfold utf8.EncodeRune, utf8.is_surrogate, utf8.MaxRune.
  replace ((0 <=? r) && (r <=? 127)) with false by lia.
  replace ((0 <=? r) && (r <=? 2047)) with false by lia.
  replace ((r <? 0) || (1114111 <? r) || (55296 <=? r) && (r <=? 57343))
    with false by lia.
  replace (r <=? 65535) with false by lia.
  rewrite !land_63.
  rewrite (Z.shiftr_div_pow2 _ 18), (Z.shiftr_div_pow2 _ 12),
    (Z.shiftr_div_pow2 _ 6) by (clear; lia).
  change (2 ^ 18) with 262144. change (2 ^ 12) with 4096.
  change (2 ^ 6) with 64.
  rewrite lor_240 by mod_lia.
  rewrite !lor_128 by mod_lia.
  cbn [map]. rewrite !code_byte_of by mod_lia. reflexivity.
Qed.

Lemma first_Some (p0 : Z) (sz : nat) (lo hi : Z) :
  utf8.first p0 = Some (sz, lo, hi) ->
  128 <= lo /\ hi <= 191 /\
  ((sz = 2%nat /\ 194 <= p0 < 224) \/
   (sz = 3%nat /\ 224 <= p0 < 240 /\
    (p0 = 224 -> lo = 160) /\ (p0 = 237 -> hi = 159)) \/
   (sz = 4%nat /\ 240 <= p0 < 245 /\
    (p0 = 240 -> lo = 144) /\ (p0 = 244 -> hi = 143))).
Proof.
  unfold utf8.first, utf8.locb, utf8.hicb.
  repeat match goal with
         | |- context [if ?a <? ?b then _ else _] => destruct (Z.ltb_spec a b)
         | |- context [if ?a =? ?b then _ else _] => destruct (Z.eqb_spec a b)
         end;
    intros Hfirst; try discriminate Hfirst; injection Hfirst as <- <- <-; lia.
Qed.

(** * Strings: what [appendString] writes, [unquote] reads *)

Lemma DecodeRune_multibyte (c0 : byte) (p1 : list byte) (rr : Z) (size : nat) :
  128 <= code c0 ->
  utf8.DecodeRune (c0 :: p1) = (rr, size) ->
  (rr = utf8.RuneError /\ size = 1%nat) \/
  (exists pre tl,
     c0 :: p1 = pre ++ tl /\ length pre = size /\
     utf8.EncodeRune rr = pre /\ 128 <= rr /\ pre <> [] /\
     forall tl', utf8.DecodeRune (pre ++ tl') = (rr, size)).
Proof.
  intros Hc0. unfold utf8.DecodeRune at 1. unfold utf8.RuneSelf.
  replace (code c0 <? 128) with false by lia.
  destruct (utf8.first (code c0)) as [[[sz lo] hi]|] eqn:Hf;
    [|intros H; injection H as <- <-; auto].
  destruct p1 as [|c1 p2]; [intros H; injection H as <- <-; auto|].
  destruct ((code c1 <? lo) || (hi <? code c1)) eqn:Hr1;
    [intros H; injection H as <- <-; auto|].
  pose proof (first_Some _ _ _ _ Hf) as (Hlo & Hhi & Hsz).
  pose proof (code_range c0) as R0. pose proof (code_range c1) as R1.
  assert (Hb1 : lo <= code c1 <= hi) by lia.
  destruct Hsz as [(-> & Hp0)|[(-> & Hp0 & Hlo' & Hhi')|(-> & Hp0 & Hlo' & Hhi')]].
  - (* two bytes *)
    cbn [Nat.leb]. intros H. injection H as <- <-. right.
    exists [c0; c1], p2. split; [reflexivity|]. split; [reflexivity|].
    rewrite rune2_value by lia. split; [|split; [lia|split; [discriminate|]]].
    + apply map_code_inj. rewrite EncodeRune2 by lia. cbn [map].
      f_equal; [mod_lia|f_equal; mod_lia].
    + intros tl'. cbn [app]. unfold utf8.DecodeRune, utf8.RuneSelf.
      cbv zeta. replace (code c0 <? 128) with false by lia. rewrite Hf.
      rewrite Hr1. cbn [Nat.leb]. rewrite rune2_value by lia.
      reflexivity.
  - (* three bytes *)
    cbn [Nat.leb]. destruct p2 as [|c2 p3]; [intros H; injection H as <- <-; auto|].
    destruct (utf8.is_cont (code c2)) eqn:Hc2; cbn [negb];
      [|intros H; injection H as <- <-; auto].
    intros H. injection H as <- <-. right.
    unfold utf8.is_cont, utf8.locb, utf8.hicb in Hc2.
    exists [c0; c1; c2], p3. split; [reflexivity|]. split; [reflexivity|].
    rewrite rune3_value by lia. split; [|split; [lia|split; [discriminate|]]].
    + apply map_code_inj. rewrite EncodeRune3 by lia. cbn [map].
      f_equal; [mod_lia|f_equal; [mod_lia|f_equal; mod_lia]].
    + intros tl'. cbn [app]. unfold utf8.DecodeRune, utf8.RuneSelf.
      cbv zeta. replace (code c0 <? 128) with false by lia. rewrite Hf.
      rewrite Hr1. cbn [Nat.leb].
      unfold utf8.is_cont, utf8.locb, utf8.hicb. rewrite Hc2. cbn [negb].
      rewrite rune3_value by lia. reflexivity.
  - (* four bytes *)
    cbn [Nat.leb]. destruct p2 as [|c2 p3]; [intros H; injection H as <- <-; auto|].
    destruct (utf8.is_cont (code c2)) eqn:Hc2; cbn [negb];
      [|intros H; injection H as <- <-; auto].
    destruct p3 as [|c3 p4]; [intros H; injection H as <- <-; auto|].
    destruct (utf8.is_cont (code c3)) eqn:Hc3; cbn [negb];
      [|intros H; injection H as <- <-; auto].
    intros H. injection H as <- <-. right.
    unfold utf8.is_cont, utf8.locb, utf8.hicb in Hc2, Hc3.
    exists [c0; c1; c2; c3], p4. split; [reflexivity|]. split; [reflexivity|].
    rewrite rune4_value by lia. split; [|split; [lia|split; [discriminate|]]].
    + apply map_code_inj. rewrite EncodeRune4 by (unfold utf8.MaxRune; lia).
      cbn [map].
      f_equal; [mod_lia|f_equal; [mod_lia|f_equal; [mod_lia|f_equal; mod_lia]]].
    + intros tl'. cbn [app]. unfold utf8.DecodeRune, utf8.RuneSelf.
      cbv zeta. replace (code c0 <? 128) with false by lia. rewrite Hf.
      rewrite Hr1. cbn [Nat.leb].
      unfold utf8.is_cont, utf8.locb, utf8.hicb. rewrite Hc2, Hc3. cbn [negb].
      rewrite rune4_value by lia. reflexivity.
Qed.

Lemma unquote_cons (fuel : nat) (b : byte) (r : list byte) :
  json.unquote (S fuel) (b :: r) =
  let c := code b in
  if c =? 34 then Some ([], r)
  else if c =? 92 then
    match r with
    | [] => None
    | e :: r1 =>
      let k := code e in
      if (k =? 34) || (k =? 92) || (k =? 47) then prepend [e] (json.unquote fuel r1)
      else if k =? 98 then prepend [byte_of 8] (json.unquote fuel r1)
      else if k =? 102 then prepend [byte_of 12] (json.unquote fuel r1)
      else if k =? 110 then prepend [byte_of 10] (json.unquote fuel r1)
      else if k =? 114 then prepend [byte_of 13] (json.unquote fuel r1)
      else if k =? 116 then prepend [byte_of 9] (json.unquote fuel r1)
      else if k =? 117 then
        match json.getu4 (b :: r) with
        | None => None
        | Some (rr, r5) =>
          if utf8.is_surrogate rr then
            match json.getu4 r5 with
            | Some (rr1, r11) =>
              let dec := json.utf16_DecodeRune rr rr1 in
              if dec =? utf8.RuneError
              then prepend (utf8.EncodeRune utf8.RuneError) (json.unquote fuel r5)
              else prepend (utf8.EncodeRune dec) (json.unquote fuel r11)
            | None =>
              prepend (utf8.EncodeRune utf8.RuneError) (json.unquote fuel r5)
            end
          else prepend (utf8.EncodeRune rr) (json.unquote fuel r5)
        end
      else None
    end
  else if c <? 32 then None
  else if c <? utf8.RuneSelf then prepend [b] (json.unquote fuel r)
  else
    let '(rr, size) := utf8.DecodeRune (b :: r) in
    prepend (utf8.EncodeRune rr) (json.unquote fuel (skipn size (b :: r))).
Proof. reflexivity. Qed.

Lemma appendString_cons (fuel : nat) (b : byte) (r : list byte) :
  json.appendString (S fuel) (b :: r) =
  let c := code b in
  if c <? utf8.RuneSelf then
    (if json.htmlSafe c then [b] else json.escape_ascii b)
      ++ json.appendString fuel r
  else
    let '(rr, size) := utf8.DecodeRune (b :: r) in
    if (rr =? utf8.RuneError) && (size =? 1)%nat then
      (json.backslash :: bytes_of "ufffd") ++ json.appendString fuel r
    else if (rr =? 8232) || (rr =? 8233) then
      (json.backslash :: bytes_of "u202" ++ [json.hex_digit (Z.land rr 15)])
        ++ json.appendString fuel (skipn size (b :: r))
    else firstn size (b :: r) ++ json.appendString fuel (skipn size (b :: r)).
Proof. reflexivity. Qed.

Lemma hex_val_hex_digit (v : Z) :
  0 <= v < 16 -> json.hex_val (json.hex_digit v) = Some v.
Proof.
  intros Hv.
  assert (H : v = 0 \/ v = 1 \/ v = 2 \/ v = 3 \/ v = 4 \/ v = 5 \/ v = 6
              \/ v = 7 \/ v = 8 \/ v = 9 \/ v = 10 \/ v = 11 \/ v = 12
              \/ v = 13 \/ v = 14 \/ v = 15) by lia.
  repeat (destruct H as [->|H]; [vm_compute; reflexivity|]).
  subst v. vm_compute. reflexivity.
Qed.

Lemma unquote_u (fuel : nat) (h3 h4 : byte) (a b : Z) (h1 h2 : byte)
  (x y : Z) (tail : list byte) :
  json.hex_val h1 = Some x -> json.hex_val h2 = Some y ->
  json.hex_val h3 = Some a -> json.hex_val h4 = Some b ->
  utf8.is_surrogate (((x * 16 + y) * 16 + a) * 16 + b) = false ->
  json.unquote (S fuel)
    (json.backslash :: "u"%byte :: h1 :: h2 :: h3 :: h4 :: tail)
  = prepend (utf8.EncodeRune (((x * 16 + y) * 16 + a) * 16 + b))
            (json.unquote fuel tail).
Proof.
  intros H1 H2 H3 H4 Hs. rewrite unquote_cons.
  change (code json.backslash) with 92. cbv zeta.
  change (92 =? 34) with false. change (92 =? 92) with true. cbv iota.
  change (code "u"%byte) with 117.
  change ((117 =? 34) || (117 =? 92) || (117 =? 47)) with false.
  change (117 =? 98) with false. change (117 =? 102) with false.
  change (117 =? 110) with false. change (117 =? 114) with false.
  change (117 =? 116) with false. change (117 =? 117) with true. cbv iota.
  unfold json.getu4 at 1.
  change (byte_eqb json.backslash "\") with true.
  change (byte_eqb "u" "u") with true. cbn [andb].
  rewrite H1, H2, H3, H4, Hs. reflexivity.
Qed.

Lemma unquote_ascii_step (b : byte) (fuel : nat) (tail : list byte) :
  code b < 128 ->
  json.unquote (S fuel)
    ((if json.htmlSafe (code b) then [b] else json.escape_ascii b) ++ tail)
  = prepend [b] (json.unquote fuel tail).
Proof.
  intros Hc. pose proof (code_range b) as Hr.
  destruct (json.htmlSafe (code b)) eqn:Hsafe.
  - unfold json.htmlSafe in Hsafe. cbn [app]. rewrite unquote_cons. cbv zeta.
    unfold utf8.RuneSelf.
    replace (code b =? 34) with false by lia.
    replace (code b =? 92) with false by lia.
    replace (code b <? 32) with false by lia.
    replace (code b <? 128) with true by lia. reflexivity.
  - unfold json.escape_ascii.
    destruct ((code b =? 92) || (code b =? 34)) eqn:Hq.
    { cbn [app]. rewrite unquote_cons. cbv zeta.
      change (code json.backslash) with 92.
      change (92 =? 34) with false. change (92 =? 92) with true. cbv iota.
      replace ((code b =? 34) || (code b =? 92) || (code b =? 47)) with true
        by lia. reflexivity. }
    destruct (Z.eqb_spec (code b) 10) as [H10|H10].
    { replace b with (byte_of 10) by (apply code_inj; rewrite H10; reflexivity).
      reflexivity. }
    destruct (Z.eqb_spec (code b) 13) as [H13|H13].
    { replace b with (byte_of 13) by (apply code_inj; rewrite H13; reflexivity).
      reflexivity. }
    destruct (Z.eqb_spec (code b) 9) as [H9|H9].
    { replace b with (byte_of 9) by (apply code_inj; rewrite H9; reflexivity).
      reflexivity. }
    cbn [app].
    rewrite (unquote_u fuel _ _ (Z.shiftr (code b) 4) (Z.land (code b) 15)
               "0"%byte "0"%byte 0 0).
    + rewrite (Z.shiftr_div_pow2 _ 4), land_15 by (clear; lia).
      change (2 ^ 4) with 16.
      replace (((0 * 16 + 0) * 16 + code b / 16) * 16 + code b mod 16)
        with (code b) by mod_lia.
      rewrite EncodeRune1 by lia. rewrite byte_of_code. reflexivity.
    + reflexivity.
    + reflexivity.
    + apply hex_val_hex_digit. rewrite (Z.shiftr_div_pow2 _ 4) by (clear; lia).
      change (2 ^ 4) with 16. mod_lia.
    + apply hex_val_hex_digit. rewrite land_15. mod_lia.
    + rewrite (Z.shiftr_div_pow2 _ 4), land_15 by (clear; lia).
      change (2 ^ 4) with 16. unfold utf8.is_surrogate. mod_lia.
Qed.

Lemma valid_fuel_cons (fuel : nat) (b : byte) (r : list byte) :
  utf8.valid_fuel (S fuel) (b :: r) =
  let '(rr, size) := utf8.DecodeRune (b :: r) in
  if (rr =? utf8.RuneError) && (size =? 1)%nat then false
  else utf8.valid_fuel fuel (skipn size (b :: r)).
Proof. reflexivity. Qed.

Lemma DecodeRune_ascii (b : byte) (r : list byte) :
  code b < 128 -> utf8.DecodeRune (b :: r) = (code b, 1%nat).
Proof.
  intros H. unfold utf8.DecodeRune, utf8.RuneSelf.
  replace (code b <? 128) with true by lia. reflexivity.
Qed.

Lemma prepend_Some (out w r : list byte) :
  prepend out (Some (w, r)) = Some (out ++ w, r).
Proof. reflexivity. Qed.

Lemma unquote_appendString (n : nat) :
  forall (src rest : list byte) (k1 k2 k3 : nat),
  (length src <= n)%nat ->
  (length src <= k1)%nat -> (length src <= k2)%nat ->
  utf8.valid_fuel k1 src = true ->
  (length (json.appendString k2 src) + 1 + length rest <= k3)%nat ->
  json.unquote k3 (json.appendString k2 src ++ json.quote :: rest)
  = Some (src, rest).
Proof.
  induction n as [|n IH]; intros src rest k1 k2 k3 Hn Hk1 Hk2 Hv Hk3.
  - destruct src; [|simpl in Hn; lia].
    replace (json.appendString k2 []) with (@nil byte) in *
      by (destruct k2; reflexivity).
    cbn [app length] in *. destruct k3 as [|k3]; [lia|]. reflexivity.
  - destruct src as [|b r].
    { replace (json.appendString k2 []) with (@nil byte) in *
        by (destruct k2; reflexivity).
      cbn [app length] in *. destruct k3 as [|k3]; [lia|]. reflexivity. }
    cbn [length] in Hn, Hk1, Hk2.
    destruct k1 as [|k1]; [lia|]. destruct k2 as [|k2]; [lia|].
    rewrite valid_fuel_cons in Hv. rewrite appendString_cons in *.
    cbv zeta in *. unfold utf8.RuneSelf in *.
    destruct (Z.ltb_spec (code b) 128) as [Hlt|Hge].
    + (* ASCII *)
      rewrite DecodeRune_ascii in Hv by exact Hlt.
      replace ((code b =? utf8.RuneError) && (1 =? 1)%nat) with false in Hv
        by (unfold utf8.RuneError; lia).
      cbn [skipn] in Hv.
      destruct k3 as [|k3]; [lia|].
      rewrite <- app_assoc, unquote_ascii_step by exact Hlt.
      rewrite (IH r rest k1 k2 k3); [reflexivity|lia|lia|lia|exact Hv|].
      rewrite length_app in Hk3.
      assert (1 <= length (if json.htmlSafe (code b) then [b]
                           else json.escape_ascii b))%nat.
      { destruct (json.htmlSafe (code b)); [simpl; lia|].
        unfold json.escape_ascii.
        repeat match goal with
               | |- context [if ?c then _ else _] => destruct c
               end; simpl; lia. }
      lia.
    + (* several bytes *)
      destruct (utf8.DecodeRune (b :: r)) as [rr size] eqn:Hd.
      destruct ((rr =? utf8.RuneError) && (size =? 1)%nat) eqn:Herr;
        [discriminate|].
      destruct (DecodeRune_multibyte b r rr size Hge Hd)
        as [[-> ->]|(pre & tl & Hsplit & Hlen & Henc & Hrr & Hne & Hstable)].
      { rewrite Z.eqb_refl in Herr. discriminate. }
      assert (Hskip : skipn size (b :: r) = tl).
      { rewrite Hsplit, <- Hlen. apply drop_app_length. }
      assert (Hfirst : firstn size (b :: r) = pre).
      { rewrite Hsplit, <- Hlen. apply take_app_length. }
      rewrite Hskip in *. rewrite Hfirst in *.
      assert (Htl : (length tl <= length r)%nat).
      { pose proof (f_equal length Hsplit) as Hl. rewrite length_app in Hl.
        cbn [length] in Hl. destruct pre; [contradiction|].
        cbn [length] in Hl. lia. }
      destruct k3 as [|k3]; [lia|].
      destruct ((rr =? 8232) || (rr =? 8233)) eqn:Hls.
      * (* U+2028 and U+2029 *)
        assert (Hhex : json.hex_val (json.hex_digit (Z.land rr 15))
                       = Some (Z.land rr 15) /\
                       (((2 * 16 + 0) * 16 + 2) * 16 + Z.land rr 15) = rr).
        { destruct (Z.eqb_spec rr 8232) as [->|_]; [split; reflexivity|].
          destruct (Z.eqb_spec rr 8233) as [->|_]; [split; reflexivity|].
          discriminate. }
        destruct Hhex as [Hh Hval].
        change (json.backslash :: bytes_of "u202"
                  ++ [json.hex_digit (Z.land rr 15)])
          with [json.backslash; "u"%byte; "2"%byte; "0"%byte; "2"%byte;
                json.hex_digit (Z.land rr 15)] in *.
        rewrite <- app_assoc. cbn [app].
        rewrite (unquote_u k3 _ _ 2 (Z.land rr 15) "2"%byte "0"%byte 2 0);
          [|reflexivity|reflexivity|reflexivity|exact Hh|].
        2:{ rewrite Hval. unfold utf8.is_surrogate.
            destruct (Z.eqb_spec rr 8232) as [->|_]; [reflexivity|].
            destruct (Z.eqb_spec rr 8233) as [->|_]; [reflexivity|].
            discriminate. }
        rewrite Hval, Henc.
        rewrite (IH tl rest k1 k2 k3); [|lia|lia|lia|exact Hv|].
        -- rewrite prepend_Some, Hsplit. reflexivity.
        -- rewrite length_app in Hk3. cbn [length] in Hk3. lia.
      * (* copied as it is *)
        rewrite <- app_assoc.
        destruct pre as [|c0 pre']; [contradiction|].
        injection Hsplit as <- Hr.
        cbn [app]. rewrite unquote_cons. cbv zeta. unfold utf8.RuneSelf.
        replace (code b =? 34) with false by lia.
        replace (code b =? 92) with false by lia.
        replace (code b <? 32) with false by lia.
        replace (code b <? 128) with false by lia.
        change (b :: pre' ++ json.appendString k2 tl ++ json.quote :: rest)
          with ((b :: pre') ++ json.appendString k2 tl ++ json.quote :: rest).
        rewrite Hstable, Henc, <- Hlen, drop_app_length.
        rewrite (IH tl rest k1 k2 k3); [|lia|lia|lia|exact Hv|].
        -- rewrite prepend_Some, Hr. reflexivity.
        -- rewrite length_app in Hk3. cbn [length] in Hk3. lia.
Qed.

(** * Numbers *)

Lemma byte_eqb_code (b c : byte) : byte_eqb b c = (code b =? code c).
Proof. reflexivity. Qed.

Lemma is_delim_not_number (b : byte) :
  is_delim b = true ->
  strconv.is_digit b = false /\ byte_eqb b "-" = false /\
  byte_eqb b "+" = false /\ byte_eqb b "." = false /\
  byte_eqb b "e" = false /\ byte_eqb b "E" = false /\ byte_eqb b "0" = false.
Proof.
  unfold is_delim, strconv.is_digit. rewrite !byte_eqb_code.
  change (code "-") with 45. change (code "+") with 43.
  change (code ".") with 46. change (code "e") with 101.
  change (code "E") with 69. change (code "0") with 48. lia.
Qed.

Lemma span_digits_app (s rest : list byte) :
  delimited rest ->
  forall ds r, strconv.span_digits s = (ds, r) ->
  strconv.span_digits (s ++ rest) = (ds, r ++ rest).
Proof.
  intros Hrest. induction s as [|b s IH]; intros ds r H.
  - injection H as <- <-. cbn [app].
    destruct rest as [|b rest]; [reflexivity|].
    cbn [strconv.span_digits]. cbn [delimited] in Hrest.
    destruct (is_delim_not_number b Hrest) as [-> _]. reflexivity.
  - cbn [strconv.span_digits app] in *.
    destruct (strconv.is_digit b).
    + destruct (strconv.span_digits s) as [ds' r'].
      injection H as <- <-. rewrite (IH ds' r' eq_refl). reflexivity.
    + injection H as <- <-. reflexivity.
Qed.

Lemma scan_sign_app (s rest : list byte) :
  delimited rest ->
  forall sg r, json.scan_sign s = (sg, r) ->
  json.scan_sign (s ++ rest) = (sg, r ++ rest).
Proof.
  intros Hrest sg r H. destruct s as [|b s].
  - injection H as <- <-. cbn [app].
    destruct rest as [|b rest]; [reflexivity|].
    unfold json.scan_sign. cbn [delimited] in Hrest.
    destruct (is_delim_not_number b Hrest) as (_ & -> & _). reflexivity.
  - unfold json.scan_sign in *. cbn [app].
    destruct (byte_eqb b "-"); injection H as <- <-; reflexivity.
Qed.

Lemma scan_int_app (s rest : list byte) :
  delimited rest ->
  forall ip r, json.scan_int s = Some (ip, r) ->
  json.scan_int (s ++ rest) = Some (ip, r ++ rest).
Proof.
  intros Hrest ip r H. destruct s as [|b s]; [discriminate|].
  unfold json.scan_int in *. cbn [app].
  destruct (byte_eqb b "0"); [injection H as <- <-; reflexivity|].
  destruct (strconv.span_digits (b :: s)) as [ds r'] eqn:Hs.
  change (b :: s ++ rest) with ((b :: s) ++ rest).
  rewrite (span_digits_app _ _ Hrest _ _ Hs).
  destruct ds; [discriminate|]. injection H as <- <-. reflexivity.
Qed.

Lemma scan_frac_app (s rest : list byte) :
  delimited rest ->
  forall fr r, json.scan_frac s = Some (fr, r) ->
  json.scan_frac (s ++ rest) = Some (fr, r ++ rest).
Proof.
  intros Hrest fr r H. destruct s as [|b s].
  - injection H as <- <-. cbn [app].
    destruct rest as [|b rest]; [reflexivity|].
    unfold json.scan_frac. cbn [delimited] in Hrest.
    destruct (is_delim_not_number b Hrest) as (_ & _ & _ & -> & _). reflexivity.
  - unfold json.scan_frac in *. cbn [app].
    destruct (byte_eqb b "."); [|injection H as <- <-; reflexivity].
    destruct (strconv.span_digits s) as [fp r'] eqn:Hs.
    rewrite (span_digits_app _ _ Hrest _ _ Hs).
    destruct fp; [discriminate|]. injection H as <- <-. reflexivity.
Qed.

Lemma scan_exp_app (s rest : list byte) :
  delimited rest ->
  forall ex r, json.scan_exp s = Some (ex, r) ->
  json.scan_exp (s ++ rest) = Some (ex, r ++ rest).
Proof.
  intros Hrest ex r H. destruct s as [|e s].
  - injection H as <- <-. cbn [app].
    destruct rest as [|b rest]; [reflexivity|].
    unfold json.scan_exp. cbn [delimited] in Hrest.
    destruct (is_delim_not_number b Hrest) as (_ & _ & _ & _ & -> & -> & _).
    reflexivity.
  - unfold json.scan_exp in *. cbn [app].
    destruct (byte_eqb e "e" || byte_eqb e "E");
      [|injection H as <- <-; reflexivity].
    destruct s as [|b s].
    + discriminate.
    + cbn [app].
      destruct (byte_eqb b "+" || byte_eqb b "-").
      * destruct (strconv.span_digits s) as [xp r2] eqn:Hs.
        rewrite (span_digits_app _ _ Hrest _ _ Hs).
        destruct xp; [discriminate|]. injection H as <- <-. reflexivity.
      * destruct (strconv.span_digits (b :: s)) as [xp r2] eqn:Hs.
        change (b :: s ++ rest) with ((b :: s) ++ rest).
        rewrite (span_digits_app _ _ Hrest _ _ Hs).
        destruct xp; [discriminate|]. injection H as <- <-. reflexivity.
Qed.

Lemma scan_number_app (lit rest : list byte) :
  number_literal lit -> delimited rest ->
  json.scan_number (lit ++ rest) = Some (lit, rest).
Proof.
  unfold number_literal, json.scan_number. intros H Hrest.
  destruct (json.scan_sign lit) as [sg s1] eqn:H1.
  rewrite (scan_sign_app _ _ Hrest _ _ H1).
  destruct (json.scan_int s1) as [[ip s2]|] eqn:H2; [|discriminate].
  rewrite (scan_int_app _ _ Hrest _ _ H2).
  destruct (json.scan_frac s2) as [[fr s3]|] eqn:H3; [|discriminate].
  rewrite (scan_frac_app _ _ Hrest _ _ H3).
  destruct (json.scan_exp s3) as [[ex s4]|] eqn:H4; [|discriminate].
  rewrite (scan_exp_app _ _ Hrest _ _ H4).
  injection H as -> ->. reflexivity.
Qed.

(** A literal starts with a minus sign or a digit. *)
Lemma number_literal_head (lit : list byte) :
  number_literal lit ->
  exists b l, lit = b :: l /\ (code b = 45 \/ strconv.is_digit b = true).
Proof.
  unfold number_literal, json.scan_number. intros H.
  destruct (json.scan_sign lit) as [sg s1] eqn:H1.
  destruct (json.scan_int s1) as [[ip s2]|] eqn:H2; [|discriminate].
  destruct lit as [|b l]; [injection H1 as <- <-; discriminate|].
  exists b, l. split; [reflexivity|].
  unfold json.scan_sign in H1.
  destruct (byte_eqb b "-") eqn:Hb.
  - left. apply byte_eqb_eq in Hb. subst b. reflexivity.
  - right. injection H1 as <- <-. unfold json.scan_int in H2.
    destruct (byte_eqb b "0") eqn:H0.
    + apply byte_eqb_eq in H0. subst b. reflexivity.
    + cbn [strconv.span_digits] in H2.
      destruct (strconv.is_digit b); [reflexivity|discriminate].
Qed.

(** ** Integers in decimal *)

Lemma to_uint_head_nonzero (p : positive) : head_nonzero (Pos.to_uint p).
Proof.
  assert (Hn : Decimal.unorm (Pos.to_uint p) = Pos.to_uint p).
  { rewrite <- DecimalPos.Unsigned.to_of, DecimalPos.Unsigned.of_to.
    reflexivity. }
  pose proof (Unsigned.to_uint_nonzero p) as Hz.
  unfold Decimal.unorm in Hn.
  pose proof (nzhead_nonzero (Pos.to_uint p)) as Hh.
  destruct (Decimal.nzhead (Pos.to_uint p)) eqn:E;
    try (rewrite <- Hn; exact I).
  - congruence.
  - exfalso. apply (Hh u). reflexivity.
Qed.

Lemma uint_bytes_digits (d : Decimal.uint) :
  Forall (fun b => strconv.is_digit b = true) (strconv.uint_bytes d).
Proof.
  induction d; cbn [strconv.uint_bytes]; constructor; auto.
Qed.

Lemma span_digits_all (l rest : list byte) :
  Forall (fun b => strconv.is_digit b = true) l ->
  match rest with [] => True | b :: _ => strconv.is_digit b = false end ->
  strconv.span_digits (l ++ rest) = (l, rest).
Proof.
  intros Hl Hrest. induction Hl as [|b l Hb Hl IH]; cbn [app].
  - destruct rest as [|b rest]; [reflexivity|].
    cbn [strconv.span_digits]. rewrite Hrest. reflexivity.
  - cbn [strconv.span_digits]. rewrite Hb, IH. reflexivity.
Qed.

Lemma uint_of_bytes_uint_bytes (d : Decimal.uint) :
  strconv.uint_of_bytes (strconv.uint_bytes d) = Some d.
Proof.
  induction d; cbn [strconv.uint_bytes strconv.uint_of_bytes];
    [reflexivity|..];
    match goal with
    | |- context [strconv.is_digit ?b] =>
      change (strconv.is_digit b) with true; cbv iota
    end;
    rewrite IHd; reflexivity.
Qed.

Lemma uint_bytes_head (d : Decimal.uint) :
  head_nonzero d ->
  exists b l, strconv.uint_bytes d = b :: l /\
    strconv.is_digit b = true /\ byte_eqb b "0" = false.
Proof.
  destruct d; cbn [head_nonzero strconv.uint_bytes]; intros H;
    try contradiction; eexists _, _; repeat split.
Qed.

Lemma is_digit_not_sign (b : byte) :
  strconv.is_digit b = true ->
  byte_eqb b "-" = false /\ byte_eqb b "+" = false /\
  byte_eqb b "." = false /\ byte_eqb b "e" = false /\ byte_eqb b "E" = false.
Proof.
  unfold strconv.is_digit. rewrite !byte_eqb_code.
  change (code "-") with 45. change (code "+") with 43.
  change (code ".") with 46. change (code "e") with 101.
  change (code "E") with 69. lia.
Qed.

(** The digits of a natural number, as a literal. *)
Lemma scan_digits_literal (d : Decimal.uint) :
  d = Decimal.D0 Decimal.Nil \/ head_nonzero d ->
  json.scan_int (strconv.uint_bytes d) = Some (strconv.uint_bytes d, []).
Proof.
  intros [->|Hd]; [reflexivity|].
  destruct (uint_bytes_head d Hd) as (b & l & E & Hb & H0).
  unfold json.scan_int. rewrite E, H0, <- E.
  rewrite <- (app_nil_r (strconv.uint_bytes d)) at 1.
  rewrite span_digits_all by (auto using uint_bytes_digits).
  rewrite E. reflexivity.
Qed.

Lemma to_int_digits (z : Z) :
  match Z.to_int z with
  | Decimal.Pos d | Decimal.Neg d =>
    d = Decimal.D0 Decimal.Nil \/ head_nonzero d
  end.
Proof.
  destruct z; cbn [Z.to_int]; auto using to_uint_head_nonzero.
Qed.

Lemma uint_bytes_first_digit (d : Decimal.uint) :
  d = Decimal.D0 Decimal.Nil \/ head_nonzero d ->
  exists b l, strconv.uint_bytes d = b :: l /\ strconv.is_digit b = true.
Proof.
  intros [->|Hd]; [eexists _, _; split; reflexivity|].
  destruct (uint_bytes_head d Hd) as (b & l & E & Hb & _). eauto.
Qed.

Lemma scan_sign_digits (d : Decimal.uint) :
  d = Decimal.D0 Decimal.Nil \/ head_nonzero d ->
  json.scan_sign (strconv.uint_bytes d) = ([], strconv.uint_bytes d).
Proof.
  intros Hd. destruct (uint_bytes_first_digit d Hd) as (b & l & E & Hb).
  destruct (is_digit_not_sign b Hb) as (Hm & _).
  unfold json.scan_sign. rewrite E, Hm. reflexivity.
Qed.

Lemma split_sign_digits (d : Decimal.uint) :
  d = Decimal.D0 Decimal.Nil \/ head_nonzero d ->
  strconv.split_sign (strconv.uint_bytes d) = (false, strconv.uint_bytes d).
Proof.
  intros Hd. destruct (uint_bytes_first_digit d Hd) as (b & l & E & Hb).
  destruct (is_digit_not_sign b Hb) as (Hm & Hp & _).
  unfold strconv.split_sign. rewrite E, Hm, Hp. reflexivity.
Qed.

Lemma FormatInt_literal (z : Z) : number_literal (strconv.FormatInt z).
Proof.
  unfold number_literal, strconv.FormatInt, json.scan_number.
  pose proof (to_int_digits z) as Hd.
  destruct (Z.to_int z) as [d|d].
  - rewrite (scan_sign_digits d Hd), (scan_digits_literal d Hd).
    cbn. rewrite !app_nil_r. reflexivity.
  - unfold json.scan_sign. rewrite byte_eqb_refl.
    rewrite (scan_digits_literal d Hd). cbn. rewrite !app_nil_r. reflexivity.
Qed.

Lemma ParseInt_digits (neg : bool) (d : Decimal.uint) (bitSize : Z) :
  d = Decimal.D0 Decimal.Nil \/ head_nonzero d ->
  strconv.ParseInt
    ((if neg then ["-"%byte] else []) ++ strconv.uint_bytes d) bitSize
  = let n := Z.of_int (if neg then Decimal.Neg d else Decimal.Pos d) in
    if (- 2 ^ (bitSize - 1) <=? n) && (n <? 2 ^ (bitSize - 1))
    then Some n else None.
Proof.
  intros Hd. destruct (uint_bytes_first_digit d Hd) as (b & l & E & Hb).
  unfold strconv.ParseInt. destruct neg; cbn [app].
  - unfold strconv.split_sign. rewrite byte_eqb_refl.
    rewrite uint_of_bytes_uint_bytes, E. reflexivity.
  - rewrite (split_sign_digits d Hd), uint_of_bytes_uint_bytes, E.
    reflexivity.
Qed.

Lemma ParseInt_FormatInt (z bitSize : Z) :
  - 2 ^ (bitSize - 1) <= z < 2 ^ (bitSize - 1) ->
  strconv.ParseInt (strconv.FormatInt z) bitSize = Some z.
Proof.
  intros Hz. unfold strconv.FormatInt.
  pose proof (to_int_digits z) as Hd. pose proof (DecimalZ.of_to z) as Hof.
  destruct (Z.to_int z) as [d|d].
  - pose proof (ParseInt_digits false d bitSize Hd) as Hp.
    cbn [app] in Hp. rewrite Hp. cbv zeta. rewrite Hof.
    replace ((- 2 ^ (bitSize - 1) <=? z) && (z <? 2 ^ (bitSize - 1)))
      with true by lia. reflexivity.
  - pose proof (ParseInt_digits true d bitSize Hd) as Hp.
    cbn [app] in Hp. rewrite Hp. cbv zeta. rewrite Hof.
    replace ((- 2 ^ (bitSize - 1) <=? z) && (z <? 2 ^ (bitSize - 1)))
      with true by lia. reflexivity.
Qed.

(** * Floating-point numbers *)

Lemma float64_eqb_eq (x y : strconv.float64) :
  strconv.float64_eqb x y = true -> x = y.
Proof.
  destruct x, y; cbn [strconv.float64_eqb]; intros H; try discriminate;
    try reflexivity.
  - apply Bool.eqb_prop in H. congruence.
  - apply Bool.eqb_prop in H. congruence.
  - apply andb_true_iff in H as [H He]. apply andb_true_iff in H as [Hs Hm].
    apply Bool.eqb_prop in Hs. apply Pos.eqb_eq in Hm. apply Z.eqb_eq in He.
    congruence.
Qed.

Lemma uint_bytes_length (d : Decimal.uint) :
  length (strconv.uint_bytes d) = Decimal.nb_digits d.
Proof.
  induction d; cbn [strconv.uint_bytes Decimal.nb_digits length]; congruence.
Qed.

Lemma of_uint_acc_lower (d : Decimal.uint) :
  forall acc,
  Zpos acc * 10 ^ Z.of_nat (Decimal.nb_digits d)
  <= Zpos (Pos.of_uint_acc d acc).
Proof.
  induction d; intros acc; cbn [Pos.of_uint_acc Decimal.nb_digits];
    [rewrite Z.pow_0_r; lia|..];
    (etransitivity; [|apply IHd]);
    rewrite Nat2Z.inj_succ, Z.pow_succ_r by lia;
    pose proof (Z.pow_pos_nonneg 10 (Z.of_nat (Decimal.nb_digits d)));
    nia.
Qed.

Lemma of_uint_lower (d : Decimal.uint) :
  head_nonzero d ->
  10 ^ (Z.of_nat (Decimal.nb_digits d) - 1) <= Z.of_uint d.
Proof.
  unfold Z.of_uint.
  destruct d; cbn [head_nonzero Pos.of_uint Decimal.nb_digits];
    intros H; try contradiction;
    rewrite Nat2Z.inj_succ;
    replace (Z.succ (Z.of_nat (Decimal.nb_digits d)) - 1)
      with (Z.of_nat (Decimal.nb_digits d)) by lia;
    cbn [Z.of_N];
    (etransitivity; [|apply of_uint_acc_lower]);
    pose proof (Z.pow_pos_nonneg 10 (Z.of_nat (Decimal.nb_digits d)));
    nia.
Qed.

Lemma digits_of_pos (p : positive) :
  strconv.digits_of (Zpos p) = strconv.uint_bytes (Pos.to_uint p).
Proof. reflexivity. Qed.

Lemma digits_of_lower (X : Z) :
  0 < X ->
  10 ^ (Z.of_nat (length (strconv.digits_of X)) - 1) <= X.
Proof.
  intros HX. destruct X as [|p|p]; try lia.
  rewrite digits_of_pos, uint_bytes_length.
  etransitivity; [apply of_uint_lower, to_uint_head_nonzero|].
  pose proof (DecimalZ.of_to (Zpos p)) as H. cbn [Z.to_int Z.of_int] in H.
  lia.
Qed.

Lemma digits_of_digit_string (c : Z) :
  0 < c -> digit_string (strconv.digits_of c).
Proof.
  intros Hc. destruct c as [|p|p]; try lia.
  rewrite digits_of_pos. split; [apply uint_bytes_digits|].
  destruct (uint_bytes_head _ (to_uint_head_nonzero p)) as (b & l & E & _ & H0).
  eauto.
Qed.

Lemma strip_zeros_rev_spec (r : list byte) :
  exists k, r = repeat "0"%byte k ++ strconv.strip_zeros_rev r.
Proof.
  induction r as [|b r [k IH]]; [exists O; reflexivity|].
  cbn [strconv.strip_zeros_rev].
  destruct (byte_eqb b "0") eqn:Hb.
  - apply byte_eqb_eq in Hb. subst b. exists (S k). cbn [repeat app].
    congruence.
  - exists O. reflexivity.
Qed.

Lemma trim_zeros_spec (ds : list byte) :
  exists k, ds = strconv.trim_zeros ds ++ repeat "0"%byte k.
Proof.
  unfold strconv.trim_zeros.
  destruct (strip_zeros_rev_spec (rev ds)) as [k Hk].
  exists k. apply (f_equal (@rev byte)) in Hk.
  rewrite rev_involutive, rev_app_distr in Hk.
  rewrite Hk at 1. f_equal.
  clear. induction k as [|k IH]; [reflexivity|].
  cbn [repeat rev]. rewrite IH. clear.
  induction k; [reflexivity|]. cbn [repeat app]. congruence.
Qed.

Lemma trim_zeros_digit_string (ds : list byte) :
  digit_string ds -> digit_string (strconv.trim_zeros ds).
Proof.
  intros [Hall (b & l & E & H0)].
  destruct (trim_zeros_spec ds) as [k Hk].
  split.
  - rewrite Hk in Hall. apply Forall_app in Hall. apply Hall.
  - destruct (strconv.trim_zeros ds) as [|b' l'] eqn:Et.
    + cbn [app] in Hk. rewrite E in Hk. destruct k; [discriminate|].
      cbn [repeat] in Hk. injection Hk as -> _. discriminate.
    + rewrite E in Hk. injection Hk as -> _. eauto.
Qed.

Lemma shortest_at_inv (f : strconv.float64) (fmt : byte) (neg : bool)
  (X q : Z) (n : nat) (txt : list byte) :
  0 < X -> (1 <= n)%nat ->
  strconv.shortest_at f fmt neg X q n = Some txt ->
  strconv.reads_back f txt = true /\
  exists ds dp, digit_string ds /\ txt = strconv.fmt_digits fmt neg ds dp.
Proof.
  intros HX Hn. unfold strconv.shortest_at. cbv zeta.
  destruct (Nat.leb_spec (length (strconv.digits_of X)) n) as [Hle|Hgt].
  - destruct (strconv.reads_back f _) eqn:Hrb; [|discriminate].
    intros H. injection H as <-. split; [exact Hrb|].
    eexists _, _. split; [|reflexivity].
    apply trim_zeros_digit_string, digits_of_digit_string, HX.
  - set (nd := length (strconv.digits_of X)) in *.
    set (scale := 10 ^ Z.of_nat (nd - n)).
    assert (Hscale : 0 < scale) by (apply Z.pow_pos_nonneg; lia).
    assert (Hlo : 1 <= X / scale).
    { apply Z.div_le_lower_bound; [lia|].
      pose proof (digits_of_lower X HX) as Hlow. fold nd in Hlow.
      rewrite Z.mul_1_r. etransitivity; [|exact Hlow].
      apply Z.pow_le_mono_r; lia. }
    set (down := strconv.fmt_digits fmt neg
                   (strconv.trim_zeros (strconv.digits_of (X / scale))) _).
    set (up := strconv.fmt_digits fmt neg
                 (strconv.trim_zeros (strconv.digits_of (X / scale + 1))) _).
    assert (Hdown : exists ds dp, digit_string ds /\
                      down = strconv.fmt_digits fmt neg ds dp).
    { eexists _, _. split; [|reflexivity].
      apply trim_zeros_digit_string, digits_of_digit_string. lia. }
    assert (Hup : exists ds dp, digit_string ds /\
                    up = strconv.fmt_digits fmt neg ds dp).
    { eexists _, _. split; [|reflexivity].
      apply trim_zeros_digit_string, digits_of_digit_string. lia. }
    destruct (strconv.reads_back f down) eqn:Hd,
             (strconv.reads_back f up) eqn:Hu; intros H.
    + repeat match type of H with
             | (if ?c then _ else _) = _ => destruct c
             end; injection H as <-; auto.
    + injection H as <-; auto.
    + injection H as <-; auto.
    + discriminate.
Qed.

Lemma shortest_from_inv (f : strconv.float64) (fmt : byte) (neg : bool)
  (X q : Z) (fuel : nat) :
  forall (n : nat) (txt : list byte),
  0 < X -> (1 <= n)%nat ->
  strconv.shortest_from f fmt neg X q n fuel = Some txt ->
  strconv.reads_back f txt = true /\
  exists ds dp, digit_string ds /\ txt = strconv.fmt_digits fmt neg ds dp.
Proof.
  induction fuel as [|fuel IH]; intros n txt HX Hn H;
    cbn [strconv.shortest_from] in H; [discriminate|].
  destruct (strconv.shortest_at f fmt neg X q n) as [t|] eqn:Hat.
  - injection H as <-. apply (shortest_at_inv _ _ _ _ _ _ _ HX Hn Hat).
  - apply (IH (S n) txt HX); [lia|exact H].
Qed.

Lemma exact_decimal_pos (m : positive) (e : Z) :
  0 < fst (strconv.exact_decimal m e).
Proof.
  unfold strconv.exact_decimal.
  destruct (0 <=? e) eqn:He; cbn [fst].
  - pose proof (Z.pow_pos_nonneg 2 e). lia.
  - pose proof (Z.pow_pos_nonneg 5 (- e)). lia.
Qed.

(** ** The spelling of a formatted number *)

Lemma int_ok_digits (ip : list byte) :
  int_ok ip ->
  Forall (fun b => strconv.is_digit b = true) ip /\
  exists b l, ip = b :: l /\ strconv.is_digit b = true.
Proof.
  intros [->|[Hall (b & l & -> & H0)]].
  - split; [repeat constructor|]. eexists _, _. split; reflexivity.
  - split; [exact Hall|]. exists b, l. split; [reflexivity|].
    inversion Hall; assumption.
Qed.

Lemma stops_frac_exp (fd ex : list byte) :
  exp_ok ex ->
  match frac_bytes fd ++ ex with
  | [] => True
  | b :: _ => strconv.is_digit b = false
  end.
Proof.
  intros Hex. destruct fd as [|b fd]; cbn [frac_bytes app]; [|reflexivity].
  destruct Hex as [->|(sg & xs & -> & _)]; [exact I|reflexivity].
Qed.

Lemma stops_exp (ex : list byte) :
  exp_ok ex ->
  match ex with
  | [] => True
  | b :: _ => strconv.is_digit b = false
  end.
Proof.
  intros [->|(sg & xs & -> & _)]; [exact I|reflexivity].
Qed.

Lemma scan_int_ok (ip rest : list byte) :
  int_ok ip ->
  match rest with [] => True | b :: _ => strconv.is_digit b = false end ->
  json.scan_int (ip ++ rest) = Some (ip, rest).
Proof.
  intros [->|[Hall (b & l & -> & H0)]] Hrest; [reflexivity|].
  unfold json.scan_int. cbn [app]. rewrite H0.
  change (b :: l ++ rest) with ((b :: l) ++ rest).
  rewrite (span_digits_all _ _ Hall Hrest). reflexivity.
Qed.

Lemma scan_frac_ok (fd ex : list byte) :
  Forall (fun b => strconv.is_digit b = true) fd -> exp_ok ex ->
  json.scan_frac (frac_bytes fd ++ ex) = Some (frac_bytes fd, ex).
Proof.
  intros Hfd Hex. destruct fd as [|b fd].
  - cbn [frac_bytes app].
    destruct Hex as [->|(sg & xs & -> & _)]; reflexivity.
  - change (frac_bytes (b :: fd) ++ ex) with ("."%byte :: ((b :: fd) ++ ex)).
    unfold json.scan_frac. rewrite byte_eqb_refl.
    rewrite (span_digits_all _ _ Hfd (stops_exp _ Hex)). reflexivity.
Qed.

Lemma scan_exp_ok (ex : list byte) :
  exp_ok ex -> json.scan_exp ex = Some (ex, []).
Proof.
  intros [->|(sg & xs & -> & Hsg & Hne & Hxs)]; [reflexivity|].
  unfold json.scan_exp. change (byte_eqb "e" "e" || byte_eqb "e" "E") with true.
  cbv iota.
  replace (byte_eqb sg "+" || byte_eqb sg "-") with true
    by (destruct Hsg as [->| ->]; reflexivity).
  rewrite <- (app_nil_r xs) at 1.
  rewrite (span_digits_all xs [] Hxs I).
  destruct xs; [contradiction|]. reflexivity.
Qed.

Lemma number_literal_build (neg : bool) (ip fd ex : list byte) :
  int_ok ip -> Forall (fun b => strconv.is_digit b = true) fd -> exp_ok ex ->
  number_literal (strconv.sign_bytes neg ++ ip ++ frac_bytes fd ++ ex).
Proof.
  intros Hip Hfd Hex. unfold number_literal, json.scan_number.
  destruct (int_ok_digits ip Hip) as (_ & b & l & E & Hb).
  assert (Hsign : json.scan_sign
                    (strconv.sign_bytes neg ++ ip ++ frac_bytes fd ++ ex)
                  = (strconv.sign_bytes neg, ip ++ frac_bytes fd ++ ex)).
  { destruct neg; cbn [strconv.sign_bytes app]; [reflexivity|].
    rewrite E. cbn [app]. unfold json.scan_sign.
    destruct (is_digit_not_sign b Hb) as (-> & _). reflexivity. }
  rewrite Hsign, (scan_int_ok _ _ Hip (stops_frac_exp fd ex Hex)).
  rewrite (scan_frac_ok _ _ Hfd Hex), (scan_exp_ok _ Hex). reflexivity.
Qed.

Lemma zeros_digits (n : Z) :
  Forall (fun b => strconv.is_digit b = true) (strconv.zeros n).
Proof.
  unfold strconv.zeros. induction (Z.to_nat n); constructor; auto.
Qed.

Lemma fmt_f_literal (neg : bool) (ds : list byte) (dp : Z) :
  digit_string ds -> number_literal (strconv.fmt_f neg ds dp).
Proof.
  intros [Hall (b & l & E & H0)]. unfold strconv.fmt_f. cbv zeta.
  set (nd := Z.of_nat (length ds)).
  set (ip := if 0 <? dp then firstn (Z.to_nat dp) ds ++ strconv.zeros (dp - nd)
             else ["0"%byte]).
  set (fd := if dp <? nd then strconv.zeros (- dp) ++ skipn (Z.to_nat dp) ds
             else []).
  replace (if dp <? nd
           then "."%byte :: strconv.zeros (- dp) ++ skipn (Z.to_nat dp) ds
           else []) with (frac_bytes fd ++ []).
  - apply number_literal_build.
    + unfold ip. destruct (Z.ltb_spec 0 dp) as [Hdp|Hdp]; [|left; reflexivity].
      right. split.
      * apply Forall_app. split; [|apply zeros_digits].
        apply Forall_take, Hall.
      * destruct (Z.to_nat dp) as [|k] eqn:Hk; [lia|].
        rewrite E. cbn [firstn app]. eauto.
    + unfold fd. destruct (dp <? nd); [|constructor].
      apply Forall_app. split; [apply zeros_digits|].
      apply Forall_drop, Hall.
    + left. reflexivity.
  - rewrite app_nil_r. unfold fd.
    destruct (Z.ltb_spec dp nd) as [Hlt|Hge]; [|reflexivity].
    destruct (strconv.zeros (- dp) ++ skipn (Z.to_nat dp) ds) eqn:Hz;
      [|reflexivity].
    exfalso. apply app_eq_nil in Hz as [_ Hs].
    apply (f_equal length) in Hs. rewrite length_drop in Hs.
    cbn [length] in Hs. unfold nd in Hlt.
    assert (1 <= length ds)%nat by (rewrite E; cbn [length]; lia). lia.
Qed.

Lemma FormatInt_nonneg (n : Z) :
  0 <= n ->
  exists d, strconv.FormatInt n = strconv.uint_bytes d /\
    (d = Decimal.D0 Decimal.Nil \/ head_nonzero d) /\ Z.of_uint d = n.
Proof.
  intros Hn. unfold strconv.FormatInt.
  pose proof (to_int_digits n) as Hd. pose proof (DecimalZ.of_to n) as Hof.
  destruct n as [|p|p]; try lia; cbn [Z.to_int] in *; eauto.
Qed.

Lemma FormatInt_small (n : Z) :
  0 <= n < 10 ->
  exists d, strconv.FormatInt n = [d] /\ strconv.is_digit d = true.
Proof.
  intros Hn. rewrite <- (Z2Nat.id n) by lia.
  assert (Hk : (Z.to_nat n < 10)%nat) by lia.
  revert Hk. generalize (Z.to_nat n) as k. intros k Hk.
  do 10 (destruct k as [|k]; [eexists; split; reflexivity|]). lia.
Qed.

Lemma FormatInt_large (n : Z) :
  10 <= n ->
  exists x1 x2 xs,
    strconv.FormatInt n = x1 :: x2 :: xs /\
    Forall (fun b => strconv.is_digit b = true) (x1 :: x2 :: xs) /\
    byte_eqb x1 "0" = false.
Proof.
  intros Hn. destruct (FormatInt_nonneg n) as (d & E & Hd & Hv); [lia|].
  destruct Hd as [->|Hd]; [cbn in Hv; lia|].
  destruct (uint_bytes_head d Hd) as (b & l & Eb & _ & H0).
  pose proof (uint_bytes_digits d) as Hall. rewrite E, Eb.
  destruct l as [|x2 xs].
  - exfalso. apply (f_equal (@length byte)) in Eb.
    rewrite uint_bytes_length in Eb.
    destruct d; cbn [Decimal.nb_digits length] in Eb; try discriminate;
      injection Eb as Eb; apply nb_digits_0 in Eb; rewrite Eb in Hv;
      cbn in Hv; lia.
  - exists b, x2, xs. rewrite <- Eb. auto.
Qed.

Lemma clean_exponent_short (P : list byte) (sg d : byte) :
  sg = "+"%byte \/ sg = "-"%byte ->
  json.clean_exponent (P ++ ["e"%byte; sg; "0"%byte; d])
  = P ++ ["e"%byte; sg; d].
Proof.
  intros Hsg. unfold json.clean_exponent.
  rewrite rev_app_distr. cbn [rev app].
  replace (byte_eqb "e" "e" && (byte_eqb sg "-" || byte_eqb sg "+")
           && byte_eqb "0" "0") with true
    by (destruct Hsg as [->| ->]; reflexivity).
  cbn [rev]. rewrite rev_involutive, <- !app_assoc. reflexivity.
Qed.

Lemma clean_exponent_long (P : list byte) (sg x1 x2 : byte) (xs : list byte) :
  Forall (fun b => strconv.is_digit b = true) (x1 :: x2 :: xs) ->
  byte_eqb x1 "0" = false ->
  json.clean_exponent (P ++ "e"%byte :: sg :: x1 :: x2 :: xs)
  = P ++ "e"%byte :: sg :: x1 :: x2 :: xs.
Proof.
  intros Hall H0. unfold json.clean_exponent.
  set (b := P ++ "e"%byte :: sg :: x1 :: x2 :: xs).
  assert (Hrev : rev b = rev xs ++ [x2; x1; sg; "e"%byte] ++ rev P).
  { unfold b. rewrite rev_app_distr. cbn [rev]. rewrite <- !app_assoc.
    reflexivity. }
  rewrite Hrev. destruct (rev xs) as [|y1 [|y2 [|y3 ys]]] eqn:Hxs.
  - cbn [app]. rewrite H0, andb_false_r. reflexivity.
  - cbn [app].
    inversion Hall as [|? ? H1 Hall']; subst.
    destruct (is_digit_not_sign x1 H1) as (-> & -> & _).
    rewrite andb_false_r. reflexivity.
  - cbn [app].
    inversion Hall as [|? ? H1 Hall']; subst.
    inversion Hall' as [|? ? H2 Hall'']; subst.
    destruct (is_digit_not_sign x2 H2) as (-> & -> & _).
    rewrite andb_false_r. reflexivity.
  - cbn [app].
    assert (Hy3 : strconv.is_digit y3 = true).
    { inversion Hall as [|? ? H1 Hall']; subst.
      inversion Hall' as [|? ? H2 Hall'']; subst.
      rewrite List.Forall_forall in Hall''. apply Hall''.
      apply in_rev. rewrite Hxs. right. right. left. reflexivity. }
    destruct (is_digit_not_sign y3 Hy3) as (Hm & Hp & _).
    destruct ys; cbn [app]; rewrite Hm, Hp; cbn [orb];
      rewrite andb_false_r; reflexivity.
Qed.

Lemma split_sign_build (neg : bool) (b : byte) (rest : list byte) :
  strconv.is_digit b = true ->
  strconv.split_sign (strconv.sign_bytes neg ++ b :: rest) = (neg, b :: rest).
Proof.
  intros Hb. destruct neg; cbn [strconv.sign_bytes app]; [reflexivity|].
  unfold strconv.split_sign.
  destruct (is_digit_not_sign b Hb) as (-> & -> & _). reflexivity.
Qed.

Lemma ParseFloat_exp (neg : bool) (b : byte) (l r : list byte) :
  strconv.is_digit b = true ->
  Forall (fun c => strconv.is_digit c = true) l ->
  r <> [] ->
  strconv.ParseFloat
    (strconv.sign_bytes neg ++ [b] ++ frac_bytes l ++ "e"%byte :: r)
  = match strconv.ParseInt r 64, strconv.uint_of_bytes (b :: l) with
    | Some x, Some d =>
      let f := strconv.of_decimal neg (Z.of_uint d) (x - Z.of_nat (length l)) in
      match f with
      | S754_finite _ _ _ | S754_zero _ => Some f
      | _ => None
      end
    | _, _ => None
    end.
Proof.
  intros Hb Hl Hr. unfold strconv.ParseFloat.
  cbn [app]. rewrite (split_sign_build neg b _ Hb).
  change (b :: frac_bytes l ++ "e"%byte :: r)
    with ([b] ++ (frac_bytes l ++ "e"%byte :: r)).
  rewrite (span_digits_all [b] (frac_bytes l ++ "e"%byte :: r)).
  2:{ constructor; [exact Hb|constructor]. }
  2:{ destruct l; reflexivity. }
  destruct l as [|c l'].
  - cbn [frac_bytes app]. change (byte_eqb "e" ".") with false. cbv iota.
    cbn [app length]. change (byte_eqb "e" "e" || byte_eqb "e" "E") with true.
    cbv iota. destruct r; [contradiction|]. reflexivity.
  - change (frac_bytes (c :: l') ++ "e"%byte :: r)
      with ("."%byte :: ((c :: l') ++ "e"%byte :: r)).
    cbv beta iota. change (byte_eqb "." ".") with true. cbv iota.
    rewrite (span_digits_all (c :: l') ("e"%byte :: r) Hl eq_refl).
    cbn [app]. change (byte_eqb "e" "e" || byte_eqb "e" "E") with true.
    cbv iota. destruct r; [contradiction|]. reflexivity.
Qed.

Lemma ParseInt_leading_zero (sg d : byte) :
  sg = "+"%byte \/ sg = "-"%byte ->
  strconv.ParseInt [sg; "0"%byte; d] 64 = strconv.ParseInt [sg; d] 64.
Proof.
  intros [->| ->]; unfold strconv.ParseInt, strconv.split_sign;
    cbv beta iota;
    [change (byte_eqb "+" "-") with false; change (byte_eqb "+" "+") with true
    |change (byte_eqb "-" "-") with true];
    cbv iota; cbn [strconv.uint_of_bytes];
    change (strconv.is_digit "0") with true; cbv iota;
    destruct (strconv.is_digit d); reflexivity.
Qed.

Lemma fmt_e_cleaned (neg : bool) (ds : list byte) (dp : Z) :
  digit_string ds ->
  number_literal (json.clean_exponent (strconv.fmt_e neg ds dp)) /\
  strconv.ParseFloat (json.clean_exponent (strconv.fmt_e neg ds dp))
  = strconv.ParseFloat (strconv.fmt_e neg ds dp).
Proof.
  intros [Hall (b & l & -> & H0)].
  inversion Hall as [|? ? Hb Hl]; subst.
  unfold strconv.fmt_e. cbv zeta.
  set (ex := dp - 1).
  set (sg := if ex <? 0 then "-"%byte else "+"%byte).
  assert (Hsg : sg = "+"%byte \/ sg = "-"%byte)
    by (unfold sg; destruct (ex <? 0); auto).
  replace (match l with
           | [] => [b]
           | _ :: _ => b :: "."%byte :: l
           end) with ([b] ++ frac_bytes l) by (destruct l; reflexivity).
  assert (Hint : int_ok [b]).
  { right. split; [constructor; [exact Hb|constructor]|]. eauto. }
  destruct (Z.ltb_spec (Z.abs ex) 10) as [Hsmall|Hlarge].
  - destruct (FormatInt_small (Z.abs ex)) as (d & -> & Hd); [lia|].
    replace (strconv.sign_bytes neg ++ ([b] ++ frac_bytes l)
             ++ "e"%byte :: sg :: ["0"%byte; d])
      with ((strconv.sign_bytes neg ++ [b] ++ frac_bytes l)
            ++ ["e"%byte; sg; "0"%byte; d])
      by (rewrite <- !app_assoc; reflexivity).
    rewrite (clean_exponent_short _ sg d Hsg). rewrite <- !app_assoc.
    split.
    + apply number_literal_build; [exact Hint|exact Hl|].
      right. exists sg, [d]. repeat split; auto; try discriminate.
    + cbn [app]. change (b :: frac_bytes l ++ "e"%byte :: sg :: [d])
        with ([b] ++ frac_bytes l ++ "e"%byte :: [sg; d]).
      change (b :: frac_bytes l ++ "e"%byte :: sg :: ["0"%byte; d])
        with ([b] ++ frac_bytes l ++ "e"%byte :: [sg; "0"%byte; d]).
      rewrite !ParseFloat_exp by (auto; discriminate).
      rewrite (ParseInt_leading_zero sg d Hsg). reflexivity.
  - destruct (FormatInt_large (Z.abs ex) Hlarge)
      as (x1 & x2 & xs & -> & Hxs & Hx1).
    replace (strconv.sign_bytes neg ++ ([b] ++ frac_bytes l)
             ++ "e"%byte :: sg :: x1 :: x2 :: xs)
      with ((strconv.sign_bytes neg ++ [b] ++ frac_bytes l)
            ++ "e"%byte :: sg :: x1 :: x2 :: xs)
      by (rewrite <- !app_assoc; reflexivity).
    rewrite (clean_exponent_long _ sg x1 x2 xs Hxs Hx1).
    split; [|reflexivity]. rewrite <- !app_assoc.
    apply number_literal_build; [exact Hint|exact Hl|].
    right. exists sg, (x1 :: x2 :: xs). repeat split; auto; try discriminate.
Qed.

Lemma floatEncoder_zero (s : bool) (lit : list byte) :
  json.floatEncoder (S754_zero s) = Some lit ->
  number_literal lit /\ strconv.ParseFloat lit = Some (S754_zero s).
Proof.
  intros H.
  assert (E : json.floatEncoder (S754_zero s)
              = Some (strconv.sign_bytes s ++ ["0"%byte]))
    by (destruct s; vm_compute; reflexivity).
  rewrite E in H. injection H as <-.
  destruct s; split; vm_compute; reflexivity.
Qed.

(** What [floatEncoder] writes is a JSON number that [ParseFloat] reads as
    the number written. *)
Lemma floatEncoder_roundtrip (f : strconv.float64) (lit : list byte) :
  json.floatEncoder f = Some lit ->
  number_literal lit /\ strconv.ParseFloat lit = Some f.
Proof.
  destruct f as [s|s| |s m e].
  - apply floatEncoder_zero.
  - unfold json.floatEncoder. intros H. discriminate H.
  - unfold json.floatEncoder. intros H. discriminate H.
  - unfold json.floatEncoder.
    cbv zeta. cbn [negb andb].
    match goal with
    | |- context [strconv.AppendFloat _ ?x] => set (fmt := x); clearbody fmt
    end.
    unfold strconv.AppendFloat.
    pose proof (exact_decimal_pos m e) as HX.
    destruct (strconv.exact_decimal m e) as [X q]. cbn [fst] in HX.
    destruct (strconv.shortest_from _ fmt s X q 1 17) as [txt|] eqn:Hs;
      [|intros H; discriminate H].
    intros H. injection H as <-.
    destruct (shortest_from_inv _ _ _ _ _ _ _ _ HX (le_n 1) Hs)
      as (Hrb & ds & dp & Hds & ->).
    unfold strconv.reads_back in Hrb.
    destruct (strconv.ParseFloat _) as [g|] eqn:Hg; [|discriminate Hrb].
    apply float64_eqb_eq in Hrb. subst g.
    unfold strconv.fmt_digits in *.
    destruct (byte_eqb fmt "e").
    + destruct (fmt_e_cleaned s ds dp Hds) as [Hlit Hpf].
      split; [exact Hlit|]. rewrite Hpf. exact Hg.
    + split; [apply fmt_f_literal, Hds|exact Hg].
Qed.

(** * The text layer: what [render] writes, [parse] reads *)

Lemma tokens_of_array (elems : list json.tree) :
  tokens_of (json.JArray elems) = json.TLBrack :: elems_tokens elems.
Proof. reflexivity. Qed.

Lemma tokens_of_object (members : list (string * json.tree)) :
  tokens_of (json.JObject members) = json.TLBrace :: members_tokens members.
Proof. reflexivity. Qed.

Lemma render_object (members : list (string * json.tree)) :
  json.render (json.JObject members)
  = "{"%byte :: json.join ","%byte (map render_member members) ++ ["}"%byte].
Proof. reflexivity. Qed.

Lemma lex_cons (fuel : nat) (b : byte) (r : list byte) :
  json.lex (S fuel) (b :: r)
  = let c := code b in
    let emit (t : json.token) (r' : list byte) :=
      match json.lex fuel r' with
      | Some ts => Some (t :: ts)
      | None => None
      end in
    if json.is_space b then json.lex fuel r
    else if c =? 123 then emit json.TLBrace r
    else if c =? 125 then emit json.TRBrace r
    else if c =? 91 then emit json.TLBrack r
    else if c =? 93 then emit json.TRBrack r
    else if c =? 58 then emit json.TColon r
    else if c =? 44 then emit json.TComma r
    else if c =? 34 then
      match json.unquote (length r) r with
      | Some (w, r') => emit (json.TString (string_of_list_byte w)) r'
      | None => None
      end
    else if (c =? 45) || strconv.is_digit b then
      match json.scan_number (b :: r) with
      | Some (lit, r') => emit (json.TNumber lit) r'
      | None => None
      end
    else if c =? 116 then
      match json.strip_prefix (bytes_of "true") (b :: r) with
      | Some r' => emit json.TTrue r'
      | None => None
      end
    else if c =? 102 then
      match json.strip_prefix (bytes_of "false") (b :: r) with
      | Some r' => emit json.TFalse r'
      | None => None
      end
    else if c =? 110 then
      match json.strip_prefix (bytes_of "null") (b :: r) with
      | Some r' => emit json.TNull r'
      | None => None
      end
    else None.
Proof. reflexivity. Qed.

Lemma lexes_nil : lexes [] [].
Proof. intros [|fuel] _; reflexivity. Qed.

Lemma lexes_punct (b : byte) (t : json.token) (rest : list byte)
  (ts : list json.token) :
  punct b = Some t -> lexes rest ts -> lexes (b :: rest) (t :: ts).
Proof.
  intros Hp H [|fuel] Hf; cbn [length] in Hf; [lia|].
  rewrite lex_cons. cbv zeta. unfold json.is_space. cbv zeta.
  rewrite (H fuel) by lia. revert Hp. unfold punct. cbv zeta.
  destruct (Z.eqb_spec (code b) 123) as [E|_];
    [rewrite E; intros [= <-]; reflexivity|].
  destruct (Z.eqb_spec (code b) 125) as [E|_];
    [rewrite E; intros [= <-]; reflexivity|].
  destruct (Z.eqb_spec (code b) 91) as [E|_];
    [rewrite E; intros [= <-]; reflexivity|].
  destruct (Z.eqb_spec (code b) 93) as [E|_];
    [rewrite E; intros [= <-]; reflexivity|].
  destruct (Z.eqb_spec (code b) 58) as [E|_];
    [rewrite E; intros [= <-]; reflexivity|].
  destruct (Z.eqb_spec (code b) 44) as [E|_];
    [rewrite E; intros [= <-]; reflexivity|].
  intros Hp. discriminate Hp.
Qed.

Lemma lexes_word (w : string) (t : json.token) (rest : list byte)
  (ts : list json.token) :
  (w = "true"%string /\ t = json.TTrue) \/
  (w = "false"%string /\ t = json.TFalse) \/
  (w = "null"%string /\ t = json.TNull) ->
  lexes rest ts -> lexes (bytes_of w ++ rest) (t :: ts).
Proof.
  intros Hw H fuel Hf.
  destruct Hw as [[-> ->]|[[-> ->]|[-> ->]]];
    (destruct fuel as [|fuel]; cbn [length bytes_of app] in Hf; [cbn in Hf; lia|]).
  - change (json.lex (S fuel) (bytes_of "true" ++ rest))
      with (match json.lex fuel rest with
            | Some ts => Some (json.TTrue :: ts)
            | None => None
            end).
    rewrite (H fuel); [reflexivity|cbn in Hf; lia].
  - change (json.lex (S fuel) (bytes_of "false" ++ rest))
      with (match json.lex fuel rest with
            | Some ts => Some (json.TFalse :: ts)
            | None => None
            end).
    rewrite (H fuel); [reflexivity|cbn in Hf; lia].
  - change (json.lex (S fuel) (bytes_of "null" ++ rest))
      with (match json.lex fuel rest with
            | Some ts => Some (json.TNull :: ts)
            | None => None
            end).
    rewrite (H fuel); [reflexivity|cbn in Hf; lia].
Qed.

Lemma lexes_number (lit rest : list byte) (ts : list json.token) :
  number_literal lit -> delimited rest -> lexes rest ts ->
  lexes (lit ++ rest) (json.TNumber lit :: ts).
Proof.
  intros Hlit Hrest H fuel Hf.
  pose proof (scan_number_app lit rest Hlit Hrest) as Hscan.
  destruct (number_literal_head lit Hlit) as (b & l & -> & Hb).
  cbn [app length] in *. destruct fuel as [|fuel]; [lia|].
  rewrite lex_cons. cbv zeta. rewrite Hscan.
  rewrite (H fuel) by (rewrite length_app in Hf; lia).
  unfold json.is_space. cbv zeta.
  assert (Hc : code b = 45 \/ 48 <= code b <= 57).
  { destruct Hb as [Hb|Hb]; [left; exact Hb|right].
    unfold strconv.is_digit in Hb. lia. }
  replace (code b =? 32) with false by lia.
  replace (code b =? 9) with false by lia.
  replace (code b =? 13) with false by lia.
  replace (code b =? 10) with false by lia.
  replace (code b =? 123) with false by lia.
  replace (code b =? 125) with false by lia.
  replace (code b =? 91) with false by lia.
  replace (code b =? 93) with false by lia.
  replace (code b =? 58) with false by lia.
  replace (code b =? 44) with false by lia.
  replace (code b =? 34) with false by lia.
  replace ((code b =? 45) || strconv.is_digit b) with true; [reflexivity|].
  unfold strconv.is_digit. lia.
Qed.

Lemma lexes_string (s : string) (rest : list byte) (ts : list json.token) :
  utf8.ValidString s = true -> lexes rest ts ->
  lexes (json.quoted s ++ rest) (json.TString s :: ts).
Proof.
  intros Hs H fuel Hf. unfold json.quoted in *. cbv zeta in *.
  set (src := bytes_of s) in *.
  set (body := json.appendString (length src) src) in *.
  change ((json.quote :: body ++ [json.quote]) ++ rest)
    with (json.quote :: (body ++ [json.quote]) ++ rest) in *.
  rewrite <- app_assoc in *. cbn [app] in *.
  destruct fuel as [|fuel]; cbn [length] in Hf; [lia|].
  change (json.lex (S fuel) (json.quote :: body ++ json.quote :: rest))
    with (match json.unquote (length (body ++ json.quote :: rest))
                             (body ++ json.quote :: rest) with
          | Some (w, r') =>
            match json.lex fuel r' with
            | Some ts => Some (json.TString (string_of_list_byte w) :: ts)
            | None => None
            end
          | None => None
          end).
  rewrite (unquote_appendString (length src) src rest (length src)
             (length src) _ (le_n _) (le_n _) (le_n _) Hs).
  2:{ fold body. rewrite length_app. cbn [length]. lia. }
  rewrite (H fuel) by (rewrite length_app in Hf; cbn [length] in Hf; lia).
  unfold src, bytes_of. rewrite string_of_list_byte_of_string. reflexivity.
Qed.

Lemma lexes_elems (P : json.tree -> Prop) (elems : list json.tree)
  (rest : list byte) (ts : list json.token) :
  (forall t rest ts, P t -> delimited rest -> lexes rest ts ->
     lexes (json.render t ++ rest) (tokens_of t ++ ts)) ->
  Forall P elems -> lexes rest ts ->
  lexes (json.join ","%byte (map json.render elems) ++ "]"%byte :: rest)
        (elems_tokens elems ++ ts).
Proof.
  intros IH Hall H. induction Hall as [|x l Hx Hl IHl].
  - apply (lexes_punct "]"); [reflexivity|exact H].
  - destruct l as [|y l'].
    + cbn [map json.join elems_tokens]. rewrite <- app_assoc.
      apply IH; [exact Hx|reflexivity|].
      apply (lexes_punct "]"); [reflexivity|exact H].
    + change (json.join ","%byte (map json.render (x :: y :: l')))
        with (json.render x
              ++ ","%byte :: json.join ","%byte (map json.render (y :: l'))).
      change (elems_tokens (x :: y :: l'))
        with (tokens_of x ++ json.TComma :: elems_tokens (y :: l')).
      rewrite <- !app_assoc. apply IH; [exact Hx|reflexivity|].
      apply (lexes_punct ","); [reflexivity|exact IHl].
Qed.

Lemma lexes_member (k : string) (v : json.tree) (rest : list byte)
  (toks : list json.token) :
  utf8.ValidString k = true ->
  lexes (json.render v ++ rest) toks ->
  lexes (render_member (k, v) ++ rest)
        (json.TString k :: json.TColon :: toks).
Proof.
  intros Hk H. unfold render_member. cbn [fst snd].
  rewrite <- app_assoc. apply lexes_string; [exact Hk|].
  apply (lexes_punct ":"); [reflexivity|exact H].
Qed.

Lemma lexes_members (P : json.tree -> Prop)
  (members : list (string * json.tree)) (rest : list byte)
  (ts : list json.token) :
  (forall t rest ts, P t -> delimited rest -> lexes rest ts ->
     lexes (json.render t ++ rest) (tokens_of t ++ ts)) ->
  Forall (fun kv => utf8.ValidString (fst kv) = true /\ P (snd kv)) members ->
  lexes rest ts ->
  lexes (json.join ","%byte (map render_member members) ++ "}"%byte :: rest)
        (members_tokens members ++ ts).
Proof.
  intros IH Hall H. induction Hall as [|[k v] l [Hk Hv] Hl IHl].
  - apply (lexes_punct "}"); [reflexivity|exact H].
  - cbn [fst snd] in *. destruct l as [|y l'].
    + change (lexes (render_member (k, v) ++ "}"%byte :: rest)
                (json.TString k :: json.TColon
                 :: (tokens_of v ++ [json.TRBrace]) ++ ts)).
      apply lexes_member; [exact Hk|]. rewrite <- app_assoc.
      apply IH; [exact Hv|reflexivity|].
      apply (lexes_punct "}"); [reflexivity|exact H].
    + change (lexes ((render_member (k, v)
                      ++ ","%byte
                         :: json.join ","%byte (map render_member (y :: l')))
                     ++ "}"%byte :: rest)
                (json.TString k :: json.TColon
                 :: (tokens_of v ++ json.TComma :: members_tokens (y :: l'))
                    ++ ts)).
      rewrite <- app_assoc.
      apply lexes_member; [exact Hk|]. rewrite <- app_assoc.
      apply IH; [exact Hv|reflexivity|].
      apply (lexes_punct ","); [reflexivity|exact IHl].
Qed.

(** The lexer reads the text of a well-formed tree as the tree's tokens. *)
Lemma lexes_render (n : nat) :
  forall (t : json.tree) (rest : list byte) (ts : list json.token),
  tree_wf n t -> delimited rest -> lexes rest ts ->
  lexes (json.render t ++ rest) (tokens_of t ++ ts).
Proof.
  induction n as [|n IH]; intros t rest ts Hwf Hrest H;
    destruct t as [|[|]|lit|s|elems|members]; cbn [tree_wf] in Hwf;
    try contradiction.
  1,6: apply (lexes_word "null"); auto.
  1,5: apply (lexes_word "true"); auto.
  1,4: apply (lexes_word "false"); auto.
  1,3: apply lexes_number; assumption.
  1,2: apply lexes_string; assumption.
  - rewrite tokens_of_array. cbn [json.render app].
    apply (lexes_punct "["); [reflexivity|].
    rewrite <- app_assoc. cbn [app].
    apply (lexes_elems (tree_wf n)); auto.
  - rewrite tokens_of_object, render_object. cbn [app].
    apply (lexes_punct "{"); [reflexivity|].
    rewrite <- app_assoc. cbn [app].
    apply (lexes_members (tree_wf n)); auto.
Qed.

(** ** The grammar *)

Lemma parse_value_S (fuel : nat) (depth : Z) (ts : list json.token) :
  json.parse_value (S fuel) depth ts
  = match ts with
    | json.TNull :: r => Some (json.JNull, r)
    | json.TTrue :: r => Some (json.JBool true, r)
    | json.TFalse :: r => Some (json.JBool false, r)
    | json.TNumber lit :: r => Some (json.JNumber lit, r)
    | json.TString s :: r => Some (json.JString s, r)
    | json.TLBrack :: r =>
      if json.maxNestingDepth <=? depth then None
      else
        match r with
        | json.TRBrack :: r' => Some (json.JArray [], r')
        | _ =>
          match json.parse_elems fuel (depth + 1) r with
          | Some (vs, r') => Some (json.JArray vs, r')
          | None => None
          end
        end
    | json.TLBrace :: r =>
      if json.maxNestingDepth <=? depth then None
      else
        match r with
        | json.TRBrace :: r' => Some (json.JObject [], r')
        | _ =>
          match json.parse_members fuel (depth + 1) r with
          | Some (ms, r') => Some (json.JObject ms, r')
          | None => None
          end
        end
    | _ => None
    end.
Proof. reflexivity. Qed.

Lemma parse_elems_S (fuel : nat) (depth : Z) (ts : list json.token) :
  json.parse_elems (S fuel) depth ts
  = match json.parse_value fuel depth ts with
    | Some (v, json.TComma :: r) =>
      match json.parse_elems fuel depth r with
      | Some (vs, r') => Some (v :: vs, r')
      | None => None
      end
    | Some (v, json.TRBrack :: r) => Some ([v], r)
    | _ => None
    end.
Proof. reflexivity. Qed.

Lemma parse_members_S (fuel : nat) (depth : Z) (ts : list json.token) :
  json.parse_members (S fuel) depth ts
  = match ts with
    | json.TString k :: json.TColon :: r =>
      match json.parse_value fuel depth r with
      | Some (v, json.TComma :: r1) =>
        match json.parse_members fuel depth r1 with
        | Some (ms, r') => Some ((k, v) :: ms, r')
        | None => None
        end
      | Some (v, json.TRBrace :: r1) => Some ([(k, v)], r1)
      | _ => None
      end
    | _ => None
    end.
Proof. reflexivity. Qed.

(** A value starts with no closing bracket or brace. *)
Lemma tokens_of_head (t : json.tree) :
  exists tok tl, tokens_of t = tok :: tl /\
    tok <> json.TRBrack /\ tok <> json.TRBrace.
Proof.
  destruct t as [|[|]|lit|s|elems|members]; cbn [tokens_of];
    eexists _, _; (split; [reflexivity|split; discriminate]).
Qed.

Lemma tokens_of_length (t : json.tree) : (1 <= length (tokens_of t))%nat.
Proof.
  destruct (tokens_of_head t) as (tok & tl & -> & _). cbn [length]. lia.
Qed.

Lemma parse_value_array (fuel : nat) (depth : Z) (r : list json.token) :
  depth < json.maxNestingDepth ->
  (forall r', r <> json.TRBrack :: r') ->
  json.parse_value (S fuel) depth (json.TLBrack :: r)
  = match json.parse_elems fuel (depth + 1) r with
    | Some (vs, r') => Some (json.JArray vs, r')
    | None => None
    end.
Proof.
  intros Hd Hr. rewrite parse_value_S.
  replace (json.maxNestingDepth <=? depth) with false by lia.
  destruct r as [|[] r]; try reflexivity. destruct (Hr r eq_refl).
Qed.

Lemma parse_value_object (fuel : nat) (depth : Z) (r : list json.token) :
  depth < json.maxNestingDepth ->
  (forall r', r <> json.TRBrace :: r') ->
  json.parse_value (S fuel) depth (json.TLBrace :: r)
  = match json.parse_members fuel (depth + 1) r with
    | Some (ms, r') => Some (json.JObject ms, r')
    | None => None
    end.
Proof.
  intros Hd Hr. rewrite parse_value_S.
  replace (json.maxNestingDepth <=? depth) with false by lia.
  destruct r as [|[] r]; try reflexivity. destruct (Hr r eq_refl).
Qed.

Lemma parse_elems_tokens (P : json.tree -> Prop) (depth : Z)
  (elems : list json.tree) :
  (forall t fuel rest, P t -> (length (tokens_of t) <= fuel)%nat ->
     json.parse_value fuel depth (tokens_of t ++ rest) = Some (t, rest)) ->
  Forall P elems -> elems <> [] ->
  forall (fuel : nat) (rest : list json.token),
  (length (elems_tokens elems) <= fuel)%nat ->
  json.parse_elems fuel depth (elems_tokens elems ++ rest)
  = Some (elems, rest).
Proof.
  intros IH Hall. induction Hall as [|x l Hx Hl IHl]; intros Hne fuel rest Hf;
    [contradiction|].
  destruct l as [|y l'].
  - cbn [elems_tokens] in *. rewrite length_app in Hf. cbn [length] in Hf.
    destruct fuel as [|fuel]; [lia|].
    rewrite parse_elems_S, <- app_assoc, (IH x fuel _ Hx) by lia.
    reflexivity.
  - change (elems_tokens (x :: y :: l'))
      with (tokens_of x ++ json.TComma :: elems_tokens (y :: l')) in *.
    rewrite length_app in Hf. cbn [length] in Hf.
    pose proof (tokens_of_length x).
    destruct fuel as [|fuel]; [lia|].
    rewrite parse_elems_S, <- app_assoc, (IH x fuel _ Hx) by lia.
    cbn [app]. rewrite IHl by (try discriminate; lia). reflexivity.
Qed.

Lemma parse_members_tokens (P : json.tree -> Prop) (depth : Z)
  (members : list (string * json.tree)) :
  (forall t fuel rest, P t -> (length (tokens_of t) <= fuel)%nat ->
     json.parse_value fuel depth (tokens_of t ++ rest) = Some (t, rest)) ->
  Forall (fun kv => P (snd kv)) members -> members <> [] ->
  forall (fuel : nat) (rest : list json.token),
  (length (members_tokens members) <= fuel)%nat ->
  json.parse_members fuel depth (members_tokens members ++ rest)
  = Some (members, rest).
Proof.
  intros IH Hall.
  induction Hall as [|[k v] l Hx Hl IHl]; intros Hne fuel rest Hf;
    [contradiction|].
  cbn [snd] in Hx. destruct l as [|y l'].
  - cbn [members_tokens fst snd] in *. cbn [length] in Hf.
    rewrite length_app in Hf. cbn [length] in Hf.
    destruct fuel as [|fuel]; [lia|].
    cbn [app]. rewrite parse_members_S, <- app_assoc, (IH v fuel _ Hx) by lia.
    reflexivity.
  - change (members_tokens ((k, v) :: y :: l'))
      with (json.TString k :: json.TColon :: tokens_of v
            ++ json.TComma :: members_tokens (y :: l')) in *.
    cbn [length] in Hf. rewrite length_app in Hf. cbn [length] in Hf.
    destruct fuel as [|fuel]; [lia|].
    cbn [app]. rewrite parse_members_S, <- app_assoc, (IH v fuel _ Hx) by lia.
    cbn [app]. rewrite IHl by (try discriminate; lia). reflexivity.
Qed.

(** The grammar reads the tokens of a well-formed tree as the tree, as long
    as the tree is no deeper than the decoder allows. *)
Lemma parse_value_tokens (n : nat) :
  forall (t : json.tree) (fuel : nat) (depth : Z) (rest : list json.token),
  tree_wf n t -> (length (tokens_of t) <= fuel)%nat ->
  depth + Z.of_nat n <= json.maxNestingDepth ->
  json.parse_value fuel depth (tokens_of t ++ rest) = Some (t, rest).
Proof.
  induction n as [|n IH]; intros t fuel depth rest Hwf Hf Hd;
    pose proof (tokens_of_length t) as Hlen;
    (destruct fuel as [|fuel]; [lia|]);
    destruct t as [|[|]|lit|s|elems|members]; cbn [tree_wf] in Hwf;
    try contradiction; try reflexivity.
  - rewrite tokens_of_array in *. cbn [length app] in *.
    destruct elems as [|x l]; [rewrite parse_value_S; cbn [elems_tokens app];
      replace (json.maxNestingDepth <=? depth) with false by lia;
      reflexivity|].
    rewrite parse_value_array.
    + assert (Hrec : forall t f r, tree_wf n t ->
                (length (tokens_of t) <= f)%nat ->
                json.parse_value f (depth + 1) (tokens_of t ++ r)
                = Some (t, r))
        by (intros t f r Ht Hlt; apply IH; [exact Ht|exact Hlt|lia]).
      rewrite (parse_elems_tokens (tree_wf n) (depth + 1) (x :: l) Hrec Hwf)
        by (try discriminate; lia).
      reflexivity.
    + lia.
    + intros r' E.
      destruct (tokens_of_head x) as (tok & tl & Ex & Hn1 & Hn2).
      destruct l; cbn [elems_tokens] in E; rewrite Ex in E;
        cbn [app] in E; congruence.
  - rewrite tokens_of_object in *. cbn [length app] in *.
    destruct members as [|x l]; [rewrite parse_value_S;
      cbn [members_tokens app];
      replace (json.maxNestingDepth <=? depth) with false by lia;
      reflexivity|].
    rewrite parse_value_object.
    + assert (Hrec : forall t f r, tree_wf n t ->
                (length (tokens_of t) <= f)%nat ->
                json.parse_value f (depth + 1) (tokens_of t ++ r)
                = Some (t, r))
        by (intros t f r Ht Hlt; apply IH; [exact Ht|exact Hlt|lia]).
      assert (Hall : Forall (fun kv : string * json.tree => tree_wf n (snd kv))
                            (x :: l))
        by (eapply List.Forall_impl; [|exact Hwf]; intros kv [_ Hkv];
            exact Hkv).
      rewrite (parse_members_tokens (tree_wf n) (depth + 1) (x :: l) Hrec Hall)
        by (try discriminate; lia).
      reflexivity.
    + lia.
    + intros r' E. destruct l; cbn [members_tokens] in E; discriminate.
Qed.

(** [parse] reads what [render] writes. *)
Lemma parse_render (n : nat) (t : json.tree) :
  tree_wf n t -> Z.of_nat n <= json.maxNestingDepth ->
  json.parse (json.render t) = Some t.
Proof.
  intros Hwf Hn. unfold json.parse.
  pose proof (lexes_render n t [] [] Hwf I lexes_nil) as Hlex.
  rewrite !app_nil_r in Hlex. rewrite (Hlex _ (le_n _)).
  pose proof (parse_value_tokens n t (S (length (tokens_of t))) 0 [] Hwf) as Hp.
  rewrite app_nil_r in Hp. rewrite Hp; [reflexivity|lia|lia].
Qed.

(** * Values and structs: what the encoders write, the decoders read *)

Lemma foldl_insert_lookup {A : Type} (L : list (string * A)) :
  forall (acc : gmap string A) (k : string),
  NoDup L.*1 ->
  foldl (fun m kv => <[fst kv := snd kv]> m) acc L !! k
  = match (list_to_map L : gmap string A) !! k with
    | Some v => Some v
    | None => acc !! k
    end.
Proof.
  induction L as [|[k0 v0] L IH]; intros acc k Hnd.
  - reflexivity.
  - cbn [foldl fst snd list_to_map foldr curry uncurry].
    inversion Hnd as [|? ? Hnotin Hnd']; subst.
    rewrite (IH _ _ Hnd'). cbn [fst snd].
    destruct (decide (k = k0)) as [->|Hne].
    + rewrite (not_elem_of_list_to_map_1 L k0 Hnotin).
      rewrite !lookup_insert_eq. reflexivity.
    + rewrite !(lookup_insert_ne _ _ _ _ (not_eq_sym Hne)). reflexivity.
Qed.

Lemma foldl_insert_list_to_map {A : Type} (L : list (string * A)) :
  NoDup L.*1 ->
  foldl (fun m kv => <[fst kv := snd kv]> m) (∅ : gmap string A) L
  = list_to_map L.
Proof.
  intros Hnd. apply map_eq. intros k.
  rewrite (foldl_insert_lookup L ∅ k Hnd), lookup_empty.
  destruct (_ !! k); reflexivity.
Qed.

Lemma mapM_cons_Some {A B : Type} (f : A -> option B) (x : A) (l : list A)
  (r : list B) :
  mapM f (x :: l) = Some r ->
  exists y k, f x = Some y /\ mapM f l = Some k /\ r = y :: k.
Proof.
  intros H. apply mapM_Some in H. inversion H as [|? y ? k Hy Hk]; subst.
  exists y, k. split; [exact Hy|]. split; [apply mapM_Some, Hk|reflexivity].
Qed.

(** The members written for the pairs [L0], read back one by one. *)
Lemma members_roundtrip {A B : Type} (enc : A -> option json.tree)
  (dec : json.tree -> option B) (g : A -> B)
  (Q : string -> json.tree -> Prop) (L0 : list (string * A)) :
  forall (members : list (string * json.tree)) (acc : gmap string B),
  mapM (fun kv : string * option json.tree =>
          (fun t => (fst kv, t)) <$> snd kv)
       (prod_map id enc <$> L0) = Some members ->
  Forall (fun kx => forall t, enc (snd kx) = Some t ->
                      Q (fst kx) t /\ dec t = Some (g (snd kx))) L0 ->
  Forall (fun kv => Q (fst kv) (snd kv)) members /\
  foldl (fun (acc : option (gmap string B)) (kv : string * json.tree) =>
           match acc, dec (snd kv) with
           | Some m, Some v => Some (<[fst kv := v]> m)
           | _, _ => None
           end) (Some acc) members
  = Some (foldl (fun m kv => <[fst kv := snd kv]> m) acc
                (prod_map id g <$> L0)).
Proof.
  induction L0 as [|[k x] L0 IH]; intros members acc Hm Hall.
  - injection Hm as <-. split; [constructor|reflexivity].
  - cbn [fmap list_fmap] in Hm.
    apply mapM_cons_Some in Hm as (y & ms & Hy & Hms & ->).
    cbn [prod_map fst snd id] in Hy. unfold id in Hy.
    destruct (enc x) as [t|] eqn:Ht; [|discriminate Hy].
    cbn in Hy. injection Hy as <-.
    inversion Hall as [|? ? Hx Hall']; subst. cbn [fst snd] in Hx.
    destruct (Hx t Ht) as [Hq Hd].
    destruct (IH ms (<[k := g x]> acc) Hms Hall') as [HQ Hfold].
    split; [constructor; [exact Hq|exact HQ]|].
    cbn [foldl fst snd]. rewrite Hd. exact Hfold.
Qed.

(** A map written in the order of its keys and read back member by member,
    each value [x] read as [g x]. *)
Lemma sorted_members_roundtrip {A B : Type} (enc : A -> option json.tree)
  (dec : json.tree -> option B) (g : A -> B)
  (Q : string -> json.tree -> Prop) (m : gmap string A)
  (members : list (string * json.tree)) :
  mapM (fun kv : string * option json.tree =>
          (fun t => (fst kv, t)) <$> snd kv)
       (json.sorted_members (enc <$> m)) = Some members ->
  (forall k x t, m !! k = Some x -> enc x = Some t ->
     Q k t /\ dec t = Some (g x)) ->
  Forall (fun kv => Q (fst kv) (snd kv)) members /\
  foldl (fun (acc : option (gmap string B)) (kv : string * json.tree) =>
           match acc, dec (snd kv) with
           | Some m, Some v => Some (<[fst kv := v]> m)
           | _, _ => None
           end) (Some ∅) members
  = Some (g <$> m).
Proof.
  intros Hm Hall.
  assert (Hperm : json.sorted_members (enc <$> m)
                  ≡ₚ map (prod_map id enc) (map_to_list m)).
  { unfold json.sorted_members. rewrite merge_sort_Permutation.
    rewrite map_to_list_fmap. reflexivity. }
  apply Permutation_map_inv in Hperm as (L0 & HL0 & Hp).
  rewrite HL0 in Hm.
  assert (Hnd : NoDup L0.*1).
  { rewrite <- Hp. apply NoDup_fst_map_to_list. }
  destruct (members_roundtrip enc dec g Q L0 members ∅ Hm) as [HQ Hfold].
  { apply List.Forall_forall. intros [k x] Hin t Ht. cbn [fst snd] in *.
    apply (Hall k x t); [|exact Ht].
    apply elem_of_map_to_list. rewrite Hp. apply list_elem_of_In, Hin. }
  split; [exact HQ|]. rewrite Hfold. f_equal.
  rewrite foldl_insert_list_to_map.
  - rewrite list_to_map_fmap. f_equal.
    rewrite <- (list_to_map_proper _ _ (NoDup_fst_map_to_list m) Hp).
    apply list_to_map_to_list.
  - replace ((prod_map id g <$> L0).*1) with (L0.*1); [exact Hnd|].
    rewrite <- list_fmap_compose. apply list_fmap_ext. intros _ [k x] _.
    reflexivity.
Qed.

Lemma slice_roundtrip (P : json.value -> Prop) (Q : json.tree -> Prop)
  (elems : list json.value) :
  forall ts : list json.tree,
  (forall v t, P v -> json.encode_interface v = Some t ->
     Q t /\ json.decode_interface t = Some v) ->
  Forall P elems ->
  mapM json.encode_interface elems = Some ts ->
  Forall Q ts /\ mapM json.decode_interface ts = Some elems.
Proof.
  intros ts IH Hall. revert ts.
  induction Hall as [|v l Hv Hl IHl]; intros ts Hm.
  - injection Hm as <-. split; [constructor|reflexivity].
  - apply mapM_cons_Some in Hm as (t & k & Ht & Hk & ->).
    destruct (IH v t Hv Ht) as [Hq Hd]. destruct (IHl k Hk) as [HQ HD].
    split; [constructor; assumption|].
    apply mapM_Some. constructor; [exact Hd|apply mapM_Some, HD].
Qed.

(** A value that is written is read back as it was. *)
Lemma interface_roundtrip (n : nat) :
  forall (v : json.value) (t : json.tree),
  value_ok n v -> json.encode_interface v = Some t ->
  tree_wf n t /\ json.decode_interface t = Some v.
Proof.
  induction n as [|n IH]; intros v t Hok Henc;
    destruct v as [|b|f|s|elems|m]; cbn [value_ok] in Hok;
    try contradiction; cbn [json.encode_interface] in Henc.
  1,5: injection Henc as <-; split; [exact I|reflexivity].
  1,4: injection Henc as <-; split; [exact I|reflexivity].
  1,3: destruct (json.floatEncoder f) as [lit|] eqn:Hf; [|discriminate Henc];
       injection Henc as <-;
       destruct (floatEncoder_roundtrip f lit Hf) as [Hlit Hpf];
       split; [exact Hlit|]; cbn [json.decode_interface]; rewrite Hpf;
       reflexivity.
  1,2: injection Henc as <-; split; [exact Hok|reflexivity].
  - destruct (mapM json.encode_interface elems) as [ts|] eqn:Hm;
      [|discriminate Henc].
    injection Henc as <-.
    destruct (slice_roundtrip (value_ok n) (tree_wf n) elems ts IH Hok Hm)
      as [HQ HD].
    split; [exact HQ|]. cbn [json.decode_interface]. rewrite HD. reflexivity.
  - destruct (mapM _ _) as [members|] eqn:Hm; [|discriminate Henc].
    injection Henc as <-.
    destruct (sorted_members_roundtrip json.encode_interface
                json.decode_interface id
                (fun k t => utf8.ValidString k = true /\ tree_wf n t)
                m members Hm) as [HQ HD].
    { intros k x t Hk Ht. destruct (Hok k x Hk) as [Hvk Hvx].
      destruct (IH x t Hvx Ht) as [Hwf Hd]. auto. }
    split; [exact HQ|]. cbn [json.decode_interface]. rewrite HD.
    rewrite map_fmap_id. reflexivity.
Qed.

(** ** Maps and structs *)

Lemma decode_int_encode_int (bitSize n old : Z) :
  bitSize = 32 \/ bitSize = 64 -> in_int bitSize n ->
  json.decode_int bitSize (json.encode_int n) old = Some n.
Proof.
  unfold in_int, json.decode_int, json.encode_int. intros Hb Hn.
  assert (H64 : - 2 ^ (64 - 1) <= n < 2 ^ (64 - 1)).
  { destruct Hb as [->| ->]; [|exact Hn].
    change (2 ^ (32 - 1)) with 2147483648 in Hn.
    change (2 ^ (64 - 1)) with 9223372036854775808. lia. }
  rewrite (ParseInt_FormatInt n 64 H64).
  replace ((- 2 ^ (bitSize - 1) <=? n) && (n <? 2 ^ (bitSize - 1)))
    with true by lia.
  reflexivity.
Qed.

(** A map with string keys that is written is read back, each element [x]
    read as [g x]; the object written nests one deeper than its values. *)
Lemma map_roundtrip {A : Type} (enc : A -> option json.tree) (zero : A)
  (dec : json.tree -> A -> option A) (g : A -> A) (n : nat)
  (m : option (gmap string A)) (t : json.tree) :
  json.encode_map enc m = Some t ->
  (forall c k x tx, m = Some c -> c !! k = Some x -> enc x = Some tx ->
     (utf8.ValidString k = true /\ tree_wf n tx) /\
     dec tx zero = Some (g x)) ->
  tree_wf (S n) t /\
  json.decode_map zero dec t None
  = Some (match m with
          | None => None
          | Some c => Some (g <$> c)
          end).
Proof.
  intros Henc Hall. destruct m as [c|]; cbn [json.encode_map] in Henc.
  - destruct (mapM _ _) as [members|] eqn:Hm; [|discriminate Henc].
    injection Henc as <-.
    destruct (sorted_members_roundtrip enc (fun tx => dec tx zero) g
                (fun k tx => utf8.ValidString k = true /\ tree_wf n tx)
                c members Hm) as [HQ HD].
    { intros k x tx Hk Hx. apply (Hall c k x tx eq_refl Hk Hx). }
    split; [exact HQ|]. cbn [json.decode_map default].
    cbv beta in HD. rewrite HD. reflexivity.
  - injection Henc as <-. split; [exact I|reflexivity].
Qed.

Lemma decode_member_digest (e : ManifestEntry) (s : string) :
  json.decode_member ManifestEntry_decoders (Some e)
    ("digest"%string, json.JString s)
  = Some {| Digest := s; BirthArtifactID := BirthArtifactID e; Ref := Ref e;
            Size := Size e; Extra := Extra e; LocalPath := LocalPath e;
            DownloadURL := DownloadURL e |}.
Proof. reflexivity. Qed.

Lemma decode_member_birthArtifactID (e : ManifestEntry) (p : option string) :
  json.decode_member ManifestEntry_decoders (Some e)
    ("birthArtifactID"%string, json.encode_string_ptr p)
  = Some {| Digest := Digest e; BirthArtifactID := p; Ref := Ref e;
            Size := Size e; Extra := Extra e; LocalPath := LocalPath e;
            DownloadURL := DownloadURL e |}.
Proof. destruct p; reflexivity. Qed.

Lemma decode_member_ref (e : ManifestEntry) (s : string) :
  json.decode_member ManifestEntry_decoders (Some e)
    ("ref"%string, json.JString s)
  = Some {| Digest := Digest e; BirthArtifactID := BirthArtifactID e;
            Ref := Some s; Size := Size e; Extra := Extra e;
            LocalPath := LocalPath e; DownloadURL := DownloadURL e |}.
Proof. reflexivity. Qed.

Lemma decode_member_size (e : ManifestEntry) (n : Z) :
  in_int 64 n ->
  json.decode_member ManifestEntry_decoders (Some e)
    ("size"%string, json.encode_int n)
  = Some {| Digest := Digest e; BirthArtifactID := BirthArtifactID e;
            Ref := Ref e; Size := n; Extra := Extra e;
            LocalPath := LocalPath e; DownloadURL := DownloadURL e |}.
Proof.
  intros Hn.
  change (json.decode_member ManifestEntry_decoders (Some e)
            ("size"%string, json.encode_int n))
    with ((fun v => {| Digest := Digest e;
                       BirthArtifactID := BirthArtifactID e;
                       Ref := Ref e; Size := v; Extra := Extra e;
                       LocalPath := LocalPath e;
                       DownloadURL := DownloadURL e |})
            <$> json.decode_int 64 (json.encode_int n) (Size e)).
  rewrite decode_int_encode_int by auto. reflexivity.
Qed.

Lemma decode_member_extra (e : ManifestEntry) (tx : json.tree)
  (mx : option (gmap string json.value)) :
  json.decode_map json.VNil (fun t _ => json.decode_interface t) tx (Extra e)
  = Some mx ->
  json.decode_member ManifestEntry_decoders (Some e) ("extra"%string, tx)
  = Some {| Digest := Digest e; BirthArtifactID := BirthArtifactID e;
            Ref := Ref e; Size := Size e; Extra := mx;
            LocalPath := LocalPath e; DownloadURL := DownloadURL e |}.
Proof.
  intros H.
  change (json.decode_member ManifestEntry_decoders (Some e)
            ("extra"%string, tx))
    with ((fun v => {| Digest := Digest e;
                       BirthArtifactID := BirthArtifactID e;
                       Ref := Ref e; Size := Size e; Extra := v;
                       LocalPath := LocalPath e;
                       DownloadURL := DownloadURL e |})
            <$> json.decode_map json.VNil
                  (fun t _ => json.decode_interface t) tx (Extra e)).
  rewrite H. reflexivity.
Qed.

(** The members written for [ref] and [extra], the two fields tagged
    [omitempty]. *)
Lemma encode_ManifestEntry_shape (e : ManifestEntry) (t : json.tree) :
  encode_ManifestEntry e = Some t ->
  exists extra_part,
    t = json.JObject
          (("digest"%string, json.JString (Digest e)) ::
           ("birthArtifactID"%string,
            json.encode_string_ptr (BirthArtifactID e)) ::
           match Ref e with
           | None => []
           | Some s => [("ref"%string, json.JString s)]
           end ++
           ("size"%string, json.encode_int (Size e)) :: extra_part) /\
    ((map_is_empty (Extra e) = true /\ extra_part = []) \/
     (map_is_empty (Extra e) = false /\
      exists tx, json.encode_map json.encode_interface (Extra e) = Some tx /\
                 extra_part = [("extra"%string, tx)])).
Proof.
  unfold encode_ManifestEntry, json.encode_struct, ManifestEntry_encoders.
  cbn [json.encode_fields json.fe_encode json.fe_name].
  destruct (map_is_empty (Extra e)) eqn:He.
  - intros H. exists []. split; [|left; auto].
    destruct (Ref e); cbn in H; injection H as <-; reflexivity.
  - destruct (json.encode_map json.encode_interface (Extra e)) as [tx|].
    + intros H. exists [("extra"%string, tx)]. split; [|right; eauto].
      destruct (Ref e); cbn in H; injection H as <-; reflexivity.
    + destruct (Ref e); cbn; discriminate.
Qed.

(** An entry that is written is read back without [LocalPath] and
    [DownloadURL], and with nil for an empty [Extra]. *)
Lemma ManifestEntry_roundtrip (n : nat) (e : ManifestEntry) (t : json.tree) :
  entry_ok n e -> encode_ManifestEntry e = Some t ->
  tree_wf (S (S n)) t /\
  decode_ManifestEntry t zero_ManifestEntry = Some (reread_entry e).
Proof.
  intros (Hd & Hb & Hr & Hs & Hx) Henc.
  destruct (encode_ManifestEntry_shape e t Henc) as (xp & -> & Hxp).
  assert (Hbt : tree_wf (S n) (json.encode_string_ptr (BirthArtifactID e))).
  { destruct (BirthArtifactID e) as [s|] eqn:E; [|exact I].
    apply (Hb s eq_refl). }
  assert (Hxt : Forall (fun kv : string * json.tree =>
                          utf8.ValidString (fst kv) = true /\
                          tree_wf (S n) (snd kv)) xp /\
                foldl (json.decode_member ManifestEntry_decoders)
                  (Some {| Digest := Digest e;
                           BirthArtifactID := BirthArtifactID e;
                           Ref := Ref e; Size := Size e; Extra := None;
                           LocalPath := None; DownloadURL := None |}) xp
                = Some (reread_entry e)).
  { destruct Hxp as [[He ->]|(He & tx & Htx & ->)].
    - split; [constructor|]. unfold reread_entry. rewrite He. reflexivity.
    - destruct (map_roundtrip json.encode_interface json.VNil
                  (fun t _ => json.decode_interface t) id n (Extra e) tx Htx)
        as [Hwf Hdec].
      { intros c k x tx' Hc Hk Henc'. destruct (Hx c Hc k x Hk) as [Hvk Hvx].
        destruct (interface_roundtrip n x tx' Hvx Henc') as [Hw Hdx]. auto. }
      split; [constructor; [split; [reflexivity|exact Hwf]|constructor]|].
      cbn [foldl].
      match goal with
      | |- context [json.decode_member _ (Some ?a) _] =>
        rewrite (decode_member_extra a tx _ Hdec)
      end.
      unfold reread_entry. rewrite He. cbn [Digest BirthArtifactID Ref Size
        Extra LocalPath DownloadURL].
      destruct (Extra e) as [c|]; [|discriminate He].
      rewrite map_fmap_id. reflexivity. }
  destruct Hxt as [Hxwf Hxdec].
  split.
  - cbn [tree_wf]. constructor; [split; [reflexivity|exact Hd]|].
    constructor; [split; [reflexivity|exact Hbt]|].
    apply Forall_app. split.
    + destruct (Ref e) as [s|] eqn:E; [|constructor].
      constructor; [|constructor]. split; [reflexivity|apply (Hr s eq_refl)].
    + constructor; [|exact Hxwf].
      split; [reflexivity|apply FormatInt_literal].
  - unfold decode_ManifestEntry, json.decode_struct.
    cbn [foldl]. rewrite decode_member_digest, decode_member_birthArtifactID.
    rewrite foldl_app.
    assert (Href :
      foldl (json.decode_member ManifestEntry_decoders)
        (Some {| Digest := Digest e; BirthArtifactID := BirthArtifactID e;
                 Ref := None; Size := 0; Extra := None; LocalPath := None;
                 DownloadURL := None |})
        match Ref e with
        | None => []
        | Some s => [("ref"%string, json.JString s)]
        end
      = Some {| Digest := Digest e; BirthArtifactID := BirthArtifactID e;
                Ref := Ref e; Size := 0; Extra := None; LocalPath := None;
                DownloadURL := None |}).
    { destruct (Ref e); reflexivity. }
    cbn [Digest BirthArtifactID Ref Size Extra LocalPath DownloadURL
         zero_ManifestEntry].
    rewrite Href. cbn [foldl]. rewrite (decode_member_size _ _ Hs).
    exact Hxdec.
Qed.

Lemma decode_member_version (m : Manifest) (n : Z) :
  in_int 32 n ->
  json.decode_member Manifest_decoders (Some m)
    ("version"%string, json.encode_int n)
  = Some {| Version := n; StoragePolicy := StoragePolicy m;
            StoragePolicyConfig' := StoragePolicyConfig' m;
            Contents := Contents m |}.
Proof.
  intros Hn.
  change (json.decode_member Manifest_decoders (Some m)
            ("version"%string, json.encode_int n))
    with ((fun v => {| Version := v; StoragePolicy := StoragePolicy m;
                       StoragePolicyConfig' := StoragePolicyConfig' m;
                       Contents := Contents m |})
            <$> json.decode_int 32 (json.encode_int n) (Version m)).
  rewrite decode_int_encode_int by auto. reflexivity.
Qed.

Lemma decode_member_storagePolicy (m : Manifest) (s : string) :
  json.decode_member Manifest_decoders (Some m)
    ("storagePolicy"%string, json.JString s)
  = Some {| Version := Version m; StoragePolicy := s;
            StoragePolicyConfig' := StoragePolicyConfig' m;
            Contents := Contents m |}.
Proof. reflexivity. Qed.

Lemma decode_member_storagePolicyConfig (m : Manifest) (s : string) :
  json.decode_member Manifest_decoders (Some m)
    ("storagePolicyConfig"%string,
     json.JObject [("storageLayout"%string, json.JString s)])
  = Some {| Version := Version m; StoragePolicy := StoragePolicy m;
            StoragePolicyConfig' := {| StorageLayout := s |};
            Contents := Contents m |}.
Proof. reflexivity. Qed.

Lemma decode_member_contents (m : Manifest) (tc : json.tree)
  (c : option (gmap string ManifestEntry)) :
  json.decode_map zero_ManifestEntry decode_ManifestEntry tc (Contents m)
  = Some c ->
  json.decode_member Manifest_decoders (Some m) ("contents"%string, tc)
  = Some {| Version := Version m; StoragePolicy := StoragePolicy m;
            StoragePolicyConfig' := StoragePolicyConfig' m;
            Contents := c |}.
Proof.
  intros H.
  change (json.decode_member Manifest_decoders (Some m)
            ("contents"%string, tc))
    with ((fun v => {| Version := Version m; StoragePolicy := StoragePolicy m;
                       StoragePolicyConfig' := StoragePolicyConfig' m;
                       Contents := v |})
            <$> json.decode_map zero_ManifestEntry decode_ManifestEntry tc
                  (Contents m)).
  rewrite H. reflexivity.
Qed.

(** A manifest that is written is read back as [reread] describes. *)
Lemma Manifest_roundtrip (m : Manifest) (t : json.tree) :
  manifest_ok m -> encode_Manifest m = Some t ->
  tree_wf (S (S (S (S extra_depth)))) t /\
  decode_Manifest t zero_Manifest = Some (reread m).
Proof.
  intros (Hv & Hp & Hl & Hc) Henc.
  destruct (encode_Manifest_shape m t Henc) as (tc & Htc & ->).
  destruct (map_roundtrip encode_ManifestEntry zero_ManifestEntry
              decode_ManifestEntry reread_entry (S (S extra_depth))
              (Contents m) tc Htc) as [Hwf Hdec].
  { intros c k x tx Hcm Hk Hx. destruct (Hc c Hcm k x Hk) as [Hvk Hok].
    destruct (ManifestEntry_roundtrip extra_depth x tx Hok Hx) as [Hw Hd].
    auto. }
  split.
  - cbn [tree_wf].
    constructor; [split; [reflexivity|apply FormatInt_literal]|].
    constructor; [split; [reflexivity|exact Hp]|].
    constructor; [split; [reflexivity|]|].
    { constructor; [|constructor]. split; [reflexivity|exact Hl]. }
    constructor; [|constructor]. split; [reflexivity|exact Hwf].
  - unfold decode_Manifest, json.decode_struct. cbn [foldl].
    rewrite (decode_member_version _ _ Hv), decode_member_storagePolicy,
      decode_member_storagePolicyConfig.
    match goal with
    | |- context [json.decode_member _ (Some ?a) _] =>
      rewrite (decode_member_contents a tc _ Hdec)
    end.
    unfold reread. destruct (StoragePolicyConfig' m). reflexivity.
Qed.

(** [Unmarshal] of what [Marshal] wrote. *)
Lemma Unmarshal_Marshal_Manifest (m : Manifest) (data : list byte) :
  manifest_ok m -> json.Marshal encode_Manifest m = (data, None) ->
  json.Unmarshal decode_Manifest data zero_Manifest = inl (reread m).
Proof.
  intros Hok. unfold json.Marshal, json.Unmarshal.
  destruct (encode_Manifest m) as [t|] eqn:Henc; [|discriminate].
  intros H. injection H as <-.
  destruct (Manifest_roundtrip m t Hok Henc) as [Hwf Hdec].
  rewrite (parse_render _ t Hwf), Hdec; [reflexivity|].
  unfold extra_depth, json.maxNestingDepth. lia.
Qed.

Lemma WriteToFile_written (m : Manifest) (w w' : os.state)
  (filename digest : string) :
  WriteToFile m w = (filename, digest, None, w') ->
  exists data,
    json.Marshal encode_Manifest m = (data, None) /\
    os.files w' !! filename = Some data.
Proof.
  unfold WriteToFile. intros H.
  destruct (json.Marshal encode_Manifest m) as [data [rerr|]]; [discriminate|].
  destruct (os.CreateTemp "tmpfile-" w) as [[f|rerr] w1] eqn:Hc; [|discriminate].
  destruct (os.Write f data w1) as [[n [rerr|]] w2] eqn:Hw; [discriminate|].
  unfold utils.ComputeB64MD5 in H. injection H as <- <- <-.
  exists data. split; [reflexivity|].
  apply Write_ok in Hw. rewrite (CreateTemp_inl _ _ _ _ Hc) in Hw. exact Hw.
Qed.

(** * The round trip through the file *)

Lemma in_int_small (bitSize n : Z) :
  bitSize = 32 \/ bitSize = 64 -> - 2147483648 <= n < 2147483648 ->
  in_int bitSize n.
Proof.
  unfold in_int. intros [->| ->] Hn.
  - change (2 ^ (32 - 1)) with 2147483648. exact Hn.
  - change (2 ^ (64 - 1)) with 9223372036854775808. lia.
Qed.

Lemma entry_model_pt_ok (n : nat) : entry_ok n entry_model_pt.
Proof.
  unfold entry_ok, entry_model_pt, valid_ptr.
  cbn [Digest BirthArtifactID Ref Size Extra].
  split; [reflexivity|]. split; [discriminate|]. split; [discriminate|].
  split; [apply in_int_small; [auto|lia]|].
  intros extra [= <-]. apply map_Forall_empty.
Qed.

Lemma entry_x_csv_ok : entry_ok extra_depth entry_x_csv.
Proof.
  unfold entry_ok, entry_x_csv, valid_ptr.
  cbn [Digest BirthArtifactID Ref Size Extra].
  split; [reflexivity|].
  split; [intros s [= <-]; reflexivity|].
  split; [intros s [= <-]; reflexivity|].
  split; [apply in_int_small; [auto|lia]|].
  intros extra [= <-]. apply map_Forall_singleton. split; [reflexivity|].
  assert (E : extra_depth = S (Z.to_nat 9995))
    by (unfold extra_depth, json.maxNestingDepth; lia).
  rewrite E. cbn [value_ok]. repeat constructor.
Qed.

Lemma manifest_sample_ok : manifest_ok manifest_sample.
Proof.
  unfold manifest_ok, manifest_sample.
  cbn [Version StoragePolicy StoragePolicyConfig' StorageLayout Contents].
  split; [apply in_int_small; [auto|lia]|].
  split; [reflexivity|]. split; [reflexivity|].
  intros contents [= <-]. apply map_Forall_insert_2.
  - split; [reflexivity|apply entry_x_csv_ok].
  - apply map_Forall_singleton. split; [reflexivity|apply entry_model_pt_ok].
Qed.

(** [reread] and the claim's expectation differ in one thing only: they
    agree on every manifest none of whose entries holds an empty [Extra]
    that is not nil. *)
Lemma reread_entry_forget_local (e : ManifestEntry) :
  Extra e <> Some ∅ -> reread_entry e = forget_local e.
Proof.
  intros He. unfold reread_entry, forget_local. f_equal.
  destruct (Extra e) as [x|]; [|reflexivity]. cbn [map_is_empty].
  destruct (bool_decide_reflect (x = ∅)) as [->|_]; [|reflexivity].
  destruct (He eq_refl).
Qed.

Lemma reread_forget_locals (m : Manifest) :
  (forall c path e, Contents m = Some c -> c !! path = Some e ->
     Extra e <> Some ∅) ->
  reread m = forget_locals m.
Proof.
  intros H. unfold reread, forget_locals. f_equal.
  destruct (Contents m) as [c|]; [|reflexivity]. f_equal.
  apply map_fmap_ext. intros path e He.
  apply reread_entry_forget_local, (H c path e eq_refl He).
Qed.

(** C3, as stated, fails at two manifests. The manifest of the
    specification's scenario, whose entry holds the empty [Extra] that
    [NewManifestFromProto] made, is written without [extra] and read back
    with a nil [Extra]. A manifest whose [StoragePolicy] is no UTF-8 is
    written with U+FFFD for the offending byte and read back with it. Both
    writes succeed, and what is read back is not the manifest without
    [LocalPath] and [DownloadURL]. *)
Lemma WriteToFile_roundtrip_is_not_exact :
  (snd (fst (WriteToFile manifest_model_pt world0)) = None /\
   json.Unmarshal decode_Manifest
     (written (WriteToFile manifest_model_pt world0)) zero_Manifest
   = inl (reread manifest_model_pt) /\
   reread manifest_model_pt <> forget_locals manifest_model_pt) /\
  (snd (fst (WriteToFile manifest_latin1 world0)) = None /\
   json.Unmarshal decode_Manifest
     (written (WriteToFile manifest_latin1 world0)) zero_Manifest
   = inl manifest_replaced /\
   manifest_replaced <> forget_locals manifest_latin1).
Proof.
  split; (split; [vm_compute; reflexivity|]);
    (split; [vm_compute; reflexivity|]); intros H.
  - apply (f_equal (fun m => match Contents m with
                             | Some c => c !! "model.pt"%string ≫= Extra
                             | None => None
                             end)) in H.
    vm_compute in H. discriminate H.
  - apply (f_equal StoragePolicy) in H. vm_compute in H. discriminate H.
Qed.

(** C3, amended. When [WriteToFile] succeeds on a manifest whose written
    strings are valid UTF-8, whose integers fit their types and whose
    [Extra] values nest no deeper than the decoder reads, the file it names
    holds a text that [json.Unmarshal] reads, into an empty [Manifest], as
    the manifest with every [LocalPath] and [DownloadURL] nil and every empty
    [Extra] nil. *)
Theorem WriteToFile_roundtrip
  (m : Manifest) (w w' : os.state) (filename digest : string) :
  manifest_ok m ->
  WriteToFile m w = (filename, digest, None, w') ->
  exists data,
    os.files w' !! filename = Some data /\
    json.Unmarshal decode_Manifest data zero_Manifest = inl (reread m).
Proof.
  intros Hok H.
  destruct (WriteToFile_written m w w' filename digest H)
    as (data & Hdata & Hfile).
  exists data. split; [exact Hfile|].
  apply Unmarshal_Marshal_Manifest; assumption.
Qed.

Lemma WriteToFile_roundtrip_witness :
  exists data,
    os.files (snd (WriteToFile manifest_sample world0)) !! "/tmp/tmpfile-4242"
    = Some data /\
    json.Unmarshal decode_Manifest data zero_Manifest
    = inl (reread manifest_sample).
Proof.
  apply (WriteToFile_roundtrip manifest_sample world0
           (snd (WriteToFile manifest_sample world0))
           "/tmp/tmpfile-4242" "3lFtcYOGONsRtdvcIsYzxg==").
  - exact manifest_sample_ok.
  - vm_compute. reflexivity.
Defined.

(** * More of the Proto Converter *)

(** X1. The paths of a converted manifest are exactly the paths of the
    wire-format entries. *)
Theorem NewManifestFromProto_paths
  (proto : service.ArtifactManifest) (m : Manifest) (path : string) :
  NewManifestFromProto proto = (m, None) ->
  is_Some (default ∅ (Contents m) !! path) <->
  exists entry,
    In entry (service.Contents proto) /\ service.Path entry = path.
Proof.
  intros H. apply NewManifestFromProto_inv in H as (c & Hc & ->).
  cbn [Contents default]. rewrite (contents_of_entries_dom _ _ _ path Hc).
  rewrite lookup_empty. split; [|auto].
  intros [[x Hx]|Hex]; [discriminate Hx|exact Hex].
Qed.

Lemma NewManifestFromProto_paths_witness :
  is_Some (default ∅ (Contents manifest_two) !! "data/x.csv") <->
  exists entry,
    In entry (service.Contents proto_two) /\
    service.Path entry = "data/x.csv"%string.
Proof.
  apply (NewManifestFromProto_paths proto_two manifest_two "data/x.csv").
  vm_compute. reflexivity.
Defined.

(** X2. The head of a converted manifest: the version and the storage policy
    of the wire format, the storage layout [V2], and a map of contents that
    is not nil, also when there are no entries. *)
Theorem NewManifestFromProto_header
  (proto : service.ArtifactManifest) (m : Manifest) :
  NewManifestFromProto proto = (m, None) ->
  Version m = service.Version proto /\
  StoragePolicy m = service.StoragePolicy proto /\
  StoragePolicyConfig' m = {| StorageLayout := "V2" |} /\
  Contents m <> None /\
  (service.Contents proto = [] -> Contents m = Some ∅).
Proof.
  intros H. apply NewManifestFromProto_inv in H as (c & Hc & ->).
  cbn [Version StoragePolicy StoragePolicyConfig' Contents].
  repeat split; [discriminate|].
  intros Hnil. rewrite Hnil in Hc. injection Hc as <-. reflexivity.
Qed.

Lemma NewManifestFromProto_header_witness :
  Version manifest_two = service.Version proto_two /\
  StoragePolicy manifest_two = service.StoragePolicy proto_two /\
  StoragePolicyConfig' manifest_two = {| StorageLayout := "V2" |} /\
  Contents manifest_two <> None /\
  (service.Contents proto_two = [] -> Contents manifest_two = Some ∅).
Proof.
  apply (NewManifestFromProto_header proto_two manifest_two).
  vm_compute. reflexivity.
Defined.

(** X3. Every entry of a converted manifest has the digest and the size of
    a wire-format entry of its path, an [Extra] that is not nil, and no
    [DownloadURL]. *)
Theorem NewManifestFromProto_entry_fields
  (proto : service.ArtifactManifest) (m : Manifest)
  (contents : gmap string ManifestEntry) (path : string) (me : ManifestEntry) :
  NewManifestFromProto proto = (m, None) ->
  Contents m = Some contents ->
  contents !! path = Some me ->
  exists entry,
    In entry (service.Contents proto) /\ service.Path entry = path /\
    Digest me = service.Digest entry /\ Size me = service.Size entry /\
    Extra me <> None /\ DownloadURL me = None.
Proof.
  intros H Hc Hl. apply NewManifestFromProto_inv in H as (c & Hce & ->).
  cbn [Contents] in Hc. injection Hc as ->.
  destruct (contents_of_entries_origin _ _ _ _ _ Hce Hl)
    as [Hacc|(entry & extra & Hin & Hp & _ & ->)].
  - rewrite lookup_empty in Hacc. discriminate Hacc.
  - exists entry. cbn [entry_of_proto Digest Size Extra DownloadURL].
    repeat split; [exact Hin|exact Hp|discriminate].
Qed.

Lemma NewManifestFromProto_entry_fields_witness :
  exists entry,
    In entry (service.Contents proto_model_pt) /\
    service.Path entry = "model.pt"%string /\
    Digest entry_model_pt = service.Digest entry /\
    Size entry_model_pt = service.Size entry /\
    Extra entry_model_pt <> None /\ DownloadURL entry_model_pt = None.
Proof.
  apply (NewManifestFromProto_entry_fields proto_model_pt manifest_model_pt
           {[ "model.pt" := entry_model_pt ]} "model.pt" entry_model_pt).
  - vm_compute. reflexivity.
  - reflexivity.
  - vm_compute. reflexivity.
Defined.

Lemma extra_of_items_app (l1 l2 : list service.ExtraItem) :
  forall acc,
  extra_of_items (l1 ++ l2) acc =
  match extra_of_items l1 acc with
  | inl x => extra_of_items l2 x
  | inr e => inr e
  end.
Proof.
  induction l1 as [|item l1 IH]; intros acc; simpl; [reflexivity|].
  destruct (json.Unmarshal _ _ _); [apply IH|reflexivity].
Qed.

Lemma extra_of_items_other (items : list service.ExtraItem) :
  forall (acc extra : gmap string json.value) (key : string),
  extra_of_items items acc = inl extra ->
  Forall (fun i => service.Key i <> key) items ->
  extra !! key = acc !! key.
Proof.
  induction items as [|item items IH]; intros acc extra key H Hall;
    simpl in H.
  - congruence.
  - inversion Hall as [|? ? Hne Hrest]; subst.
    destruct (json.Unmarshal _ _ _) as [v|]; [|discriminate].
    rewrite (IH _ _ _ H Hrest). apply lookup_insert_ne. exact Hne.
Qed.

Lemma extra_of_items_last (before after : list service.ExtraItem)
  (item : service.ExtraItem) (extra : gmap string json.value) :
  extra_of_items (before ++ item :: after) ∅ = inl extra ->
  (forall later, In later after -> service.Key later <> service.Key item) ->
  exists value,
    json.Unmarshal (fun t _ => json.decode_interface t)
      (bytes_of (service.ValueJson item)) json.VNil = inl value /\
    extra !! service.Key item = Some value.
Proof.
  intros H Hlast. rewrite extra_of_items_app in H.
  destruct (extra_of_items before ∅) as [x0|]; [|discriminate].
  simpl in H.
  destruct (json.Unmarshal _ _ _) as [value|]; [|discriminate].
  exists value. split; [reflexivity|].
  rewrite (extra_of_items_other _ _ _ (service.Key item) H).
  - apply lookup_insert_eq.
  - apply List.Forall_forall. exact Hlast.
Qed.

(** X4. The [Extra] of a converted entry: its keys are the keys of the wire
    entry's items, and under the key of an item it holds what
    [json.Unmarshal] read from the [ValueJson] of the last item with that
    key. *)
Theorem NewManifestFromProto_extra_values
  (proto : service.ArtifactManifest) (m : Manifest)
  (contents : gmap string ManifestEntry)
  (before after : list service.ArtifactManifestEntry)
  (entry : service.ArtifactManifestEntry)
  (ibefore iafter : list service.ExtraItem) (item : service.ExtraItem) :
  NewManifestFromProto proto = (m, None) ->
  Contents m = Some contents ->
  service.Contents proto = before ++ entry :: after ->
  (forall later, In later after -> service.Path later <> service.Path entry) ->
  service.Extra entry = ibefore ++ item :: iafter ->
  (forall later, In later iafter -> service.Key later <> service.Key item) ->
  exists me extra value,
    contents !! service.Path entry = Some me /\
    Extra me = Some extra /\
    json.Unmarshal (fun t _ => json.decode_interface t)
      (bytes_of (service.ValueJson item)) json.VNil = inl value /\
    extra !! service.Key item = Some value /\
    (forall key, is_Some (extra !! key) <->
       exists i, In i (service.Extra entry) /\ service.Key i = key).
Proof.
  intros H Hc Hsplit Hlast Hitems Hilast.
  destruct (contents_of_entries_last _ _ _ _ _ _ H Hc Hsplit Hlast)
    as (extra & Hx & Hl).
  pose proof Hx as Hx'. rewrite Hitems in Hx'.
  destruct (extra_of_items_last _ _ _ _ Hx' Hilast) as (value & Hv & Hk).
  exists (entry_of_proto entry extra), extra, value.
  split; [exact Hl|]. split; [reflexivity|]. split; [exact Hv|].
  split; [exact Hk|]. intros key.
  rewrite (extra_of_items_dom _ _ _ key Hx), lookup_empty. split; [|auto].
  intros [[x Hn]|Hex]; [discriminate Hn|exact Hex].
Qed.

Lemma NewManifestFromProto_extra_values_witness :
  exists me extra value,
    contents_two !! "data/x.csv" = Some me /\
    Extra me = Some extra /\
    json.Unmarshal (fun t _ => json.decode_interface t)
      (bytes_of "true") json.VNil = inl value /\
    extra !! "etag" = Some value /\
    (forall key, is_Some (extra !! key) <->
       exists i, In i (service.Extra (wire_ref "d2")) /\ service.Key i = key).
Proof.
  apply (NewManifestFromProto_extra_values proto_two manifest_two contents_two
           [wire_ref "d1"; wire_model_pt] [] (wire_ref "d2")
           [ {| service.Key := "versionID";
                service.ValueJson := "[1,2.5,null]" |} ] []
           {| service.Key := "etag"; service.ValueJson := "true" |}).
  - vm_compute. reflexivity.
  - vm_compute. reflexivity.
  - reflexivity.
  - intros later [].
  - reflexivity.
  - intros later [].
Defined.

Lemma Unmarshal_error_kind {A : Type} (dec : json.tree -> A -> option A)
  (data : list byte) (v : A) (e : error) :
  json.Unmarshal dec data v = inr e ->
  e = SyntaxError \/ e = UnmarshalTypeError.
Proof.
  unfold json.Unmarshal. destruct (json.parse data) as [t|].
  - destruct (dec t v); [discriminate|]. intros [= <-]. auto.
  - intros [= <-]. auto.
Qed.

Lemma extra_of_items_inr_cause (items : list service.ExtraItem) :
  forall acc err, extra_of_items items acc = inr err ->
  exists item e,
    In item items /\
    json.Unmarshal (fun t _ => json.decode_interface t)
      (bytes_of (service.ValueJson item)) json.VNil = inr e /\
    err = fmt.Errorf_w "manifest entry extra json.Unmarshal: " e.
Proof.
  induction items as [|item items IH]; intros acc err H; simpl in H.
  - discriminate.
  - destruct (json.Unmarshal _ _ _) as [v|e] eqn:Hu.
    + destruct (IH _ _ H) as (i & e & Hin & Hi & ->).
      exists i, e. split; [right; exact Hin|auto].
    + injection H as <-. exists item, e. split; [left; reflexivity|auto].
Qed.

Lemma contents_of_entries_inr_cause
  (entries : list service.ArtifactManifestEntry) :
  forall acc err, contents_of_entries entries acc = inr err ->
  exists entry item e,
    In entry entries /\ In item (service.Extra entry) /\
    json.Unmarshal (fun t _ => json.decode_interface t)
      (bytes_of (service.ValueJson item)) json.VNil = inr e /\
    err = fmt.Errorf_w "manifest entry extra json.Unmarshal: " e.
Proof.
  induction entries as [|entry entries IH]; intros acc err H; simpl in H.
  - discriminate.
  - destruct (extra_of_items _ _) as [extra|e0] eqn:Hx.
    + destruct (IH _ _ H) as (en & i & e & Hin & Hi & Hu & ->).
      exists en, i, e. split; [right; exact Hin|auto].
    + injection H as <-.
      destruct (extra_of_items_inr_cause _ _ _ Hx) as (i & e & Hi & Hu & ->).
      exists entry, i, e. split; [left; reflexivity|auto].
Qed.

(** X5. Whenever the conversion returns an error, the manifest returned is
    empty, and the error wraps the error [json.Unmarshal] gave for the
    [ValueJson] of one of the items, a syntax error or a value that does
    not fit, under a text that starts with
    [manifest entry extra json.Unmarshal: ]. *)
Theorem NewManifestFromProto_error_cause
  (proto : service.ArtifactManifest) (m : Manifest) (err : error) :
  NewManifestFromProto proto = (m, Some err) ->
  m = zero_Manifest /\
  exists entry item e,
    In entry (service.Contents proto) /\ In item (service.Extra entry) /\
    json.Unmarshal (fun t _ => json.decode_interface t)
      (bytes_of (service.ValueJson item)) json.VNil = inr e /\
    (e = SyntaxError \/ e = UnmarshalTypeError) /\
    err = wrapError ("manifest entry extra json.Unmarshal: " +:+ Error e) e.
Proof.
  unfold NewManifestFromProto.
  destruct (contents_of_entries _ _) as [c|e0] eqn:Hc; [discriminate|].
  intros H. injection H as <- <-. split; [reflexivity|].
  destruct (contents_of_entries_inr_cause _ _ _ Hc)
    as (entry & item & e & Hin & Hi & Hu & ->).
  exists entry, item, e. repeat split; auto.
  apply (Unmarshal_error_kind _ _ _ _ Hu).
Qed.

Lemma NewManifestFromProto_error_cause_witness :
  zero_Manifest = zero_Manifest /\
  exists entry item e,
    In entry (service.Contents proto_bad) /\ In item (service.Extra entry) /\
    json.Unmarshal (fun t _ => json.decode_interface t)
      (bytes_of (service.ValueJson item)) json.VNil = inr e /\
    (e = SyntaxError \/ e = UnmarshalTypeError) /\
    wrapError "manifest entry extra json.Unmarshal: json: syntax error"
              SyntaxError
    = wrapError ("manifest entry extra json.Unmarshal: " +:+ Error e) e.
Proof.
  apply (NewManifestFromProto_error_cause proto_bad zero_Manifest
           (wrapError "manifest entry extra json.Unmarshal: json: syntax error"
                      SyntaxError)).
  vm_compute. reflexivity.
Defined.

(** X6. The conversion stops at the first item that does not read, in the
    order of the entries and of their items: its error is the one returned,
    whatever follows. *)
Theorem NewManifestFromProto_first_failure
  (proto : service.ArtifactManifest)
  (before after : list service.ArtifactManifestEntry)
  (entry : service.ArtifactManifestEntry)
  (ibefore iafter : list service.ExtraItem) (item : service.ExtraItem)
  (e : error) :
  service.Contents proto = before ++ entry :: after ->
  (forall earlier i, In earlier before -> In i (service.Extra earlier) ->
     item_reads i) ->
  service.Extra entry = ibefore ++ item :: iafter ->
  (forall i, In i ibefore -> item_reads i) ->
  json.Unmarshal (fun t _ => json.decode_interface t)
    (bytes_of (service.ValueJson item)) json.VNil = inr e ->
  NewManifestFromProto proto
  = (zero_Manifest,
     Some (fmt.Errorf_w "manifest entry extra json.Unmarshal: " e)).
Proof.
  intros Hsplit Hbefore Hitems Hibefore Hu. unfold NewManifestFromProto.
  rewrite Hsplit, contents_of_entries_app.
  destruct (contents_of_entries_reads before ∅) as [c0 ->].
  { apply List.Forall_forall. intros en Hen. apply List.Forall_forall.
    intros i Hi. apply (Hbefore en i Hen Hi). }
  simpl. rewrite Hitems, extra_of_items_app.
  destruct (extra_of_items_reads ibefore ∅) as [x0 ->].
  { apply List.Forall_forall. exact Hibefore. }
  simpl. rewrite Hu. reflexivity.
Qed.

Lemma NewManifestFromProto_first_failure_witness :
  NewManifestFromProto proto_bad
  = (zero_Manifest,
     Some (fmt.Errorf_w "manifest entry extra json.Unmarshal: " SyntaxError)).
Proof.
  apply (NewManifestFromProto_first_failure proto_bad [wire_model_pt] []
           wire_bad [] []
           {| service.Key := "k"; service.ValueJson := "{oops" |}).
  - reflexivity.
  - intros earlier i [<-|[]] [].
  - reflexivity.
  - intros i [].
  - vm_compute. reflexivity.
Defined.

(** X7. Conversion, then lookup: in a converted manifest the lookup of a
    path succeeds exactly when a wire-format entry has that path. *)
Theorem NewManifestFromProto_then_lookup
  (proto : service.ArtifactManifest) (m : Manifest) (path : string) :
  NewManifestFromProto proto = (m, None) ->
  snd (GetManifestEntryFromArtifactFilePath m path) = None <->
  exists entry,
    In entry (service.Contents proto) /\ service.Path entry = path.
Proof.
  intros H. apply NewManifestFromProto_inv in H as (c & Hc & ->).
  unfold GetManifestEntryFromArtifactFilePath. cbn [Contents].
  change (default ∅ (Some c)) with c. cbv zeta.
  pose proof (contents_of_entries_dom _ _ _ path Hc) as Hdom.
  rewrite lookup_empty in Hdom.
  destruct (c !! path) as [me|]; cbn [snd]; split.
  - intros _. destruct Hdom as [[[x Hx]|Hex] _]; eauto. discriminate Hx.
  - reflexivity.
  - discriminate.
  - intros Hex. destruct Hdom as [_ [x Hx]]; [auto|discriminate Hx].
Qed.

Lemma NewManifestFromProto_then_lookup_witness :
  snd (GetManifestEntryFromArtifactFilePath manifest_two "model.pt") = None <->
  exists entry,
    In entry (service.Contents proto_two) /\
    service.Path entry = "model.pt"%string.
Proof.
  apply (NewManifestFromProto_then_lookup proto_two manifest_two "model.pt").
  vm_compute. reflexivity.
Defined.

(** * More of the Persistence Writer *)

Lemma create_attempts_spec (tries : nat) (pattern : string) :
  forall (w w1 : os.state) (r : os.File + error),
  os.create_attempts tries pattern w = (r, w1) ->
  os.write_fault w1 = os.write_fault w /\
  match r with
  | inl f =>
    os.files w !! os.Name f = None /\
    os.files w1 = <[os.Name f := []]> (os.files w) /\
    os.handles w1 = os.Name f :: os.handles w /\
    exists n, os.Name f
              = os.tmpdir w +:+ "/" +:+ pattern
                +:+ string_of_list_byte (strconv.FormatInt n)
  | inr e => os.files w1 = os.files w /\ os.handles w1 = os.handles w
  end.
Proof.
  induction tries as [|tries IH]; intros w w1 r H;
    cbn [os.create_attempts] in H.
  - injection H as <- <-. auto.
  - destruct (os.open_fault w) as [e|].
    + injection H as <- <-. cbn. auto.
    + destruct (os.files w !! os.temp_name w pattern) eqn:Hl.
      * apply IH in H. exact H.
      * injection H as <- <-.
        cbn [os.write_fault os.with_handles os.with_files os.with_drawn
             os.files os.handles os.Name].
        repeat split; [exact Hl|]. eexists. reflexivity.
Qed.

Lemma CreateTemp_spec (pattern : string) (w w1 : os.state)
  (r : os.File + error) :
  os.CreateTemp pattern w = (r, w1) ->
  os.write_fault w1 = os.write_fault w /\
  match r with
  | inl f =>
    os.files w !! os.Name f = None /\
    os.files w1 = <[os.Name f := []]> (os.files w) /\
    os.handles w1 = os.Name f :: os.handles w /\
    exists n, os.Name f
              = os.tmpdir w +:+ "/" +:+ pattern
                +:+ string_of_list_byte (strconv.FormatInt n)
  | inr e => os.files w1 = os.files w /\ os.handles w1 = os.handles w
  end.
Proof. unfold os.CreateTemp. apply create_attempts_spec. Qed.

Lemma Write_spec (f : os.File) (b : list byte) (w w2 : os.state) (n : Z)
  (rerr : option error) :
  os.Write f b w = (n, rerr, w2) ->
  os.handles w2 = os.handles w /\
  exists content,
    os.files w2 = <[os.Name f := content]> (os.files w) /\
    match rerr with
    | None => content = default [] (os.files w !! os.Name f) ++ b
    | Some e =>
      exists k, os.write_fault w = Some (k, e) /\ (k < length b)%nat /\
                content = default [] (os.files w !! os.Name f) ++ firstn k b
    end.
Proof.
  unfold os.Write. intros H.
  destruct (os.write_fault w) as [[k e]|].
  - destruct (k <? length b)%nat eqn:Hk; injection H as <- <- <-;
      (split; [reflexivity|]); eexists; (split; [reflexivity|]).
    + exists k. apply Nat.ltb_lt in Hk. auto.
    + reflexivity.
  - injection H as <- <- <-. split; [reflexivity|]. eexists.
    split; reflexivity.
Qed.

Lemma Close_handles (f : os.File) (w : os.state) (h : string) :
  In h (os.handles (os.Close f w)) <-> In h (os.handles w) /\ h <> os.Name f.
Proof.
  unfold os.Close. cbn [os.handles os.with_handles].
  rewrite filter_In, negb_true_iff. split; intros [Hin Hne]; (split; [exact Hin|]).
  - intros ->. rewrite String.eqb_refl in Hne. discriminate Hne.
  - apply String.eqb_neq. exact Hne.
Qed.

(** The three ways [WriteToFile] ends, with what each leaves behind. *)
Lemma WriteToFile_cases (m : Manifest) (w w' : os.state)
  (filename digest : string) (rerr : option error) :
  WriteToFile m w = (filename, digest, rerr, w') ->
  (json.Marshal encode_Manifest m = ([], Some UnsupportedValueError) /\
   rerr = Some UnsupportedValueError /\ w' = w) \/
  (exists data e,
     json.Marshal encode_Manifest m = (data, None) /\
     os.CreateTemp "tmpfile-" w = (inr e, w') /\ rerr = Some e) \/
  (exists data f w1 n w2,
     json.Marshal encode_Manifest m = (data, None) /\
     os.CreateTemp "tmpfile-" w = (inl f, w1) /\
     os.Write f data w1 = (n, rerr, w2) /\ w' = os.Close f w2 /\
     (rerr = None -> filename = os.Name f)).
Proof.
  unfold WriteToFile. intros H.
  destruct (json.Marshal encode_Manifest m) as [data [e|]] eqn:Hm.
  - injection H as <- <- <- <-. left.
    unfold json.Marshal in Hm. destruct (encode_Manifest m); [discriminate|].
    injection Hm as <- <-. auto.
  - right.
    destruct (os.CreateTemp "tmpfile-" w) as [[f|e] w1] eqn:Hc.
    + right. destruct (os.Write f data w1) as [[n [e|]] w2] eqn:Hw.
      * injection H as <- <- <- <-. exists data, f, w1, n, w2.
        repeat split; auto. discriminate.
      * unfold utils.ComputeB64MD5 in H. injection H as <- <- <- <-.
        exists data, f, w1, n, w2. repeat split; auto.
    + left. injection H as <- <- <- <-. eauto.
Qed.

Lemma WriteToFile_frame (m : Manifest) (w w' : os.state)
  (filename digest : string) (rerr : option error) :
  WriteToFile m w = (filename, digest, rerr, w') ->
  (forall p d, os.files w !! p = Some d -> os.files w' !! p = Some d) /\
  (forall h, In h (os.handles w') -> In h (os.handles w)).
Proof.
  intros H.
  destruct (WriteToFile_cases _ _ _ _ _ _ H)
    as [(_ & _ & ->)|[(data & e & _ & Hc & _)
                     |(data & f & w1 & n & w2 & _ & Hc & Hw & -> & _)]].
  - auto.
  - destruct (CreateTemp_spec _ _ _ _ Hc) as (_ & Hf & Hh).
    rewrite Hf, Hh. auto.
  - destruct (CreateTemp_spec _ _ _ _ Hc) as (_ & Hnone & Hf & Hh & _).
    destruct (Write_spec _ _ _ _ _ _ Hw) as (Hh2 & content & Hf2 & _).
    split.
    + intros p d Hp. unfold os.Close. cbn [os.files os.with_handles].
      rewrite Hf2, Hf.
      assert (Hne : os.Name f <> p) by (intros <-; congruence).
      rewrite !lookup_insert_ne by exact Hne. exact Hp.
    + intros h Hin. apply Close_handles in Hin as [Hin Hne].
      rewrite Hh2, Hh in Hin. destruct Hin as [Heq|Hin]; [congruence|exact Hin].
Qed.

Lemma WriteToFile_fresh (m : Manifest) (w w' : os.state)
  (filename digest : string) :
  WriteToFile m w = (filename, digest, None, w') ->
  os.files w !! filename = None /\
  (exists n, filename
             = os.tmpdir w +:+ "/" +:+ "tmpfile-"
               +:+ string_of_list_byte (strconv.FormatInt n)) /\
  ~ In filename (os.handles w').
Proof.
  intros H.
  destruct (WriteToFile_cases _ _ _ _ _ _ H)
    as [(_ & He & _)|[(data & e & _ & _ & He)
                     |(data & f & w1 & n & w2 & _ & Hc & Hw & -> & Hn)]];
    try discriminate He.
  rewrite (Hn eq_refl).
  destruct (CreateTemp_spec _ _ _ _ Hc) as (_ & Hnone & _ & _ & Hname).
  split; [exact Hnone|]. split; [exact Hname|].
  intros Hin. apply Close_handles in Hin as [_ Hne]. apply Hne. reflexivity.
Qed.

(** X8. Whatever its outcome, [WriteToFile] leaves every file that existed
    before as it was: the only file it writes is the temporary file it
    created. *)
Theorem WriteToFile_keeps_existing_files
  (m : Manifest) (w w' : os.state) (filename digest : string)
  (rerr : option error) (p : string) (d : list byte) :
  WriteToFile m w = (filename, digest, rerr, w') ->
  os.files w !! p = Some d ->
  os.files w' !! p = Some d.
Proof.
  intros H. apply (WriteToFile_frame _ _ _ _ _ _ H).
Qed.

Lemma WriteToFile_keeps_existing_files_witness :
  os.files (snd (WriteToFile manifest_sample
                   (os.with_files world_full
                      {[ "/tmp/notes.txt" := bytes_of "keep" ]})))
    !! "/tmp/notes.txt" = Some (bytes_of "keep").
Proof.
  apply (WriteToFile_keeps_existing_files manifest_sample
           (os.with_files world_full {[ "/tmp/notes.txt" := bytes_of "keep" ]})
           _ "" "" (Some enospc)).
  - vm_compute. reflexivity.
  - vm_compute. reflexivity.
Defined.

(** X9. The deferred [f.Close()]: on every return path the files open
    afterwards are among those open before; the temporary file is not left
    open. *)
Theorem WriteToFile_leaves_no_file_open
  (m : Manifest) (w w' : os.state) (filename digest : string)
  (rerr : option error) :
  WriteToFile m w = (filename, digest, rerr, w') ->
  incl (os.handles w') (os.handles w).
Proof.
  intros H h. apply (WriteToFile_frame _ _ _ _ _ _ H).
Qed.

Lemma WriteToFile_leaves_no_file_open_witness :
  incl (os.handles (snd (WriteToFile manifest_sample world_busy)))
       (os.handles world_busy).
Proof.
  apply (WriteToFile_leaves_no_file_open manifest_sample world_busy
           _ "" "" (Some enospc)).
  vm_compute. reflexivity.
Defined.

(** X10. A write that the device cuts short: [WriteToFile] returns the
    error of [f.Write] with no name and no digest, the temporary file stays
    behind holding the bytes that were taken, and it is closed. *)
Theorem WriteToFile_partial_write
  (m : Manifest) (w w1 : os.state) (data : list byte) (f : os.File)
  (k : nat) (e : error) :
  json.Marshal encode_Manifest m = (data, None) ->
  os.CreateTemp "tmpfile-" w = (inl f, w1) ->
  os.write_fault w = Some (k, e) ->
  (k < length data)%nat ->
  exists w',
    WriteToFile m w = ("", "", Some e, w') /\
    os.files w' !! os.Name f = Some (firstn k data) /\
    ~ In (os.Name f) (os.handles w').
Proof.
  intros Hm Hc Hf Hk. unfold WriteToFile. rewrite Hm, Hc.
  destruct (CreateTemp_spec _ _ _ _ Hc) as (Hwf & _ & Hfiles & _).
  unfold os.Write. rewrite Hwf, Hf.
  apply Nat.ltb_lt in Hk. rewrite Hk.
  eexists. split; [reflexivity|]. split.
  - unfold os.Close.
    cbn [os.files os.with_handles os.with_write_fault os.with_files].
    rewrite lookup_insert_eq, Hfiles, lookup_insert_eq. reflexivity.
  - intros Hin. apply Close_handles in Hin as [_ Hne]. apply Hne. reflexivity.
Qed.

Lemma WriteToFile_partial_write_witness :
  exists w',
    WriteToFile manifest_model_pt world_full = ("", "", Some enospc, w') /\
    os.files w' !! "/tmp/tmpfile-4242"
    = Some (firstn 10 (fst (json.Marshal encode_Manifest manifest_model_pt))) /\
    ~ In "/tmp/tmpfile-4242"%string (os.handles w').
Proof.
  apply (WriteToFile_partial_write manifest_model_pt world_full
           (snd (os.CreateTemp "tmpfile-" world_full))
           (fst (json.Marshal encode_Manifest manifest_model_pt))
           {| os.Name := "/tmp/tmpfile-4242" |} 10%nat enospc).
  - vm_compute. reflexivity.
  - vm_compute. reflexivity.
  - reflexivity.
  - vm_compute. lia.
Defined.

Lemma encode_map_fails {A : Type} (enc : A -> option json.tree)
  (c : gmap string A) (k : string) (v : A) :
  c !! k = Some v -> enc v = None -> json.encode_map enc (Some c) = None.
Proof.
  intros Hk Hv. unfold json.encode_map.
  rewrite (mapM_None_2 _ (json.sorted_members (enc <$> c))); [reflexivity|].
  apply List.Exists_exists. exists (k, None). split; [|reflexivity].
  apply list_elem_of_In. unfold json.sorted_members.
  rewrite merge_sort_Permutation. apply elem_of_map_to_list.
  rewrite lookup_fmap, Hk. cbn. rewrite Hv. reflexivity.
Qed.

Lemma encode_ManifestEntry_fails (e : ManifestEntry)
  (x : gmap string json.value) (k : string) (v : json.value) :
  Extra e = Some x -> x !! k = Some v -> json.encode_interface v = None ->
  encode_ManifestEntry e = None.
Proof.
  intros He Hk Hv.
  unfold encode_ManifestEntry, json.encode_struct, ManifestEntry_encoders.
  cbn [json.encode_fields json.fe_encode json.fe_name]. rewrite He.
  assert (Hne : map_is_empty (Some x) = false).
  { cbn [map_is_empty]. apply bool_decide_eq_false. intros ->.
    rewrite lookup_empty in Hk. discriminate Hk. }
  rewrite Hne, (encode_map_fails json.encode_interface x k v Hk Hv).
  destruct (Ref e); reflexivity.
Qed.

Lemma encode_Manifest_fails (m : Manifest) (c : gmap string ManifestEntry)
  (path : string) (e : ManifestEntry) :
  Contents m = Some c -> c !! path = Some e -> encode_ManifestEntry e = None ->
  encode_Manifest m = None.
Proof.
  intros Hc Hp He.
  unfold encode_Manifest, json.encode_struct, Manifest_encoders.
  cbn [json.encode_fields json.fe_encode json.fe_name].
  rewrite Hc, (encode_map_fails encode_ManifestEntry c path e Hp He).
  destruct (json.encode_struct _ _); reflexivity.
Qed.

(** X11. A NaN or an infinity among the values of some entry's [Extra]
    makes [json.Marshal] fail: [WriteToFile] returns its error, no name and
    no digest, and has not touched the file system. *)
Theorem WriteToFile_unsupported_value
  (m : Manifest) (w : os.state) (c : gmap string ManifestEntry)
  (path : string) (e : ManifestEntry) (x : gmap string json.value)
  (k : string) (f : strconv.float64) :
  Contents m = Some c -> c !! path = Some e ->
  Extra e = Some x -> x !! k = Some (json.VFloat64 f) ->
  (f = S754_nan \/ exists s, f = S754_infinity s) ->
  WriteToFile m w = ("", "", Some UnsupportedValueError, w).
Proof.
  intros Hc Hp He Hk Hf.
  assert (Hv : json.encode_interface (json.VFloat64 f) = None)
    by (destruct Hf as [->|[s ->]]; reflexivity).
  unfold WriteToFile, json.Marshal.
  rewrite (encode_Manifest_fails m c path e Hc Hp
             (encode_ManifestEntry_fails e x k _ He Hk Hv)).
  reflexivity.
Qed.

Lemma WriteToFile_unsupported_value_witness :
  WriteToFile manifest_nan world0
  = ("", "", Some UnsupportedValueError, world0).
Proof.
  apply (WriteToFile_unsupported_value manifest_nan world0
           {[ "loss.txt" := entry_nan ]} "loss.txt" entry_nan
           {[ "loss" := json.VFloat64 S754_nan ]} "loss" S754_nan).
  - reflexivity.
  - vm_compute. reflexivity.
  - reflexivity.
  - vm_compute. reflexivity.
  - left. reflexivity.
Defined.

Lemma map_is_empty_reread (e : ManifestEntry) :
  map_is_empty (Extra (reread_entry e)) = map_is_empty (Extra e).
Proof.
  unfold reread_entry. cbn [Extra].
  destruct (map_is_empty (Extra e)) eqn:He; [reflexivity|exact He].
Qed.

Lemma encode_ManifestEntry_reread (e : ManifestEntry) :
  encode_ManifestEntry (reread_entry e) = encode_ManifestEntry e.
Proof.
  unfold encode_ManifestEntry, json.encode_struct, ManifestEntry_encoders.
  cbn [json.encode_fields json.fe_encode json.fe_name].
  rewrite map_is_empty_reread.
  unfold reread_entry. cbn [Digest BirthArtifactID Ref Size Extra].
  destruct (map_is_empty (Extra e)); reflexivity.
Qed.

Lemma encode_Manifest_reread (m : Manifest) :
  encode_Manifest (reread m) = encode_Manifest m.
Proof.
  unfold encode_Manifest, json.encode_struct, Manifest_encoders.
  cbn [json.encode_fields json.fe_encode json.fe_name].
  unfold reread. cbn [Version StoragePolicy StoragePolicyConfig' Contents].
  destruct (Contents m) as [c|]; [|reflexivity].
  cbn [json.encode_map].
  replace (encode_ManifestEntry <$> (reread_entry <$> c))
    with (encode_ManifestEntry <$> c); [reflexivity|].
  apply map_eq. intros k. rewrite !lookup_fmap.
  destruct (c !! k) as [e|]; [|reflexivity].
  cbn [fmap option_fmap option_map].
  rewrite encode_ManifestEntry_reread. reflexivity.
Qed.

(** X12. What is written depends on nothing the tags leave out: two
    manifests that differ only in [LocalPath], in [DownloadURL] and in
    whether an empty [Extra] is nil are written as the same bytes, under the
    same name and with the same digest. *)
Theorem WriteToFile_ignores_unwritten_fields
  (m1 m2 : Manifest) (w : os.state) :
  reread m1 = reread m2 -> WriteToFile m1 w = WriteToFile m2 w.
Proof.
  intros H. unfold WriteToFile, json.Marshal.
  rewrite <- (encode_Manifest_reread m1), H, encode_Manifest_reread.
  reflexivity.
Qed.

Lemma WriteToFile_ignores_unwritten_fields_witness :
  WriteToFile manifest_sample world0 = WriteToFile manifest_sample_bare world0.
Proof.
  apply (WriteToFile_ignores_unwritten_fields manifest_sample
           manifest_sample_bare world0).
  vm_compute. reflexivity.
Defined.

(** X13. The name a successful [WriteToFile] returns: the temporary
    directory, [/tmpfile-] and a number; no file of that name existed
    before; the name is not empty; and the file is closed. *)
Theorem WriteToFile_filename
  (m : Manifest) (w w' : os.state) (filename digest : string) :
  WriteToFile m w = (filename, digest, None, w') ->
  os.files w !! filename = None /\
  (exists n, filename
             = os.tmpdir w +:+ "/" +:+ "tmpfile-"
               +:+ string_of_list_byte (strconv.FormatInt n)) /\
  filename <> ""%string /\
  ~ In filename (os.handles w').
Proof.
  intros H. destruct (WriteToFile_fresh _ _ _ _ _ H) as (Hnone & Hname & Hh).
  split; [exact Hnone|]. split; [exact Hname|]. split; [|exact Hh].
  destruct Hname as [n ->]. destruct (os.tmpdir w); discriminate.
Qed.

Lemma WriteToFile_filename_witness :
  os.files world0 !! "/tmp/tmpfile-4242" = None /\
  (exists n, "/tmp/tmpfile-4242"%string
             = os.tmpdir world0 +:+ "/" +:+ "tmpfile-"
               +:+ string_of_list_byte (strconv.FormatInt n)) /\
  "/tmp/tmpfile-4242"%string <> ""%string /\
  ~ In "/tmp/tmpfile-4242"%string
       (os.handles (snd (WriteToFile manifest_sample world0))).
Proof.
  apply (WriteToFile_filename manifest_sample world0 _ "/tmp/tmpfile-4242"
           "3lFtcYOGONsRtdvcIsYzxg==").
  vm_compute. reflexivity.
Defined.





(** X15. Two writes, one after the other: the second goes to a file of
    its own, and the file of the first still holds what was written. *)
Theorem WriteToFile_twice
  (m1 m2 : Manifest) (w w1 w2 : os.state)
  (filename1 digest1 filename2 digest2 : string) :
  WriteToFile m1 w = (filename1, digest1, None, w1) ->
  WriteToFile m2 w1 = (filename2, digest2, None, w2) ->
  filename1 <> filename2 /\
  exists data,
    json.Marshal encode_Manifest m1 = (data, None) /\
    os.files w2 !! filename1 = Some data.
Proof.
  intros H1 H2.
  destruct (WriteToFile_written _ _ _ _ _ H1) as (data & Hm & Hfile).
  destruct (WriteToFile_fresh _ _ _ _ _ H2) as (Hnone & _).
  split; [intros ->; congruence|].
  exists data. split; [exact Hm|].
  apply (proj1 (WriteToFile_frame _ _ _ _ _ _ H2)). exact Hfile.
Qed.

Lemma WriteToFile_twice_witness :
  "/tmp/tmpfile-4242"%string <> "/tmp/tmpfile-4243"%string /\
  exists data,
    json.Marshal encode_Manifest manifest_sample = (data, None) /\
    os.files (snd (WriteToFile manifest_model_pt
                     (snd (WriteToFile manifest_sample world0))))
      !! "/tmp/tmpfile-4242" = Some data.
Proof.
  apply (WriteToFile_twice manifest_sample manifest_model_pt world0
           (snd (WriteToFile manifest_sample world0))
           (snd (WriteToFile manifest_model_pt
                   (snd (WriteToFile manifest_sample world0))))
           "/tmp/tmpfile-4242" "3lFtcYOGONsRtdvcIsYzxg=="
           "/tmp/tmpfile-4243" "dPP97rWvJP8bWVoUn94o0A==").
  - vm_compute. reflexivity.
  - vm_compute. reflexivity.
Defined.

(** * More of the Remote Loader, and of the round trip *)

(** X16. [loadManifestFromURL] returns no error exactly when the request
    was answered with status 200 and the body was read to its end; whether
    the body then decodes makes no difference. *)
Theorem loadManifestFromURL_error_iff (net : http.network) (url : string) :
  snd (loadManifestFromURL net url) = None <->
  exists resp body,
    http.Get net url = inl resp /\
    http.StatusCode resp = http.StatusOK /\
    io.ReadAll (http.Body resp) = (body, None).
Proof.
  unfold loadManifestFromURL.
  destruct (http.Get net url) as [resp|err].
  - destruct (Z.eqb_spec (http.StatusCode resp) http.StatusOK) as [Hs|Hs];
      cbn [negb].
    + destruct (io.ReadAll (http.Body resp)) as [body [e|]] eqn:Hb.
      * split; [discriminate|]. intros (r & b & [= <-] & _ & Hr).
        congruence.
      * destruct (json.Unmarshal _ _ _); cbn [snd];
          (split; [intros _; eauto|reflexivity]).
    + split; [discriminate|]. intros (r & b & [= <-] & Hok & _).
      contradiction.
  - split; [discriminate|]. intros (r & b & Hr & _). discriminate Hr.
Qed.

(** X17. The errors of [loadManifestFromURL]: the error of the request as
    it is; the status code, when it is not 200; the text of the error that
    ended the reading of the body, under [error reading response body: ]
    and not wrapped. With each of them the manifest returned is empty. *)
Theorem loadManifestFromURL_error_cases
  (net : http.network) (url : string) (m : Manifest) (err : error) :
  loadManifestFromURL net url = (m, Some err) ->
  m = zero_Manifest /\
  (http.Get net url = inr err \/
   (exists resp,
      http.Get net url = inl resp /\
      http.StatusCode resp <> http.StatusOK /\
      err = fmt.Errorf_d
              "request to get manifest from url failed with status code: "
              (http.StatusCode resp)) \/
   (exists resp body e,
      http.Get net url = inl resp /\
      http.StatusCode resp = http.StatusOK /\
      io.ReadAll (http.Body resp) = (body, Some e) /\
      err = errorString ("error reading response body: " +:+ Error e))).
Proof.
  unfold loadManifestFromURL.
  destruct (http.Get net url) as [resp|e0].
  - destruct (Z.eqb_spec (http.StatusCode resp) http.StatusOK) as [Hs|Hs];
      cbn [negb].
    + destruct (io.ReadAll (http.Body resp)) as [body [e|]] eqn:Hb.
      * intros [= <- <-]. split; [reflexivity|]. right. right.
        exists resp, body, e. auto.
      * destruct (json.Unmarshal _ _ _); discriminate.
    + intros [= <- <-]. split; [reflexivity|]. right. left.
      exists resp. auto.
  - intros [= <- <-]. auto.
Qed.

Lemma loadManifestFromURL_error_cases_witness :
  zero_Manifest = zero_Manifest /\
  (http.Get net_truncated "https://example.com/m"
   = inr (errorString "error reading response body: unexpected EOF") \/
   (exists resp,
      http.Get net_truncated "https://example.com/m" = inl resp /\
      http.StatusCode resp <> http.StatusOK /\
      errorString "error reading response body: unexpected EOF"
      = fmt.Errorf_d
          "request to get manifest from url failed with status code: "
          (http.StatusCode resp)) \/
   (exists resp body e,
      http.Get net_truncated "https://example.com/m" = inl resp /\
      http.StatusCode resp = http.StatusOK /\
      io.ReadAll (http.Body resp) = (body, Some e) /\
      errorString "error reading response body: unexpected EOF"
      = errorString ("error reading response body: " +:+ Error e))).
Proof.
  apply (loadManifestFromURL_error_cases net_truncated
           "https://example.com/m" zero_Manifest
           (errorString "error reading response body: unexpected EOF")).
  vm_compute. reflexivity.
Defined.

(** X18. Writing, then loading: when a server answers with the bytes
    [WriteToFile] wrote for a manifest that can be read back,
    [loadManifestFromURL] returns that manifest, without local paths and
    download URLs and with nil for an empty [Extra]. *)
Theorem loadManifestFromURL_reads_written
  (m : Manifest) (w w' : os.state) (filename digest : string)
  (data : list byte) (net : http.network) (url : string)
  (resp : http.Response) :
  manifest_ok m ->
  WriteToFile m w = (filename, digest, None, w') ->
  os.files w' !! filename = Some data ->
  http.Get net url = inl resp ->
  http.StatusCode resp = http.StatusOK ->
  io.ReadAll (http.Body resp) = (data, None) ->
  loadManifestFromURL net url = (reread m, None).
Proof.
  intros Hok Hw Hfile Hget Hs Hbody.
  destruct (WriteToFile_written _ _ _ _ _ Hw) as (data' & Hm & Hfile').
  assert (data' = data) as -> by congruence.
  unfold loadManifestFromURL. rewrite Hget, Hs, Z.eqb_refl, Hbody.
  cbn [negb]. rewrite (Unmarshal_Marshal_Manifest m data Hok Hm).
  reflexivity.
Qed.

Lemma loadManifestFromURL_reads_written_witness :
  loadManifestFromURL net_sample "https://example.com/m"
  = (reread manifest_sample, None).
Proof.
  apply (loadManifestFromURL_reads_written manifest_sample world0
           (snd (WriteToFile manifest_sample world0))
           "/tmp/tmpfile-4242" "3lFtcYOGONsRtdvcIsYzxg=="
           (written (WriteToFile manifest_sample world0))
           net_sample "https://example.com/m"
           {| http.StatusCode := 200;
              http.Body :=
                (written (WriteToFile manifest_sample world0), None) |}).
  - exact manifest_sample_ok.
  - vm_compute. reflexivity.
  - vm_compute. reflexivity.
  - reflexivity.
  - reflexivity.
  - reflexivity.
Defined.

(** X19. A value of [Extra] as [json.Marshal] writes it, given to the
    converter as the [ValueJson] of an item, is read as the same value. *)
Theorem NewManifestFromProto_reads_written_value
  (n : nat) (v : json.value) (item : service.ExtraItem) :
  value_ok n v -> Z.of_nat n <= json.maxNestingDepth ->
  json.Marshal json.encode_interface v
  = (bytes_of (service.ValueJson item), None) ->
  extra_of_items [item] ∅ = inl {[ service.Key item := v ]}.
Proof.
  intros Hok Hn. unfold json.Marshal.
  destruct (json.encode_interface v) as [t|] eqn:Henc; [|discriminate].
  intros [= Ht]. destruct (interface_roundtrip n v t Hok Henc) as [Hwf Hdec].
  cbn [extra_of_items]. unfold json.Unmarshal.
  rewrite <- Ht, (parse_render n t Hwf Hn), Hdec. reflexivity.
Qed.

Lemma NewManifestFromProto_reads_written_value_witness :
  extra_of_items
    [ {| service.Key := "versionID"; service.ValueJson := "[1,2.5,null]" |} ]
    ∅
  = inl {[ "versionID" :=
             json.VSlice [json.VFloat64 float_1; json.VFloat64 float_2_5;
                          json.VNil] ]}.
Proof.
  apply (NewManifestFromProto_reads_written_value 1
           (json.VSlice [json.VFloat64 float_1; json.VFloat64 float_2_5;
                         json.VNil])
           {| service.Key := "versionID";
              service.ValueJson := "[1,2.5,null]" |}).
  - cbn [value_ok]. repeat constructor.
  - vm_compute. discriminate.
  - vm_compute. reflexivity.
Defined.

Lemma lookup_reread (m : Manifest) (path : string) (e : ManifestEntry) :
  GetManifestEntryFromArtifactFilePath m path = (e, None) ->
  GetManifestEntryFromArtifactFilePath (reread m) path
  = (reread_entry e, None).
Proof.
  unfold GetManifestEntryFromArtifactFilePath, reread. cbn [Contents].
  destruct (Contents m) as [c|].
  - change (default ∅ (Some (reread_entry <$> c))) with (reread_entry <$> c).
    change (default ∅ (Some c)) with c. cbv zeta.
    rewrite lookup_fmap. destruct (c !! path) as [x|]; [|discriminate].
    intros [= <-]. reflexivity.
  - change (default ∅ (@None (gmap string ManifestEntry)))
      with (∅ : gmap string ManifestEntry).
    cbv zeta. rewrite lookup_empty. discriminate.
Qed.

(** X20. Writing, reading back, then lookup: a path found in a manifest is
    found in the manifest read back from the file, and its entry there is
    the entry without [LocalPath] and [DownloadURL] and with nil for an
    empty [Extra]. *)
Theorem lookup_after_roundtrip
  (m : Manifest) (w w' : os.state) (filename digest path : string)
  (e : ManifestEntry) :
  manifest_ok m ->
  WriteToFile m w = (filename, digest, None, w') ->
  GetManifestEntryFromArtifactFilePath m path = (e, None) ->
  exists data m',
    os.files w' !! filename = Some data /\
    json.Unmarshal decode_Manifest data zero_Manifest = inl m' /\
    GetManifestEntryFromArtifactFilePath m' path = (reread_entry e, None).
Proof.
  intros Hok Hw Hl.
  destruct (WriteToFile_written _ _ _ _ _ Hw) as (data & Hm & Hfile).
  exists data, (reread m). split; [exact Hfile|].
  split; [apply Unmarshal_Marshal_Manifest; assumption|].
  apply lookup_reread, Hl.
Qed.

Lemma lookup_after_roundtrip_witness :
  exists data m',
    os.files (snd (WriteToFile manifest_sample world0)) !! "/tmp/tmpfile-4242"
    = Some data /\
    json.Unmarshal decode_Manifest data zero_Manifest = inl m' /\
    GetManifestEntryFromArtifactFilePath m' "data/x.csv"
    = (reread_entry entry_x_csv, None).
Proof.
  apply (lookup_after_roundtrip manifest_sample world0
           (snd (WriteToFile manifest_sample world0))
           "/tmp/tmpfile-4242" "3lFtcYOGONsRtdvcIsYzxg==").
  - exact manifest_sample_ok.
  - vm_compute. reflexivity.
  - vm_compute. reflexivity.
Defined.

Lemma manifest_x_csv_ok : manifest_ok manifest_x_csv.
Proof.
  unfold manifest_ok, manifest_x_csv.
  cbn [Version StoragePolicy StoragePolicyConfig' StorageLayout Contents].
  split; [apply in_int_small; [auto|lia]|].
  split; [reflexivity|]. split; [reflexivity|].
  intros contents [= <-]. apply map_Forall_singleton.
  split; [reflexivity|apply entry_x_csv_ok].
Qed.

Lemma manifest_x_csv_extras (c : gmap string ManifestEntry) (path : string)
  (e : ManifestEntry) :
  Contents manifest_x_csv = Some c -> c !! path = Some e ->
  Extra e <> Some ∅.
Proof.
  intros [= <-] Hl. apply lookup_singleton_Some in Hl as [_ <-].
  intros H. apply (f_equal (fun x => x ≫= (.!! "versionID"))) in H.
  vm_compute in H. discriminate H.
Qed.

(** X21. The round trip is exact, up to [LocalPath] and [DownloadURL],
    for the manifests that can be read back and have no entry with an empty
    [Extra] that is not nil. *)
Theorem WriteToFile_roundtrip_exact
  (m : Manifest) (w w' : os.state) (filename digest : string) :
  manifest_ok m ->
  (forall c path e, Contents m = Some c -> c !! path = Some e ->
     Extra e <> Some ∅) ->
  WriteToFile m w = (filename, digest, None, w') ->
  exists data,
    os.files w' !! filename = Some data /\
    json.Unmarshal decode_Manifest data zero_Manifest
    = inl (forget_locals m).
Proof.
  intros Hok Hextra Hw.
  destruct (WriteToFile_written _ _ _ _ _ Hw) as (data & Hm & Hfile).
  exists data. split; [exact Hfile|].
  rewrite <- (reread_forget_locals m Hextra).
  apply Unmarshal_Marshal_Manifest; assumption.
Qed.

Lemma WriteToFile_roundtrip_exact_witness :
  exists data,
    os.files (snd (WriteToFile manifest_x_csv world0)) !! "/tmp/tmpfile-4242"
    = Some data /\
    json.Unmarshal decode_Manifest data zero_Manifest
    = inl (forget_locals manifest_x_csv).
Proof.
  apply (WriteToFile_roundtrip_exact manifest_x_csv world0
           (snd (WriteToFile manifest_x_csv world0))
           "/tmp/tmpfile-4242"
           (snd (fst (fst (WriteToFile manifest_x_csv world0))))).
  - exact manifest_x_csv_ok.
  - exact manifest_x_csv_extras.
  - vm_compute. reflexivity.
Defined.

(** X22. The text is a fixed point: what [json.Unmarshal] reads from the
    text [json.Marshal] wrote for a manifest is written by [json.Marshal]
    as the same text, hence with the same digest. *)
Theorem Marshal_Unmarshal_Marshal (m : Manifest) (data : list byte) :
  manifest_ok m ->
  json.Marshal encode_Manifest m = (data, None) ->
  exists m',
    json.Unmarshal decode_Manifest data zero_Manifest = inl m' /\
    json.Marshal encode_Manifest m' = (data, None).
Proof.
  intros Hok Hm. exists (reread m).
  split; [apply Unmarshal_Marshal_Manifest; assumption|].
  unfold json.Marshal in *. rewrite encode_Manifest_reread. exact Hm.
Qed.

Lemma Marshal_Unmarshal_Marshal_witness :
  exists m',
    json.Unmarshal decode_Manifest
      (fst (json.Marshal encode_Manifest manifest_sample)) zero_Manifest
    = inl m' /\
    json.Marshal encode_Manifest m'
    = (fst (json.Marshal encode_Manifest manifest_sample), None).
Proof.
  apply (Marshal_Unmarshal_Marshal manifest_sample).
  - exact manifest_sample_ok.
  - vm_compute. reflexivity.
Defined.

(** ** What the decoder never sets *)

Lemma find_field_In {S : Type} (fs : list (json.field_decoder S))
  (key : string) (f : json.field_decoder S) :
  json.find_field fs key = Some f -> In f fs.
Proof.
  unfold json.find_field.
  destruct (find _ fs) as [g|] eqn:H1.
  - intros [= <-]. apply (find_some _ _ H1).
  - intros H2. apply (find_some _ _ H2).
Qed.

Lemma foldl_decode_member_None {S : Type} (fs : list (json.field_decoder S))
  (members : list (string * json.tree)) :
  foldl (json.decode_member fs) None members = None.
Proof. induction members as [|kv l IH]; [reflexivity|exact IH]. Qed.

Lemma decode_struct_invariant {S : Type} (P : S -> Prop)
  (fs : list (json.field_decoder S)) :
  (forall f t v v', In f fs -> P v -> json.fd_decode f t v = Some v' -> P v') ->
  forall t v v', P v -> json.decode_struct fs t v = Some v' -> P v'.
Proof.
  intros Hfs t v v' Hv. unfold json.decode_struct.
  destruct t as [| | | | |members]; try discriminate.
  - intros [= <-]. exact Hv.
  - revert v Hv. induction members as [|kv l IH]; intros v Hv H.
    + injection H as <-. exact Hv.
    + cbn [foldl] in H.
      destruct (json.decode_member fs (Some v) kv) as [v1|] eqn:Hd.
      * apply (IH v1); [|exact H]. unfold json.decode_member in Hd.
        destruct (json.find_field fs (fst kv)) as [f|] eqn:Hf.
        -- apply (Hfs f (snd kv) v v1 (find_field_In _ _ _ Hf) Hv Hd).
        -- injection Hd as <-. exact Hv.
      * rewrite foldl_decode_member_None in H. discriminate H.
Qed.

Lemma decode_ManifestEntry_no_locals (t : json.tree) (e e' : ManifestEntry) :
  no_locals e -> decode_ManifestEntry t e = Some e' -> no_locals e'.
Proof.
  apply (decode_struct_invariant no_locals ManifestEntry_decoders).
  intros f t0 v v' Hin [Hl Hu] Hd. unfold ManifestEntry_decoders in Hin.
  cbn [In] in Hin.
  destruct Hin as [<-|[<-|[<-|[<-|[<-|[]]]]]]; cbn [json.fd_decode] in Hd;
    match type of Hd with
    | _ <$> ?x = _ => destruct x; [|discriminate Hd]
    end; injection Hd as <-; split; assumption.
Qed.

Lemma foldl_decode_map_None {A : Type} (zero : A)
  (dec : json.tree -> A -> option A) (l : list (string * json.tree)) :
  foldl (fun (acc : option (gmap string A)) (kv : string * json.tree) =>
           match acc, dec (snd kv) zero with
           | Some m, Some v => Some (<[fst kv := v]> m)
           | _, _ => None
           end) None l = None.
Proof. induction l as [|x l' IHl]; [reflexivity|exact IHl]. Qed.

Lemma decode_map_invariant {A : Type} (P : A -> Prop) (zero : A)
  (dec : json.tree -> A -> option A) (t : json.tree)
  (old new : option (gmap string A)) :
  (forall t v, dec t zero = Some v -> P v) ->
  (forall c, old = Some c -> map_Forall (fun _ => P) c) ->
  json.decode_map zero dec t old = Some new ->
  forall c, new = Some c -> map_Forall (fun _ => P) c.
Proof.
  intros Hdec Hold. unfold json.decode_map.
  destruct t as [| | | | |members]; try discriminate.
  - intros [= <-] c Hc. discriminate Hc.
  - assert (Hstart : map_Forall (fun _ : string => P) (default ∅ old)).
    { destruct old as [c0|]; [apply (Hold c0 eq_refl)|apply map_Forall_empty]. }
    revert Hstart. generalize (default ∅ old) as acc.
    induction members as [|kv l IH]; intros acc Hacc H c Hc.
    + cbn in H. injection H as <-. injection Hc as <-. exact Hacc.
    + cbn [foldl] in H. destruct (dec (snd kv) zero) as [v|] eqn:Hv.
      * apply (IH (<[fst kv := v]> acc)); [|exact H|exact Hc].
        apply map_Forall_insert_2; [apply (Hdec _ _ Hv)|exact Hacc].
      * rewrite foldl_decode_map_None in H. discriminate H.
Qed.

Lemma decode_Manifest_no_locals (t : json.tree) (m : Manifest) :
  decode_Manifest t zero_Manifest = Some m ->
  forall c, Contents m = Some c -> map_Forall (fun _ => no_locals) c.
Proof.
  apply (decode_struct_invariant
           (fun m => forall c, Contents m = Some c ->
                       map_Forall (fun _ : string => no_locals) c)
           Manifest_decoders).
  - intros f t0 v v' Hin Hv Hd. unfold Manifest_decoders in Hin.
    cbn [In] in Hin.
    destruct Hin as [<-|[<-|[<-|[<-|[]]]]]; cbn [json.fd_decode] in Hd.
    + destruct (json.decode_int _ _ _); [|discriminate Hd].
      injection Hd as <-. exact Hv.
    + destruct (json.decode_string _ _); [|discriminate Hd].
      injection Hd as <-. exact Hv.
    + destruct (json.decode_struct _ _ _); [|discriminate Hd].
      injection Hd as <-. exact Hv.
    + destruct (json.decode_map _ _ _ _) as [new|] eqn:Hm; [|discriminate Hd].
      injection Hd as <-. cbn [Contents].
      assert (Hzero : no_locals zero_ManifestEntry) by (split; reflexivity).
      apply (decode_map_invariant no_locals _ _ _ _ _
               (fun t1 v1 => decode_ManifestEntry_no_locals
                               t1 zero_ManifestEntry v1 Hzero) Hv Hm).
  - intros c Hc. discriminate Hc.
Qed.

(** X23. Whatever the server sends, no entry of a loaded manifest has a
    [LocalPath] or a [DownloadURL]: the decoder never stores into the
    fields tagged [-]. *)
Theorem loadManifestFromURL_sets_no_locals
  (net : http.network) (url : string) (m : Manifest)
  (c : gmap string ManifestEntry) (path : string) (e : ManifestEntry) :
  loadManifestFromURL net url = (m, None) ->
  Contents m = Some c -> c !! path = Some e ->
  LocalPath e = None /\ DownloadURL e = None.
Proof.
  unfold loadManifestFromURL. intros H Hc Hl.
  destruct (http.Get net url) as [resp|]; [|discriminate H].
  destruct (negb _); [discriminate H|].
  destruct (io.ReadAll _) as [body [err|]]; [discriminate H|].
  unfold json.Unmarshal in H. destruct (json.parse body) as [t|].
  - destruct (decode_Manifest t zero_Manifest) as [m'|] eqn:Hd.
    + injection H as Hm. subst m'.
      apply (decode_Manifest_no_locals t m Hd c Hc path e Hl).
    + injection H as <-. discriminate Hc.
  - injection H as <-. discriminate Hc.
Qed.

Lemma loadManifestFromURL_sets_no_locals_witness :
  LocalPath (reread_entry entry_x_csv) = None /\
  DownloadURL (reread_entry entry_x_csv) = None.
Proof.
  apply (loadManifestFromURL_sets_no_locals net_sample
           "https://example.com/m" (reread manifest_sample)
           (reread_entry <$> (<[ "data/x.csv" := entry_x_csv ]>
                                {[ "model.pt" := entry_model_pt ]}))
           "data/x.csv").
  - vm_compute. reflexivity.
  - reflexivity.
  - vm_compute. reflexivity.
Defined.

(** * From the wire format to the file and back *)

Lemma extra_of_items_origin (items : list service.ExtraItem) :
  forall (acc extra : gmap string json.value) (key : string) (v : json.value),
  extra_of_items items acc = inl extra ->
  extra !! key = Some v ->
  acc !! key = Some v \/
  exists item,
    In item items /\ service.Key item = key /\
    json.Unmarshal (fun t _ => json.decode_interface t)
      (bytes_of (service.ValueJson item)) json.VNil = inl v.
Proof.
  induction items as [|item items IH]; intros acc extra key v H Hl;
    simpl in H.
  - left. congruence.
  - destruct (json.Unmarshal _ _ _) as [x|] eqn:Hu; [|discriminate].
    destruct (IH _ _ _ _ H Hl) as [Hacc|(i & Hin & Hk & Hi)].
    + destruct (decide (service.Key item = key)) as [Heq|Hne].
      * right. exists item. rewrite Heq, lookup_insert_eq in Hacc.
        injection Hacc as ->. auto using in_eq.
      * left. rewrite lookup_insert_ne in Hacc by exact Hne. exact Hacc.
    + right. exists i. auto using in_cons.
Qed.

Lemma NilIfZero_valid (s : string) :
  utf8.ValidString s = true -> valid_ptr (utils.NilIfZero s).
Proof.
  intros Hs x. unfold utils.NilIfZero.
  destruct (String.eqb s ""); [discriminate|]. intros [= <-]. exact Hs.
Qed.

Lemma entry_of_proto_ok (entry : service.ArtifactManifestEntry)
  (extra : gmap string json.value) :
  wire_entry_ok entry ->
  extra_of_items (service.Extra entry) ∅ = inl extra ->
  entry_ok extra_depth (entry_of_proto entry extra).
Proof.
  intros (_ & Hd & Hb & Hr & Hs & Hitems) Hx.
  unfold entry_ok, entry_of_proto.
  cbn [Digest BirthArtifactID Ref Size Extra].
  split; [exact Hd|]. split; [apply NilIfZero_valid, Hb|].
  split; [apply NilIfZero_valid, Hr|]. split; [exact Hs|].
  intros x [= <-] key v Hl.
  destruct (extra_of_items_origin _ _ _ _ _ Hx Hl)
    as [Hacc|(item & Hin & <- & Hu)].
  - rewrite lookup_empty in Hacc. discriminate Hacc.
  - destruct (proj1 (List.Forall_forall _ _) Hitems item Hin) as [Hk Hv].
    split; [exact Hk|apply (Hv v Hu)].
Qed.

(** A converted manifest of such wire-format data can be read back. *)
Lemma NewManifestFromProto_ok (proto : service.ArtifactManifest)
  (m : Manifest) :
  proto_ok proto -> NewManifestFromProto proto = (m, None) -> manifest_ok m.
Proof.
  intros (Hv & Hp & Hentries) H.
  apply NewManifestFromProto_inv in H as (c & Hc & ->).
  unfold manifest_ok.
  cbn [Version StoragePolicy StoragePolicyConfig' StorageLayout Contents].
  split; [exact Hv|]. split; [exact Hp|]. split; [reflexivity|].
  intros contents [= <-] path me Hl.
  destruct (contents_of_entries_origin _ _ _ _ _ Hc Hl)
    as [Hacc|(entry & extra & Hin & <- & Hx & ->)].
  - rewrite lookup_empty in Hacc. discriminate Hacc.
  - pose proof (proj1 (List.Forall_forall _ _) Hentries entry Hin) as Hok.
    split; [apply Hok|apply entry_of_proto_ok; assumption].
Qed.

(** X24. From the wire format to the file and back: a manifest converted
    from wire-format data whose strings are valid UTF-8, written by
    [WriteToFile] and served with status 200, is loaded as the converted
    manifest without local paths and with nil for an empty [Extra]. *)
Theorem convert_write_load
  (proto : service.ArtifactManifest) (m : Manifest) (w w' : os.state)
  (filename digest : string) (data : list byte)
  (net : http.network) (url : string) (resp : http.Response) :
  proto_ok proto ->
  NewManifestFromProto proto = (m, None) ->
  WriteToFile m w = (filename, digest, None, w') ->
  os.files w' !! filename = Some data ->
  http.Get net url = inl resp ->
  http.StatusCode resp = http.StatusOK ->
  io.ReadAll (http.Body resp) = (data, None) ->
  loadManifestFromURL net url = (reread m, None).
Proof.
  intros Hok Hconv Hw Hfile Hget Hs Hbody.
  pose proof (NewManifestFromProto_ok proto m Hok Hconv) as Hm.
  destruct (WriteToFile_written _ _ _ _ _ Hw) as (data' & Hmar & Hfile').
  assert (data' = data) as -> by congruence.
  unfold loadManifestFromURL. rewrite Hget, Hs, Z.eqb_refl, Hbody.
  cbn [negb]. rewrite (Unmarshal_Marshal_Manifest m data Hm Hmar).
  reflexivity.
Qed.

Lemma value_ok_extra_depth_flat (v : json.value) :
  value_ok 1 v -> value_ok extra_depth v.
Proof.
  assert (E : extra_depth = S (Z.to_nat 9995))
    by (unfold extra_depth, json.maxNestingDepth; lia).
  rewrite E. destruct v as [| | | |elems|x]; cbn [value_ok]; auto.
  - intros H. eapply List.Forall_impl; [|exact H].
    intros [| | | |e|y]; cbn [value_ok]; auto; contradiction.
  - intros H k y Hk. destruct (H k y Hk) as [Hv Hy]. split; [exact Hv|].
    destruct y as [| | | |e|z]; cbn [value_ok] in *; auto; contradiction.
Qed.

Lemma wire_model_pt_ok : wire_entry_ok wire_model_pt.
Proof.
  unfold wire_entry_ok, wire_model_pt.
  cbn [service.Path service.Digest service.BirthArtifactId service.Ref
       service.Size service.Extra].
  repeat (split; [reflexivity|]).
  split; [apply in_int_small; [auto|lia]|constructor].
Qed.

Lemma wire_ref_ok (digest : string) :
  utf8.ValidString digest = true -> wire_entry_ok (wire_ref digest).
Proof.
  intros Hd. unfold wire_entry_ok, wire_ref.
  cbn [service.Path service.Digest service.BirthArtifactId service.Ref
       service.Size service.Extra].
  split; [reflexivity|]. split; [exact Hd|].
  split; [reflexivity|]. split; [reflexivity|].
  split; [apply in_int_small; [auto|lia]|].
  constructor; [|constructor; [|constructor]];
    (split; [reflexivity|]); cbn [service.ValueJson]; intros v Hv;
    vm_compute in Hv; injection Hv as <-; apply value_ok_extra_depth_flat;
    cbn [value_ok]; repeat constructor.
Qed.

Lemma proto_two_ok : proto_ok proto_two.
Proof.
  unfold proto_ok, proto_two.
  cbn [service.Version service.StoragePolicy service.Contents].
  split; [apply in_int_small; [auto|lia]|]. split; [reflexivity|].
  constructor; [apply wire_ref_ok; reflexivity|].
  constructor; [apply wire_model_pt_ok|].
  constructor; [apply wire_ref_ok; reflexivity|constructor].
Qed.

Lemma convert_write_load_witness :
  loadManifestFromURL net_two "https://example.com/m"
  = (reread manifest_two, None).
Proof.
  apply (convert_write_load proto_two manifest_two world0
           (snd (WriteToFile manifest_two world0))
           "/tmp/tmpfile-4242"
           (snd (fst (fst (WriteToFile manifest_two world0))))
           (written (WriteToFile manifest_two world0))
           net_two "https://example.com/m"
           {| http.StatusCode := 200;
              http.Body :=
                (written (WriteToFile manifest_two world0), None) |}).
  - exact proto_two_ok.
  - vm_compute. reflexivity.
  - vm_compute. reflexivity.
  - vm_compute. reflexivity.
  - reflexivity.
  - reflexivity.
  - reflexivity.
Defined.
